(** * ferovinum: log reconstruction and price enrichment pipeline

    A shallow embedding of [src/main.py]: the log ingestor ([parse_logs]),
    the two readers ([read_skus], [read_market_prices]), the transaction
    reconstructor ([extract_transactions]) and the enrichment engine
    ([enrich_transactions]), followed by the properties of the written
    specification that concern them.

    Conventions of the embedding.
    - A Python [str] is a [string]; its characters are the code points below
      256, so [\d] is the ten ASCII digits and the white space of [\s] and of
      [str.strip] is the twelve code points listed in [is_space].
    - A pandas frame built by the program has a fixed schema and is a list of
      records.  A frame read from a file carries its column index
      ([DataFrame]), because looking up a missing label raises [KeyError].
    - A datetime64[ns] value is the number of nanoseconds since the epoch,
      [None] is NaT.  A float64 is a [spec_float]; NaN is the null of a float
      column.
    - Code that can raise returns a [result]. *)

From Stdlib Require Import ZArith Ascii String List Bool Lia Permutation Sorting.Sorted.
From Stdlib Require Import Floats.SpecFloat DecimalString.
From stdpp Require Import base option list strings gmap sorting.

Set Default Proof Using "Type".

(** ** Exceptions *)

Inductive exn :=
| KeyError (label : string)
| ValueError (msg : string)
| OverflowError
| UnboundLocalError (name : string).

Inductive result (A : Type) :=
| Ok (a : A)
| Raise (e : exn).
Arguments Ok {A} a.
Arguments Raise {A} e.

Global Instance result_ret : MRet result := fun A a => Ok a.

Global Instance result_bind : MBind result := fun A B f r =>
  match r with
  | Ok a => f a
  | Raise e => Raise e
  end.

Fixpoint mapR {A B} (f : A → result B) (l : list A) : result (list B) :=
  match l with
  | [] => Ok []
  | a :: l' => b ← f a; bs ← mapR f l'; Ok (b :: bs)
  end.

(** ** Characters and strings *)

Definition LF : ascii := "010"%char.
Definition nl : string := String LF "".

Definition code (c : ascii) : N := N_of_ascii c.

(** [\d] on code points below 256. *)
Definition is_digit (c : ascii) : bool :=
  ((48 <=? code c) && (code c <=? 57))%N.

(** [\s], and the characters removed by [str.strip()]. *)
Definition is_space (c : ascii) : bool :=
  (((9 <=? code c) && (code c <=? 13)) || ((28 <=? code c) && (code c <=? 32))
   || (code c =? 133) || (code c =? 160))%N.

(** [\S]. *)
Definition non_space (c : ascii) : bool := negb (is_space c).

(** [.] without DOTALL. *)
Definition not_newline (c : ascii) : bool := negb (Ascii.eqb c LF).

Fixpoint str_forall (p : ascii → bool) (s : string) : bool :=
  match s with
  | "" => true
  | String c s' => p c && str_forall p s'
  end.

Fixpoint str_drop (n : nat) (s : string) : string :=
  match n, s with
  | O, _ => s
  | S n', String _ s' => str_drop n' s'
  | S _, "" => ""
  end.

Definition str_take (n : nat) (s : string) : string := String.substring 0 n s.

(** [s[start:end]] for [0 <= start], [0 <= end]. *)
Definition slice (s : string) (start stop : nat) : string :=
  String.substring start (stop - start) s.

(** [s.endswith(suffix)]. *)
Definition endswith (s suffix : string) : bool :=
  String.eqb (str_drop (String.length s - String.length suffix) s) suffix
  && (String.length suffix <=? String.length s)%nat.

Fixpoint lstrip (s : string) : string :=
  match s with
  | "" => ""
  | String c s' => if is_space c then lstrip s' else s
  end.

Fixpoint rstrip (s : string) : string :=
  match s with
  | "" => ""
  | String c s' =>
      match rstrip s' with
      | "" => if is_space c then "" else String c ""
      | r => String c r
      end
  end.

(** [s.strip()]. *)
Definition strip (s : string) : string := rstrip (lstrip s).

(** [s.replace(old, new)] for one-character [old] and [new]. *)
Fixpoint replace_char (old new : ascii) (s : string) : string :=
  match s with
  | "" => ""
  | String c s' =>
      String (if Ascii.eqb c old then new else c) (replace_char old new s')
  end.

(** [s.find(sep)] as the pair of what precedes and what follows the first
    occurrence. *)
Fixpoint partition_at (sep s : string) : option (string * string) :=
  if String.prefix sep s then Some ("", str_drop (String.length sep) s)
  else match s with
       | "" => None
       | String c s' =>
           match partition_at sep s' with
           | Some (before, after) => Some (String c before, after)
           | None => None
           end
       end.

(** [s.split(sep, maxsplit)] for a non-empty [sep]. *)
Fixpoint str_split (sep : string) (maxsplit : nat) (s : string) : list string :=
  match maxsplit with
  | O => [s]
  | S n =>
      match partition_at sep s with
      | Some (before, after) => before :: str_split sep n after
      | None => [s]
      end
  end.

(** [int(s)] for a string of decimal digits. *)
Definition digit_value (c : ascii) : Z := Z.of_N (code c) - 48.

Fixpoint int_digits (acc : Z) (s : string) : option Z :=
  match s with
  | "" => Some acc
  | String c s' =>
      if is_digit c then int_digits (10 * acc + digit_value c) s' else None
  end.

Definition py_int (s : string) : option Z :=
  match s with
  | "" => None
  | _ => int_digits 0 s
  end.

(** ** Regular expressions

    The fragment of Python's [re] syntax that the program uses, with the
    backtracking order of [re]: alternatives left to right, a greedy
    repetition longest first, a lazy one shortest first. *)

Inductive regex :=
| Eps
| Chr (p : ascii → bool)
| Seq (r1 r2 : regex)
| Alt (r1 r2 : regex)
| Many (greedy : bool) (p : ascii → bool)
| Grp (n : nat) (r : regex)
| Bol (multiline : bool)
| Eol.

(** A position in the subject: the character before it, its index, the text
    from it on, and the groups closed so far (latest first). *)
Record mstate := MState {
  m_prev : option ascii;
  m_pos : nat;
  m_rest : string;
  m_groups : list (nat * string)
}.

Definition step (c : ascii) (rest : string) (s : mstate) : mstate :=
  MState (Some c) (S (m_pos s)) rest (m_groups s).

Definition set_group (n : nat) (from : mstate) (s : mstate) : mstate :=
  MState (m_prev s) (m_pos s) (m_rest s)
    ((n, str_take (m_pos s - m_pos from) (m_rest from)) :: m_groups s).

(** [^]: at the start of the text, and with MULTILINE also after a line feed. *)
Definition at_bol (multiline : bool) (s : mstate) : bool :=
  match m_prev s with
  | None => true
  | Some c => multiline && Ascii.eqb c LF
  end.

(** [$] without MULTILINE: at the end of the text, or before a line feed that
    ends the text. *)
Definition at_eol (s : mstate) : bool :=
  String.eqb (m_rest s) "" || String.eqb (m_rest s) nl.

Fixpoint many_greedy (p : ascii → bool) (k : mstate → option mstate)
    (s : mstate) (rest : string) : option mstate :=
  let here := MState (m_prev s) (m_pos s) rest (m_groups s) in
  match rest with
  | String c rest' =>
      if p c then
        match many_greedy p k (step c rest' s) rest' with
        | Some x => Some x
        | None => k here
        end
      else k here
  | "" => k here
  end.

Fixpoint many_lazy (p : ascii → bool) (k : mstate → option mstate)
    (s : mstate) (rest : string) : option mstate :=
  let here := MState (m_prev s) (m_pos s) rest (m_groups s) in
  match k here with
  | Some x => Some x
  | None =>
      match rest with
      | String c rest' =>
          if p c then many_lazy p k (step c rest' s) rest' else None
      | "" => None
      end
  end.

(** [run r s k]: match [r] at [s] and hand the position reached to [k]; when
    [k] fails, backtrack into [r]. *)
Fixpoint run (r : regex) (s : mstate) (k : mstate → option mstate)
    : option mstate :=
  match r with
  | Eps => k s
  | Chr p =>
      match m_rest s with
      | String c rest => if p c then k (step c rest s) else None
      | "" => None
      end
  | Seq r1 r2 => run r1 s (fun s1 => run r2 s1 k)
  | Alt r1 r2 =>
      match run r1 s k with
      | Some x => Some x
      | None => run r2 s k
      end
  | Many greedy p =>
      (if greedy then many_greedy else many_lazy) p k s (m_rest s)
  | Grp n r1 => run r1 s (fun s1 => k (set_group n s s1))
  | Bol multiline => if at_bol multiline s then k s else None
  | Eol => if at_eol s then k s else None
  end.

(** A match object: [start()], [end()] and the groups. *)
Record re_match := ReMatch {
  m_start : nat;
  m_end : nat;
  m_caps : list (nat * string)
}.

Definition match_at (r : regex) (prev : option ascii) (pos : nat)
    (rest : string) : option re_match :=
  match run r (MState prev pos rest []) Some with
  | Some s => Some (ReMatch pos (m_pos s) (m_groups s))
  | None => None
  end.

(** [m.group(n)]. *)
Fixpoint group (n : nat) (caps : list (nat * string)) : option string :=
  match caps with
  | [] => None
  | (i, v) :: caps' => if (i =? n)%nat then Some v else group n caps'
  end.

Fixpoint search_from (r : regex) (prev : option ascii) (pos : nat)
    (rest : string) : option re_match :=
  match match_at r prev pos rest with
  | Some m => Some m
  | None =>
      match rest with
      | String c rest' => search_from r (Some c) (S pos) rest'
      | "" => None
      end
  end.

(** [re.search(r, text)]. *)
Definition search (r : regex) (text : string) : option re_match :=
  search_from r None 0 text.

(** [r.finditer(text)] for a pattern without empty matches: the scan resumes
    where the previous match ended, so the [skip] positions that the match
    covers are not tried. *)
Fixpoint finditer_from (r : regex) (prev : option ascii) (pos : nat)
    (rest : string) (skip : nat) : list re_match :=
  match skip with
  | S skip' =>
      match rest with
      | String c rest' => finditer_from r (Some c) (S pos) rest' skip'
      | "" => []
      end
  | O =>
      match match_at r prev pos rest with
      | Some m =>
          m :: match rest with
               | String c rest' =>
                   finditer_from r (Some c) (S pos) rest'
                     (m_end m - pos - 1)
               | "" => []
               end
      | None =>
          match rest with
          | String c rest' => finditer_from r (Some c) (S pos) rest' 0
          | "" => []
          end
      end
  end.

Definition finditer (r : regex) (text : string) : list re_match :=
  finditer_from r None 0 text 0.

(** Pattern constructors. *)
Definition chr (c : ascii) : regex := Chr (Ascii.eqb c).

Fixpoint lit (s : string) : regex :=
  match s with
  | "" => Eps
  | String c s' => Seq (chr c) (lit s')
  end.

Fixpoint times (n : nat) (r : regex) : regex :=
  match n with
  | O => Eps
  | S n' => Seq r (times n' r)
  end.

Definition plus (p : ascii → bool) : regex := Seq (Chr p) (Many true p).

Fixpoint seqs (rs : list regex) : regex :=
  match rs with
  | [] => Eps
  | [r] => r
  | r :: rs' => Seq r (seqs rs')
  end.

(** [^(\d{4}-\d{2}-\d{2} \d{2}:\d{2}:\d{2}) \| (ORDER|RESULT|TRANSACTION|RESPONSE) \|]
    with MULTILINE. *)
Definition entry_start_pattern : regex :=
  seqs [ Bol true;
         Grp 1 (seqs [ times 4 (Chr is_digit); lit "-";
                       times 2 (Chr is_digit); lit "-";
                       times 2 (Chr is_digit); lit " ";
                       times 2 (Chr is_digit); lit ":";
                       times 2 (Chr is_digit); lit ":";
                       times 2 (Chr is_digit) ]);
         lit " | ";
         Grp 2 (Alt (lit "ORDER") (Alt (lit "RESULT")
                  (Alt (lit "TRANSACTION") (lit "RESPONSE"))));
         lit " |" ].

(** [(buy|sell)\s+(\S+)\s+(\d+)]. *)
Definition order_pattern : regex :=
  seqs [ Grp 1 (Alt (lit "buy") (lit "sell"));
         plus is_space;
         Grp 2 (plus non_space);
         plus is_space;
         Grp 3 (plus is_digit) ].

(** [^(.*?)-\d+$]. *)
Definition quote_pattern : regex :=
  seqs [ Bol false; Grp 1 (Many false not_newline); lit "-"; plus is_digit; Eol ].

(** ** Timestamps and the calendar

    [days_from_civil] and [civil_from_days] are the proleptic Gregorian
    conversions between a date and its day number (day 0 is 1970-01-01). *)

Local Open Scope Z_scope.

Definition is_leap (y : Z) : bool :=
  (y mod 4 =? 0) && (negb (y mod 100 =? 0) || (y mod 400 =? 0)).

Definition days_in_month (y m : Z) : Z :=
  if m =? 2 then (if is_leap y then 29 else 28)
  else if (m =? 4) || (m =? 6) || (m =? 9) || (m =? 11) then 30
  else 31.

Definition days_from_civil (y m d : Z) : Z :=
  let y' := if m <=? 2 then y - 1 else y in
  let era := y' / 400 in
  let yoe := y' - era * 400 in
  let mp := (m + 9) mod 12 in
  let doy := (153 * mp + 2) / 5 + d - 1 in
  let doe := yoe * 365 + yoe / 4 - yoe / 100 + doy in
  era * 146097 + doe - 719468.

Definition civil_from_days (z : Z) : Z * Z * Z :=
  let z' := z + 719468 in
  let era := z' / 146097 in
  let doe := z' - era * 146097 in
  let yoe := (doe - doe / 1460 + doe / 36524 - doe / 146096) / 365 in
  let doy := doe - (365 * yoe + yoe / 4 - yoe / 100) in
  let mp := (5 * doy + 2) / 153 in
  let d := doy - (153 * mp + 2) / 5 + 1 in
  let m := if mp <? 10 then mp + 3 else mp - 9 in
  (yoe + era * 400 + (if m <=? 2 then 1 else 0), m, d).

Definition ns_per_second : Z := 1000000000.
Definition ns_per_day : Z := 86400 * ns_per_second.
Definition int64_max : Z := 9223372036854775807.

(** The largest and the smallest datetime64[ns]; the value below the
    smallest one is the NaT marker. *)
Definition in_ns_bounds (ns : Z) : bool :=
  (- int64_max <=? ns) && (ns <=? int64_max).

(** [pd.to_datetime(s, errors="coerce")] for an [s] of the shape
    [YYYY-MM-DD HH:MM:SS], the only one [parse_logs] passes; a date or time
    that does not exist, or that datetime64[ns] cannot hold, is NaT. *)
Definition two_digits (a b : ascii) : option Z :=
  if is_digit a && is_digit b then Some (10 * digit_value a + digit_value b)
  else None.

Definition datetime_ns (y mo d h mi s : Z) : option Z :=
  if (1 <=? y) && (1 <=? mo) && (mo <=? 12) && (1 <=? d)
     && (d <=? days_in_month y mo) && (h <=? 23) && (mi <=? 59) && (s <=? 59)
  then
    let ns := ((days_from_civil y mo d * 86400) + h * 3600 + mi * 60 + s)
              * ns_per_second in
    if in_ns_bounds ns then Some ns else None
  else None.

Definition separators (a b c e f : ascii) : bool :=
  Ascii.eqb a "-" && Ascii.eqb b "-" && Ascii.eqb c " "
  && Ascii.eqb e ":" && Ascii.eqb f ":".

Definition to_datetime (s : string) : option Z :=
  match s with
  | String y1 (String y2 (String y3 (String y4 (String a
    (String m1 (String m2 (String b (String d1 (String d2 (String c
    (String h1 (String h2 (String e (String n1 (String n2 (String f
    (String s1 (String s2 "")))))))))))))))))) =>
      if separators a b c e f then
        yh ← two_digits y1 y2; yl ← two_digits y3 y4;
        mo ← two_digits m1 m2; d ← two_digits d1 d2;
        h ← two_digits h1 h2; mi ← two_digits n1 n2; sec ← two_digits s1 s2;
        datetime_ns (100 * yh + yl) mo d h mi sec
      else None
  | _ => None
  end.

Definition date_of (ns : Z) : Z * Z * Z := civil_from_days (ns / ns_per_day).

(** [.dt.year]. *)
Definition year_of (ns : Z) : Z := fst (fst (date_of ns)).

Definition month_of (ns : Z) : Z := snd (fst (date_of ns)).

(** [.dt.to_period("Q")]: a year and a quarter of it. *)
Record Period := { period_year : Z; period_quarter : Z }.

Definition quarter_of (ns : Z) : Period :=
  {| period_year := year_of ns; period_quarter := (month_of ns - 1) / 3 + 1 |}.

Definition decimal (n : Z) : string :=
  NilZero.string_of_int (Z.to_int n).

(** [str(period)], e.g. [2024Q1]. *)
Definition quarter_label (p : Period) : string :=
  decimal (period_year p) +:+ "Q" +:+ decimal (period_quarter p).

(** ISO-8601: weeks start on Monday, week 1 holds the first Thursday. *)
Definition iso_weekday (day : Z) : Z := (day + 3) mod 7 + 1.

Definition dec31_weekday (y : Z) : Z :=
  (y + y / 4 - y / 100 + y / 400) mod 7.

Definition iso_weeks_in_year (y : Z) : Z :=
  if (dec31_weekday y =? 4) || (dec31_weekday (y - 1) =? 3) then 53 else 52.

(** [.dt.isocalendar().week]. *)
Definition iso_week_of (ns : Z) : Z :=
  let day := ns / ns_per_day in
  let y := year_of ns in
  let ordinal := day - days_from_civil y 1 1 + 1 in
  let w := (ordinal - iso_weekday day + 10) / 7 in
  if w <? 1 then iso_weeks_in_year (y - 1)
  else if iso_weeks_in_year y <? w then 1
  else w.

Local Close Scope Z_scope.

(** ** Frames *)

(** A frame read from a file: its column labels and its rows.
    [pd.DataFrame()] has neither. *)
Record DataFrame (R : Type) := Frame {
  columns : list string;
  rows : list R
}.
Arguments Frame {R} columns rows.
Arguments columns {R} d.
Arguments rows {R} d.

Definition empty_frame {R} : DataFrame R := Frame [] [].

(** [df[label]], [sort_values(label)], [merge(on=label)], [drop(columns=[label])]
    all raise [KeyError] on a label that is not a column. *)
Fixpoint require_columns (labels cols : list string) : result unit :=
  match labels with
  | [] => Ok ()
  | l :: labels' =>
      if bool_decide (l ∈ cols) then require_columns labels' cols
      else Raise (KeyError l)
  end.

(** A row of the frame of [parse_logs]. *)
Record LogEntry := {
  timestamp : option Z;
  message_type : string;
  trace_id : string;
  details : string
}.

(** ** parse_logs *)

(** The loop over the log files, whose contents come in the order of their
    sequence numbers. *)
Definition append_file (full_text file_content : string) : string :=
  if negb (String.eqb full_text "") && negb (endswith full_text nl)
  then full_text +:+ file_content
  else full_text +:+ nl +:+ file_content.

Definition merge_files (log_files : list string) : string :=
  foldl append_file "" log_files.

Definition start_of (matches : list re_match) (i : nat) : nat :=
  from_option m_start 0%nat (matches !! i).

Definition entry_at (full_text : string) (matches : list re_match) (i : nat)
    : string :=
  let start := start_of matches i in
  let stop := if (i + 1 <? length matches)%nat then start_of matches (i + 1)
              else String.length full_text in
  replace_char LF " " (strip (slice full_text start stop)).

Definition split_entries (full_text : string) : list string :=
  let matches := finditer entry_start_pattern full_text in
  map (entry_at full_text matches) (seq 0 (length matches)).

Definition incomplete_warning (entry : string) : string :=
  "[WARN] Incomplete log entry skipped: " +:+ str_take 50 entry +:+ "...".

(** The loop over the entries: the records kept and the messages logged. *)
Fixpoint collect_records (entries : list string)
    : list (list string) * list string :=
  match entries with
  | [] => ([], [])
  | entry :: entries' =>
      let parts := str_split " | " 3 entry in
      let '(records, warnings) := collect_records entries' in
      if (length parts =? 4)%nat then (parts :: records, warnings)
      else (records, incomplete_warning entry :: warnings)
  end.

(** A row of [pd.DataFrame(records, columns=[...])] with its timestamp
    converted. *)
Definition log_entry (parts : list string) : LogEntry :=
  {| timestamp := to_datetime (nth 0 parts "");
     message_type := nth 1 parts "";
     trace_id := nth 2 parts "";
     details := nth 3 parts "" |}.

Record ParsedLogs := {
  merged_logs : string;
  log_warnings : list string;
  df : list LogEntry
}.

Definition parse_entries (entries : list string) : list string * list LogEntry :=
  let '(records, warnings) := collect_records entries in
  (warnings, map log_entry records).

Definition parse_logs (log_files : list string) : ParsedLogs :=
  let full_text := merge_files log_files in
  let '(warnings, logs) := parse_entries (split_entries full_text) in
  {| merged_logs := full_text; log_warnings := warnings; df := logs |}.

(** ** read_skus *)

Definition cell : Type := option string.

(** What [read_skus] finds at [skus.json]: no file, a file that [json.load]
    rejects, or the table that [pd.json_normalize(sku_data, sep="_")] makes
    of the decoded document. *)
Inductive sku_source :=
| Absent
| Undecodable
| Normalized (table : DataFrame (list cell)).

Definition rename_label (mapping : list (string * string)) (label : string)
    : string :=
  match find (fun entry => String.eqb (fst entry) label) mapping with
  | Some entry => snd entry
  | None => label
  end.

(** [df.rename(columns=mapping)]. *)
Definition rename {R} (mapping : list (string * string)) (d : DataFrame R)
    : DataFrame R :=
  Frame (map (rename_label mapping) (columns d)) (rows d).

Definition sku_renames : list (string * string) :=
  [ ("attribute_json_grain_variety", "grain_variety");
    ("attribute_json_grape_variety", "grape_variety");
    ("attribute_json_blend", "blend");
    ("attribute_json_year", "year");
    ("attribute_json_age", "age");
    ("attribute_json_abv", "abv");
    ("attribute_json_bottle_ml", "bottle_ml");
    ("region_country_id", "country_id");
    ("region_country_name", "country_name");
    ("attribute_json_barrel_type", "barrel_type") ].

Definition read_skus (sku_file : sku_source) : result (DataFrame (list cell)) :=
  match sku_file with
  | Absent => Ok empty_frame
  | Undecodable => Raise (UnboundLocalError "sku_data")
  | Normalized sku_df => Ok (rename sku_renames (rename [("code", "sku")] sku_df))
  end.

(** ** read_market_prices *)

Definition float : Type := spec_float.
Definition NaN : float := S754_nan.

Definition isna (x : float) : bool :=
  match x with
  | S754_nan => true
  | _ => false
  end.

(** A row of a price snapshot file. *)
Record Quote := {
  quote_id : option string;
  quote_time : option Z;
  price_usd : float
}.

(** A row of the frame of [read_market_prices]: the quote and its [sku]. *)
Record MarketRow := {
  quote : Quote;
  market_sku : option string
}.

(** [Series.str.extract(r"^(.*?)-\d+$")] on one value. *)
Definition extract_sku (q : option string) : option string :=
  match q with
  | Some s =>
      match search quote_pattern s with
      | Some m => group 1 (m_caps m)
      | None => None
      end
  | None => None
  end.

Fixpoint concat_files {A} (files : list (option (list A))) : option (list A) :=
  match files with
  | [] => Some []
  | Some f :: files' =>
      match concat_files files' with
      | Some l => Some (f ++ l)
      | None => None
      end
  | None :: _ => None
  end.

(** [all_files] holds, for each snapshot file found, the rows that
    [pd.read_parquet] returns, or [None] when it raises.  [pd.concat] raises
    when there is nothing to concatenate. *)
Definition read_market_prices (all_files : list (option (list Quote)))
    : DataFrame MarketRow :=
  match all_files, concat_files all_files with
  | [], _ | _, None => empty_frame
  | _, Some market_data =>
      Frame ["quote_id"; "timestamp"; "price_usd"; "sku"]
        (map (fun q => {| quote := q; market_sku := extract_sku (quote_id q) |})
           market_data)
  end.

(** ** extract_transactions *)

Record OrderRow := {
  entry : LogEntry;
  action : string;
  sku : string;
  quantity : Z
}.

Record TxRow := {
  order : OrderRow;
  transaction_amount : string
}.

(** [Series.str.extract(r"(buy|sell)\s+(\S+)\s+(\d+)")] on one value: the
    three groups of the first match. *)
Definition extract_order (s : string) : option (string * string * string) :=
  match search order_pattern s with
  | Some m =>
      match group 1 (m_caps m), group 2 (m_caps m), group 3 (m_caps m) with
      | Some a, Some k, Some q => Some (a, k, q)
      | _, _, _ => None
      end
  | None => None
  end.

(** [astype(int)] on one value: [int(s)], then the conversion to int64. *)
Definition astype_int (s : string) : result Z :=
  match py_int s with
  | Some n => if (n <=? int64_max)%Z then Ok n else Raise OverflowError
  | None => Raise (ValueError "invalid literal for int() with base 10")
  end.

(** [orders.loc[orders["action"] == "buy", "quantity"] *= -1]. *)
Definition adjust_quantity (a : string) (q : Z) : Z :=
  if String.eqb a "buy" then (q * -1)%Z else q.

(** The orders frame: the ORDER rows whose details match, with the quantity
    converted and sign-adjusted. *)
Definition order_row (e : LogEntry) : option (result OrderRow) :=
  match extract_order (details e) with
  | Some (a, k, q) =>
      Some (n ← astype_int q;
            Ok {| entry := e; action := a; sku := k;
                  quantity := adjust_quantity a n |})
  | None => None
  end.

Definition extract_orders (logs : list LogEntry) : result (list OrderRow) :=
  mapR id (omap order_row
             (filter (fun e => message_type e = "ORDER") logs)).

(** [transactions[["trace_id", "transaction_amount"]]]. *)
Definition extract_settlements (logs : list LogEntry) : list (string * string) :=
  map (fun e => (trace_id e, details e))
    (filter (fun e => message_type e = "TRANSACTION") logs).

(** [orders.merge(transactions, on="trace_id", how="inner")]: the pairs of an
    order and a settlement with the same [trace_id].  The rows are listed
    order by order; the statements do not depend on their order. *)
Definition inner_merge (orders : list OrderRow)
    (transactions : list (string * string)) : list TxRow :=
  o ← orders;
  (fun t => {| order := o; transaction_amount := snd t |})
    <$> filter (fun t => fst t = trace_id (entry o)) transactions.

Definition extract_transactions (logs : list LogEntry) : result (list TxRow) :=
  orders ← extract_orders logs;
  Ok (inner_merge orders (extract_settlements logs)).

Definition tx_timestamp (t : TxRow) : option Z := timestamp (entry (order t)).
Definition tx_trace_id (t : TxRow) : string := trace_id (entry (order t)).
Definition tx_sku (t : TxRow) : string := sku (order t).
Definition tx_quantity (t : TxRow) : Z := quantity (order t).

(** ** enrich_transactions *)

(** The columns of the frame of [extract_transactions]. *)
Definition transaction_columns : list string :=
  ["timestamp"; "message_type"; "trace_id"; "details"; "action"; "sku";
   "quantity"; "transaction_amount"].

(** A row of [transactions.merge(sku_df, on="sku", how="left")]: the
    transaction and the cells of the catalog columns other than the key.
    The catalog labels are taken to differ from the transaction labels, so
    that no column is renamed with a suffix. *)
Record Joined := {
  tx : TxRow;
  catalog : list (string * cell)
}.

Fixpoint cell_at (label : string) (cols : list string) (r : list cell) : cell :=
  match cols, r with
  | c :: cols', v :: r' => if String.eqb c label then v else cell_at label cols' r'
  | _, _ => None
  end.

(** The cells of a catalog row with their labels, the key left out. *)
Fixpoint other_cells (key : string) (cols : list string) (r : list cell)
    : list (string * cell) :=
  match cols with
  | [] => []
  | c :: cols' =>
      let rest := other_cells key cols' (tail r) in
      if String.eqb c key then rest else (c, mjoin (head r)) :: rest
  end.

(** The rows that the left join makes of one transaction: one for each
    catalog row with its sku, or one with null cells when there is none. *)
Definition catalog_rows (sku_df : DataFrame (list cell)) (t : TxRow)
    : list Joined :=
  match filter (fun r => cell_at "sku" (columns sku_df) r = Some (tx_sku t))
          (rows sku_df) with
  | [] => [ {| tx := t; catalog := other_cells "sku" (columns sku_df) [] |} ]
  | hits =>
      (fun r => {| tx := t; catalog := other_cells "sku" (columns sku_df) r |})
        <$> hits
  end.

Definition merge_skus (transactions : list TxRow)
    (sku_df : DataFrame (list cell)) : result (list Joined) :=
  _ ← require_columns ["sku"] (columns sku_df);
  Ok (transactions ≫= catalog_rows sku_df).

(** Orders on keys.  A null sorts last, whatever the direction. *)
Definition time_asc (a b : option Z) : bool :=
  match a, b with
  | Some x, Some y => (x <=? y)%Z
  | Some _, None => true
  | None, Some _ => false
  | None, None => true
  end.

Definition time_desc (a b : option Z) : bool :=
  match a, b with
  | Some x, Some y => (y <=? x)%Z
  | Some _, None => true
  | None, Some _ => false
  | None, None => true
  end.

Definition compare_label (a b : option string) : comparison :=
  match a, b with
  | Some x, Some y => String.compare x y
  | Some _, None => Lt
  | None, Some _ => Gt
  | None, None => Eq
  end.

(** Lexicographic order: the first key decides unless it ties. *)
Definition and_then (c : comparison) (next : bool) : bool :=
  match c with
  | Lt => true
  | Eq => next
  | Gt => false
  end.

(** [sort_values([k1, k2])] sorts stably. *)
Fixpoint insert_sorted {A} (le : A → A → bool) (x : A) (l : list A) : list A :=
  match l with
  | [] => [x]
  | y :: l' => if le x y then x :: l else y :: insert_sorted le x l'
  end.

Definition lexsort {A} (le : A → A → bool) (l : list A) : list A :=
  foldr (insert_sorted le) [] l.

(** The columns [sku], [price_time], [market_price] of a price row. *)
Record PricePoint := {
  pp_sku : option string;
  pp_time : option Z;
  pp_price : float
}.

Definition price_point (r : MarketRow) : PricePoint :=
  {| pp_sku := market_sku r;
     pp_time := quote_time (quote r);
     pp_price := price_usd (quote r) |}.

(** A row of the result of [pd.merge_asof]. *)
Record Priced := {
  joined : Joined;
  price_time : option Z;
  market_price : float
}.

(** [pd.merge_asof] refuses null keys.  Both time columns are taken to be
    datetime64[ns]. *)
Definition non_null_keys {A} (key : A → option Z) (side : string) (l : list A)
    : result (list (Z * A)) :=
  mapR (fun a => match key a with
                 | Some t => Ok (t, a)
                 | None => Raise (ValueError
                     ("Merge keys contain null values on " +:+ side +:+ " side"))
                 end) l.

(** The backward scan of [pd.merge_asof(..., by="sku", direction="backward",
    allow_exact_matches=True)] over keys in ascending order: the price rows
    whose time does not exceed the time of the current left row are entered
    into a table from [sku] to the latest row seen; the left row then looks
    its own [sku] up. *)
Fixpoint asof_advance (t : Z) (table : gmap (option string) (Z * PricePoint))
    (right : list (Z * PricePoint))
    : gmap (option string) (Z * PricePoint) * list (Z * PricePoint) :=
  match right with
  | p :: right' =>
      if (fst p <=? t)%Z
      then asof_advance t (<[pp_sku (snd p) := p]> table) right'
      else (table, right)
  | [] => (table, [])
  end.

Fixpoint asof_join (left : list (Z * Joined))
    (table : gmap (option string) (Z * PricePoint))
    (right : list (Z * PricePoint)) : list Priced :=
  match left with
  | [] => []
  | l :: left' =>
      let '(table', right') := asof_advance (fst l) table right in
      let found := table' !! Some (tx_sku (tx (snd l))) in
      {| joined := snd l;
         price_time := fst <$> found;
         market_price := from_option (fun p => pp_price (snd p)) NaN found |}
        :: asof_join left' table' right'
  end.

Definition merge_asof (left : list Joined) (right : list PricePoint)
    : result (list Priced) :=
  left_keyed ← non_null_keys (fun j => tx_timestamp (tx j)) "left" left;
  right_keyed ← non_null_keys pp_time "right" right;
  Ok (asof_join left_keyed ∅ right_keyed).

(** int64 to float64, and the float64 product. *)
Definition float_of_int (n : Z) : float := binary_normalize 53 1024 n 0 false.
Definition fmul (x y : float) : float := SFmul 53 1024 x y.

Module Enriched.
(** A row of the frame that [enrich_transactions] returns. *)
Record row := {
  timestamp : option Z;
  message_type : string;
  trace_id : string;
  action : string;
  sku : string;
  quantity : Z;
  catalog : list (string * cell);
  price_time : option Z;
  market_price : float;
  transaction_value : float;
  year : option Z;
  quarter : option Period;
  week : option Z
}.
End Enriched.

Definition dropped_columns : list string :=
  ["transaction_amount"; "id"; "details"].

Definition assigned_columns : list string :=
  ["transaction_value"; "year"; "quarter"; "week"].

(** The four assignments and the [drop] on one row. *)
Definition derive (p : Priced) : Enriched.row :=
  let t := tx (joined p) in
  {| Enriched.timestamp := tx_timestamp t;
     Enriched.message_type := message_type (entry (order t));
     Enriched.trace_id := tx_trace_id t;
     Enriched.action := action (order t);
     Enriched.sku := tx_sku t;
     Enriched.quantity := tx_quantity t;
     Enriched.catalog :=
       filter (fun c => fst c ∉ dropped_columns ++ assigned_columns)
         (catalog (joined p));
     Enriched.price_time := price_time p;
     Enriched.market_price := market_price p;
     Enriched.transaction_value :=
       fmul (float_of_int (tx_quantity t)) (market_price p);
     Enriched.year := year_of <$> tx_timestamp t;
     Enriched.quarter := quarter_of <$> tx_timestamp t;
     Enriched.week := iso_week_of <$> tx_timestamp t |}.

Section Enrichment.

(** [sort_values(k)] on one key uses numpy's quicksort, which fixes the
    place of rows with equal keys in a way the program does not control:
    the sort is a parameter. *)
Variable quicksort : ∀ A : Type, (A → A → bool) → list A → list A.

Definition by_sku_timestamp (a b : Joined) : bool :=
  and_then (String.compare (tx_sku (tx a)) (tx_sku (tx b)))
    (time_asc (tx_timestamp (tx a)) (tx_timestamp (tx b))).

Definition by_sku_price_time (a b : MarketRow) : bool :=
  and_then (compare_label (market_sku a) (market_sku b))
    (time_asc (quote_time (quote a)) (quote_time (quote b))).

Definition by_timestamp (a b : Joined) : bool :=
  time_asc (tx_timestamp (tx a)) (tx_timestamp (tx b)).

Definition by_price_time (a b : PricePoint) : bool :=
  time_asc (pp_time a) (pp_time b).

(** [["trace_id", "price_time"], ascending=[True, False]]. *)
Definition by_trace_id_price_time (a b : Priced) : bool :=
  and_then (String.compare (tx_trace_id (tx (joined a)))
                           (tx_trace_id (tx (joined b))))
    (time_desc (price_time a) (price_time b)).

Definition enrich_transactions (transactions : list TxRow)
    (sku_df : DataFrame (list cell)) (prices : DataFrame MarketRow)
    : result (list Enriched.row) :=
  enriched ← merge_skus transactions sku_df;
  let prices := rename [("sku", "sku"); ("timestamp", "price_time");
                        ("price_usd", "market_price")] prices in
  let enriched := lexsort by_sku_timestamp enriched in
  _ ← require_columns ["sku"; "price_time"] (columns prices);
  let prices := Frame (columns prices) (lexsort by_sku_price_time (rows prices)) in
  _ ← require_columns ["sku"; "price_time"; "market_price"] (columns prices);
  enriched ← merge_asof
    (quicksort _ by_timestamp enriched)
    (quicksort _ by_price_time (price_point <$> rows prices));
  let enriched := lexsort by_trace_id_price_time enriched in
  _ ← require_columns dropped_columns
        (transaction_columns ++ filter (fun c => c ≠ "sku") (columns sku_df)
         ++ ["price_time"; "market_price"] ++ assigned_columns);
  Ok (derive <$> enriched).

(** The script: the three inputs are read, the transactions extracted and
    enriched.  An exception ends the run. *)
Definition pipeline (log_files : list string) (sku_file : sku_source)
    (price_files : list (option (list Quote))) : result (list Enriched.row) :=
  let logs := df (parse_logs log_files) in
  sku_df ← read_skus sku_file;
  let prices := read_market_prices price_files in
  transactions ← extract_transactions logs;
  enrich_transactions transactions sku_df prices.

End Enrichment.

(** A sort to run the program with: the stable insertion sort. *)
Definition stable_sort : ∀ A : Type, (A → A → bool) → list A → list A :=
  fun A le l => lexsort le l.

(** A comparison that the sorts can use: any two elements are comparable and
    the comparison is transitive. *)
Definition total_preorder {A} (le : A → A → bool) : Prop :=
  (∀ a b, le a b = true ∨ le b a = true)
  ∧ (∀ a b c, le a b = true → le b c = true → le a c = true).

(** What the theorems ask of [quicksort]: it permutes its input, and orders it
    when the comparison is a total preorder. *)
Definition sorts (quicksort : ∀ A : Type, (A → A → bool) → list A → list A)
    : Prop :=
  ∀ (A : Type) (le : A → A → bool) (l : list A),
    quicksort A le l ≡ₚ l ∧
    (total_preorder le →
     StronglySorted (fun a b => le a b = true) (quicksort A le l)).

(** ** Definitions used by the statements *)

(** An entry is complete when it has four fields. *)
Definition complete (entry : string) : bool :=
  (length (str_split " | " 3 entry) =? 4)%nat.

(** The two log lines of the scenario of the specification. *)
Definition order_line : string :=
  "2024-03-01 10:00:00 | ORDER | T1 | buy WINE-OPU-001 5".

Definition settlement_line : string :=
  "2024-03-01 10:01:00 | TRANSACTION | T1 | 120.50".


(** [matches r s s']: some way of matching [r] at [s] ends at [s'].  [run]
    explores these ways in the order of [re]. *)
Inductive matches : regex → mstate → mstate → Prop :=
| matches_eps s :
    matches Eps s s
| matches_chr p c rest s :
    m_rest s = String c rest → p c = true →
    matches (Chr p) s (step c rest s)
| matches_seq r1 r2 s s1 s2 :
    matches r1 s s1 → matches r2 s1 s2 → matches (Seq r1 r2) s s2
| matches_alt_l r1 r2 s s' :
    matches r1 s s' → matches (Alt r1 r2) s s'
| matches_alt_r r1 r2 s s' :
    matches r2 s s' → matches (Alt r1 r2) s s'
| matches_many_stop g p s :
    matches (Many g p) s s
| matches_many_step g p c rest s s' :
    m_rest s = String c rest → p c = true →
    matches (Many g p) (step c rest s) s' →
    matches (Many g p) s s'
| matches_grp n r s s1 :
    matches r s s1 → matches (Grp n r) s (set_group n s s1)
| matches_bol multiline s :
    at_bol multiline s = true → matches (Bol multiline) s s
| matches_eol s :
    at_eol s = true → matches Eol s s.

(** [spans w s s']: from [s] to [s'] the text [w] is read. *)
Definition spans (w : string) (s s' : mstate) : Prop :=
  m_rest s = w +:+ m_rest s' ∧ m_pos s' = m_pos s + String.length w.

(** The table of [asof_join] after the price rows [seen] were entered. *)
Definition table_of (seen : list (Z * PricePoint))
    : gmap (option string) (Z * PricePoint) :=
  foldl (fun table p => <[pp_sku (snd p) := p]> table) ∅ seen.

(** [asof_match t k points u v]: among [points], the backward match for the
    time [t] and the sku [k] has the time [u] and the price [v]; [u] is
    [None] when no point of the sku is at or before [t]. *)
Definition asof_match (t : Z) (k : string) (points : list PricePoint)
    (u : option Z) (v : float) : Prop :=
  match u with
  | Some u =>
      (∃ p, p ∈ points ∧ pp_sku p = Some k ∧ pp_time p = Some u
            ∧ pp_price p = v)
      ∧ (u ≤ t)%Z
      ∧ ∀ q t', q ∈ points → pp_sku q = Some k → pp_time q = Some t' →
                (t' ≤ t)%Z → (t' ≤ u)%Z
  | None =>
      v = NaN
      ∧ ∀ q t', q ∈ points → pp_sku q = Some k → pp_time q = Some t' →
                ¬ (t' ≤ t)%Z
  end.

(** [latest_at_or_before points k t u v]: among the price rows [points] of
    the sku [k], one has the time [u] and the price [v], [u] is at or before
    [t], and none has a time after [u] that is at or before [t]. *)
Definition latest_at_or_before (points : list MarketRow) (k : string) (t u : Z)
    (v : float) : Prop :=
  (∃ p, p ∈ points ∧ market_sku p = Some k ∧ quote_time (quote p) = Some u
        ∧ price_usd (quote p) = v)
  ∧ (u ≤ t)%Z
  ∧ ∀ q t', q ∈ points → market_sku q = Some k →
            quote_time (quote q) = Some t' → (t' ≤ t)%Z → (t' ≤ u)%Z.

(** [backward_match points r]: the price columns of the row [r] hold the
    backward match of its timestamp among the price rows of its sku.  The
    price time, when there is one, is that of the latest price row of the sku
    at or before the timestamp, and the price is the price of such a row; a
    price that is not null comes with a price time; and when no price row of
    the sku is at or before the timestamp, price and price time are null. *)
Definition backward_match (points : list MarketRow) (r : Enriched.row) : Prop :=
  ∃ t, Enriched.timestamp r = Some t
  ∧ (∀ u, Enriched.price_time r = Some u →
       latest_at_or_before points (Enriched.sku r) t u (Enriched.market_price r))
  ∧ (isna (Enriched.market_price r) = false → is_Some (Enriched.price_time r))
  ∧ ((∀ q t', q ∈ points → market_sku q = Some (Enriched.sku r) →
              quote_time (quote q) = Some t' → ¬ (t' ≤ t)%Z) →
     isna (Enriched.market_price r) = true ∧ Enriched.price_time r = None).

(** The derived columns of a row, computed from its other columns. *)
Definition derived_fields (r : Enriched.row) : Prop :=
  Enriched.transaction_value r
    = fmul (float_of_int (Enriched.quantity r)) (Enriched.market_price r)
  ∧ (isna (Enriched.market_price r) = true →
     isna (Enriched.transaction_value r) = true)
  ∧ ∃ t, Enriched.timestamp r = Some t
         ∧ Enriched.year r = Some (year_of t)
         ∧ Enriched.quarter r = Some (quarter_of t)
         ∧ Enriched.week r = Some (iso_week_of t).

(** The order of two consecutive rows as the specification words it: both
    keys descending. *)
Definition descending_pair (a b : Enriched.row) : Prop :=
  String.compare (Enriched.trace_id a) (Enriched.trace_id b) ≠ Lt
  ∧ (Enriched.trace_id a = Enriched.trace_id b →
     time_desc (Enriched.price_time a) (Enriched.price_time b) = true).

(** The order of two consecutive rows as [sort_values] is called: the
    correlation id ascending, then the price time descending, null last. *)
Definition sorted_pair (a b : Enriched.row) : Prop :=
  String.compare (Enriched.trace_id a) (Enriched.trace_id b) ≠ Gt
  ∧ (Enriched.trace_id a = Enriched.trace_id b →
     time_desc (Enriched.price_time a) (Enriched.price_time b) = true).

Definition consecutive (P : Enriched.row → Enriched.row → Prop)
    (out : list Enriched.row) : Prop :=
  ∀ i a b, out !! i = Some a → out !! S i = Some b → P a b.

(** [hyphen_digits q p]: [q] is [p], a hyphen and one or more digits. *)
Definition hyphen_digits (q p : string) : Prop :=
  ∃ ds, q = p +:+ "-" +:+ ds ∧ ds ≠ "" ∧ str_forall is_digit ds = true.

(** The quote ids that [quote_pattern] accepts, with the group it captures:
    a prefix without line feed, a hyphen, digits, and at most one final line
    feed. *)
Definition quote_shape (q p : string) : Prop :=
  ∃ ds tail, q = p +:+ "-" +:+ ds +:+ tail
             ∧ str_forall not_newline p = true
             ∧ ds ≠ "" ∧ str_forall is_digit ds = true
             ∧ (tail = "" ∨ tail = nl).

(** ** The scenario of the specification *)

Definition scenario_logs : list string :=
  [order_line +:+ nl; settlement_line +:+ nl].

Definition scenario_catalog : sku_source :=
  Normalized (Frame ["id"; "code"; "name"]
                [[Some "7"; Some "WINE-OPU-001"; Some "Opus One"]]).

Definition scenario_quotes : list Quote :=
  [ {| quote_id := Some "WINE-OPU-001-1";
       quote_time := to_datetime "2024-03-01 09:00:00";
       price_usd := float_of_int 24 |};
    {| quote_id := Some "WINE-OPU-001-2";
       quote_time := to_datetime "2024-03-01 11:00:00";
       price_usd := float_of_int 25 |} ].

Definition scenario_row : Enriched.row :=
  {| Enriched.timestamp := to_datetime "2024-03-01 10:00:00";
     Enriched.message_type := "ORDER";
     Enriched.trace_id := "T1";
     Enriched.action := "buy";
     Enriched.sku := "WINE-OPU-001";
     Enriched.quantity := -5;
     Enriched.catalog := [("name", Some "Opus One")];
     Enriched.price_time := to_datetime "2024-03-01 09:00:00";
     Enriched.market_price := float_of_int 24;
     Enriched.transaction_value := float_of_int (-120);
     Enriched.year := Some 2024%Z;
     Enriched.quarter := Some {| period_year := 2024; period_quarter := 1 |};
     Enriched.week := Some 9%Z |}.

(** A second order and its settlement, and an entry of three fields. *)
Definition second_order_line : string :=
  "2024-03-02 08:30:00 | ORDER | T2 | sell WINE-OPU-001 3".

Definition second_settlement_line : string :=
  "2024-03-02 08:31:00 | TRANSACTION | T2 | 75.00".

Definition incomplete_line : string :=
  "2024-03-01 10:02:00 | RESULT | T1".

(** [read_over w r s]: the position reached from [s] by reading [w], with [r]
    the text left. *)
Fixpoint read_over (w r : string) (s : mstate) : mstate :=
  match w with
  | "" => s
  | String c w' => read_over w' r (step c (w' +:+ r) s)
  end.

(** The characters that can follow the hyphen of a quote id that
    [quote_pattern] accepts. *)
Definition digit_or_newline (c : ascii) : bool := is_digit c || Ascii.eqb c LF.

(** The frames of the scenario, as the stages hand them on. *)
Definition scenario_entries : list LogEntry :=
  [ {| timestamp := to_datetime "2024-03-01 10:00:00";
       message_type := "ORDER"; trace_id := "T1";
       details := "buy WINE-OPU-001 5" |};
    {| timestamp := to_datetime "2024-03-01 10:01:00";
       message_type := "TRANSACTION"; trace_id := "T1";
       details := "120.50" |} ].

Definition scenario_transactions : list TxRow :=
  [ {| order := {| entry := {| timestamp := to_datetime "2024-03-01 10:00:00";
                               message_type := "ORDER"; trace_id := "T1";
                               details := "buy WINE-OPU-001 5" |};
                   action := "buy"; sku := "WINE-OPU-001"; quantity := -5 |};
       transaction_amount := "120.50" |} ].

Definition scenario_sku_df : DataFrame (list cell) :=
  Frame ["id"; "sku"; "name"]
    [[Some "7"; Some "WINE-OPU-001"; Some "Opus One"]].

Definition scenario_prices : DataFrame MarketRow :=
  read_market_prices [Some scenario_quotes].

(** The scenario with the second order added. *)
Definition two_order_logs : list string :=
  [order_line +:+ nl; settlement_line +:+ nl;
   second_order_line +:+ nl; second_settlement_line +:+ nl].

(** C2 as a predicate of the frame [logs] and of the rows [merged] made of
    it: the rows are built on the orders frame, in which every ORDER entry
    whose details match has its row, with the parsed quantity signed by the
    action. *)
Definition signed_orders (logs : list LogEntry) (merged : list TxRow) : Prop :=
  ∃ orders,
    extract_orders logs = Ok orders
    ∧ (∀ t, t ∈ merged → order t ∈ orders)
    ∧ ∀ e a k q n,
        e ∈ logs → message_type e = "ORDER" →
        extract_order (details e) = Some (a, k, q) →
        py_int q = Some n → n ≠ 0%Z →
        ∃ o, o ∈ orders ∧ entry o = e ∧ action o = a ∧ sku o = k
             ∧ Z.abs (quantity o) = n
             ∧ (a = "buy" → (quantity o < 0)%Z)
             ∧ (a = "sell" → (quantity o > 0)%Z).

(** C10 as a predicate of the price frame and of the rows enriched with it:
    the sku of a price row is the group of the shape of its quote id, null
    when the quote id has no such shape or is null; on a quote id without
    line feed the shape is the quote id less its final hyphen and digits;
    and the price row matched to an enriched row has the sku of that row. *)
Definition sku_from_quote_id (prices : list MarketRow)
    (out : list Enriched.row) : Prop :=
  (∀ m, m ∈ prices →
     match quote_id (quote m) with
     | Some q =>
         (∀ p, market_sku m = Some p ↔ quote_shape q p)
         ∧ (str_forall not_newline q = true →
            ∀ p, market_sku m = Some p ↔ hyphen_digits q p)
     | None => market_sku m = None
     end)
  ∧ ∀ r u, r ∈ out → Enriched.price_time r = Some u →
      ∃ m, m ∈ prices ∧ market_sku m = Some (Enriched.sku r)
           ∧ quote_time (quote m) = Some u
           ∧ price_usd (quote m) = Enriched.market_price r.

Definition two_order_transactions : list TxRow :=
  Eval vm_compute in
    match extract_transactions (df (parse_logs two_order_logs)) with
    | Ok merged => merged
    | Raise _ => []
    end.

Definition two_order_rows : list Enriched.row :=
  Eval vm_compute in
    match enrich_transactions stable_sort two_order_transactions
            scenario_sku_df scenario_prices with
    | Ok out => out
    | Raise _ => []
    end.

(** The scenario with a second settlement of the same correlation id. *)
Definition double_settlement_entries : list LogEntry :=
  scenario_entries
  ++ [ {| timestamp := to_datetime "2024-03-01 10:05:00";
          message_type := "TRANSACTION"; trace_id := "T1";
          details := "120.50" |} ].

Definition double_settlement_transactions : list TxRow :=
  Eval vm_compute in
    match extract_transactions double_settlement_entries with
    | Ok merged => merged
    | Raise _ => []
    end.

(** The number of days from 0001-01-01 to the end of the year [k]. *)
Definition day_number (k : Z) : Z :=
  (365 * k + k / 4 - k / 100 + k / 400)%Z.

(** The Thursday of the ISO week of a day. *)
Definition thursday_of (day : Z) : Z := (day - iso_weekday day + 4)%Z.

(** ISO-8601 numbers the weeks of a year by their Thursdays: [w] is the week
    of [day] when the Thursday of its week is the [w]-th Thursday of the
    year [yt] it falls in. *)
Definition iso_week_by_thursday (day w : Z) : Prop :=
  ∃ yt, (days_from_civil yt 1 1 ≤ thursday_of day < days_from_civil (yt + 1) 1 1)%Z
        ∧ w = ((thursday_of day - days_from_civil yt 1 1) / 7 + 1)%Z.

(** ** parse_logs: the order of the log files *)

(** [log_(\d+).txt], the pattern of the sort key.  Its dot is not escaped:
    it stands for any character but a line feed. *)
Definition log_number_pattern : regex :=
  seqs [ lit "log_"; Grp 1 (plus is_digit); Chr not_newline; lit "txt" ].

(** The key [int(re.search(r"log_(\d+).txt", x).group(1))] of a path.
    [None] stands for the AttributeError that [.group] raises on the [None]
    of a path in which the pattern is not found. *)
Definition log_number (path : string) : option Z :=
  match search log_number_pattern path with
  | Some m => g ← group 1 (m_caps m); py_int g
  | None => None
  end.

(** [sorted(l, key=key)]: the keys are computed first, and the sort is
    stable. *)
Definition sorted_by {A} (key : A → option Z) (l : list A) : option (list A) :=
  keys ← mapM key l;
  Some (snd <$> lexsort (fun x y => (fst x <=? fst y)%Z) (zip keys l)).

(** The log files that [glob] finds, each a path and the text that [read]
    returns, put in the order in which the loop reads them. *)
Definition sorted_log_files (log_dir : list (string * string))
    : option (list (string * string)) :=
  sorted_by (fun file => log_number (fst file)) log_dir.

(** [parse_logs] on a directory. *)
Definition parse_logs_in (log_dir : list (string * string)) : option ParsedLogs :=
  log_files ← sorted_log_files log_dir;
  Some (parse_logs (snd <$> log_files)).

(** Characters of the paths in the statements. *)
Definition not_digit (c : ascii) : bool := negb (is_digit c).
Definition not_underscore (c : ascii) : bool := negb (Ascii.eqb c "_").

(** ** parse_logs: the shape of an entry *)

(** The texts that [\d{4}-\d{2}-\d{2} \d{2}:\d{2}:\d{2}] matches. *)
Definition timestamp_shape (s : string) : bool :=
  match s with
  | String y1 (String y2 (String y3 (String y4 (String a
    (String m1 (String m2 (String b (String d1 (String d2 (String c
    (String h1 (String h2 (String e (String n1 (String n2 (String f
    (String s1 (String s2 "")))))))))))))))))) =>
      separators a b c e f
      && forallb is_digit
           [y1; y2; y3; y4; m1; m2; d1; d2; h1; h2; n1; n2; s1; s2]
  | _ => false
  end.

(** The alternatives of [(ORDER|RESULT|TRANSACTION|RESPONSE)]. *)
Definition message_types : list string :=
  ["ORDER"; "RESULT"; "TRANSACTION"; "RESPONSE"].

Definition not_bar (c : ascii) : bool := negb (Ascii.eqb c "|").
Definition not_blank (c : ascii) : bool := negb (Ascii.eqb c " ").

(** [sep.join(parts)]. *)
Fixpoint str_join (sep : string) (parts : list string) : string :=
  match parts with
  | [] => ""
  | [p] => p
  | p :: parts' => p +:+ sep +:+ str_join sep parts'
  end.

(** A directory of two log files, found in the order of their names. *)
Definition numbered_log_dir : list (string * string) :=
  [ ("data/logs/log_10.txt", settlement_line +:+ nl);
    ("data/logs/log_9.txt", order_line +:+ nl) ].

(** A directory with a file whose name holds no number. *)
Definition unnumbered_log_dir : list (string * string) :=
  [ ("data/logs/log_1.txt", order_line +:+ nl);
    ("data/logs/log_a.txt", settlement_line +:+ nl) ].

(** An order whose quantity int64 cannot hold. *)
Definition oversized_order : LogEntry :=
  {| timestamp := to_datetime "2024-03-01 10:00:00";
     message_type := "ORDER"; trace_id := "T3";
     details := "sell WINE-OPU-001 9223372036854775808" |}.

(** ** The inputs on which the script runs to its end *)

(** A catalog file that decodes, with a column for the sku and a column
    [id]. *)
Definition catalog_usable (sku_file : sku_source) : Prop :=
  ∃ table, sku_file = Normalized table
           ∧ ("code" ∈ columns table ∨ "sku" ∈ columns table)
           ∧ "id" ∈ columns table.

(** Price files: at least one, all readable, no quote without time. *)
Definition prices_usable (price_files : list (option (list Quote))) : Prop :=
  price_files ≠ []
  ∧ ∀ f, f ∈ price_files →
         ∃ quotes, f = Some quotes ∧ ∀ q, q ∈ quotes → is_Some (quote_time q).

(** Log files: the quantities of the orders fit int64, and the orders that
    have a settlement have a timestamp. *)
Definition orders_usable (log_files : list string) : Prop :=
  ∃ transactions,
    extract_transactions (df (parse_logs log_files)) = Ok transactions
    ∧ ∀ t, t ∈ transactions → is_Some (tx_timestamp t).

(** The columns of a transaction that the enrichment carries over. *)
Definition tx_fields (t : TxRow)
    : option Z * string * string * string * string * Z :=
  (tx_timestamp t, message_type (entry (order t)), tx_trace_id t,
   action (order t), tx_sku t, tx_quantity t).

Definition row_fields (r : Enriched.row)
    : option Z * string * string * string * string * Z :=
  (Enriched.timestamp r, Enriched.message_type r, Enriched.trace_id r,
   Enriched.action r, Enriched.sku r, Enriched.quantity r).

(** The number of rows that the left join makes of a transaction. *)
Definition copies (sku_df : DataFrame (list cell)) (t : TxRow) : nat :=
  length (filter (fun r => cell_at "sku" (columns sku_df) r = Some (tx_sku t))
            (rows sku_df)) `max` 1.

(** No two price rows of a sku and a time differ in price. *)
Definition one_price_per_time (points : list MarketRow) : Prop :=
  ∀ p p', p ∈ points → p' ∈ points →
    market_sku p = market_sku p' →
    quote_time (quote p) = quote_time (quote p') →
    price_usd (quote p) = price_usd (quote p').

(** An order dated the thirtieth of February, with its settlement. *)
Definition impossible_date_logs : list string :=
  [ "2024-02-30 10:00:00 | ORDER | T1 | buy WINE-OPU-001 5" +:+ nl;
    settlement_line +:+ nl ].

(** The catalog of the scenario without its column [id]. *)
Definition catalog_without_id : sku_source :=
  Normalized (Frame ["code"; "name"] [[Some "WINE-OPU-001"; Some "Opus One"]]).

(** A catalog in which the code of the scenario appears twice. *)
Definition doubled_catalog : DataFrame (list cell) :=
  Frame ["id"; "sku"; "name"]
    [ [Some "7"; Some "WINE-OPU-001"; Some "Opus One"];
      [Some "8"; Some "WINE-OPU-001"; Some "Opus One 2019"] ].

(** A sort that breaks ties the other way: the stable sort of the reversed
    list. *)
Definition reverse_sort : ∀ A : Type, (A → A → bool) → list A → list A :=
  fun A le l => lexsort le (reverse l).

(** The rows that the scenario gives with the doubled catalog. *)
Definition doubled_rows : list Enriched.row :=
  Eval vm_compute in
    match enrich_transactions stable_sort scenario_transactions
            doubled_catalog scenario_prices with
    | Ok out => out
    | Raise _ => []
    end.

(** ** The analyses

    [transaction_volume_by_region] and [most_profitable_brands] read the
    frame that [enrich_transactions] returns.  Each catches the exceptions
    raised in it, logs them and returns [None].  [generate_test_case] reads
    the file that [enrich_transactions] wrote and prints a table; it returns
    nothing and is not part of the embedding. *)

(** The labels of the frame that [enrich_transactions] returns. *)
Definition enriched_columns (sku_df : DataFrame (list cell)) : list string :=
  filter (fun c => c ∉ dropped_columns)
    (transaction_columns ++ filter (fun c => c ≠ "sku") (columns sku_df)
     ++ ["price_time"; "market_price"] ++ assigned_columns).

(** The cell of a catalog column in an enriched row. *)
Definition catalog_cell (label : string) (r : Enriched.row) : cell :=
  match find (fun c => String.eqb (fst c) label) (Enriched.catalog r) with
  | Some c => snd c
  | None => None
  end.

(** int64 sums wrap around. *)
Definition int64_wrap (n : Z) : Z := ((n + 2 ^ 63) mod 2 ^ 64 - 2 ^ 63)%Z.

Definition sum_int64 (l : list Z) : Z := int64_wrap (foldr Z.add 0%Z l).

Global Instance Period_eq_dec : EqDecision Period.
Proof. solve_decision. Defined.

(** [groupby(keys)[column].agg()]: the rows with a null key are left out;
    the result has one row for each key, in ascending order of key, with
    the aggregate of the values of the rows of that key, taken in the order
    of the rows. *)
Definition group_keys {A K} `{EqDecision K} (key : A → option K) (l : list A)
    : list K :=
  remove_dups (omap key l).

Definition group_values {A K V} `{EqDecision K} (key : A → option K)
    (value : A → V) (k : K) (l : list A) : list V :=
  value <$> filter (fun a => key a = Some k) l.

Definition groupby {A K V W} `{EqDecision K} (le : K → K → bool)
    (key : A → option K) (value : A → V) (agg : list V → W) (l : list A)
    : list (K * W) :=
  (fun k => (k, agg (group_values key value k l))) <$> lexsort le (group_keys key l).

(** [drop_duplicates(subset=key, keep="first")]. *)
Fixpoint drop_duplicates {A K} `{EqDecision K} (key : A → K) (seen : list K)
    (l : list A) : list A :=
  match l with
  | [] => []
  | a :: l' =>
      if decide (key a ∈ seen) then drop_duplicates key seen l'
      else a :: drop_duplicates key (key a :: seen) l'
  end.

(** A row of the frame of [transaction_volume_by_region]. *)
Record RegionVolume := {
  rv_sku : string;
  rv_year : Z;
  rv_quarter : Period;
  rv_region_id : string;
  rv_region_name : string;
  rv_quantity : Z
}.

(** The keys [sku], [year], [quarter], [region_id], [region_name] of a
    row; [None] when one of them is null. *)
Definition region_key_of (r : Enriched.row)
    : option (string * Z * Period * string * string) :=
  y ← Enriched.year r; q ← Enriched.quarter r;
  i ← catalog_cell "region_id" r; n ← catalog_cell "region_name" r;
  Some (Enriched.sku r, y, q, i, n).

Definition region_key_le (a b : string * Z * Period * string * string) : bool :=
  let '(s1, y1, q1, i1, n1) := a in
  let '(s2, y2, q2, i2, n2) := b in
  and_then (String.compare s1 s2)
    (and_then (y1 ?= y2)%Z
       (and_then (period_year q1 ?= period_year q2)%Z
          (and_then (period_quarter q1 ?= period_quarter q2)%Z
             (and_then (String.compare i1 i2)
                (and_then (String.compare n1 n2) true))))).

Definition region_volume (g : string * Z * Period * string * string * Z)
    : RegionVolume :=
  let '(s, y, q, i, n, v) := g in
  {| rv_sku := s; rv_year := y; rv_quarter := q; rv_region_id := i;
     rv_region_name := n; rv_quantity := v |}.

(** [by=["sku", "year", "quarter", "quantity"],
    ascending=[True, True, True, False]]. *)
Definition by_sku_quarter_volume (a b : RegionVolume) : bool :=
  and_then (String.compare (rv_sku a) (rv_sku b))
    (and_then (rv_year a ?= rv_year b)%Z
       (and_then (period_year (rv_quarter a) ?= period_year (rv_quarter b))%Z
          (and_then
             (period_quarter (rv_quarter a) ?= period_quarter (rv_quarter b))%Z
             (rv_quantity b <=? rv_quantity a)%Z))).

Definition quarter_key (v : RegionVolume) : string * Z * Period :=
  (rv_sku v, rv_year v, rv_quarter v).

Definition transaction_volume_by_region (enriched : DataFrame Enriched.row)
    : option (list RegionVolume) :=
  match require_columns
          ["sku"; "year"; "quarter"; "region_id"; "region_name"; "quantity"]
          (columns enriched) with
  | Raise _ => None
  | Ok _ =>
      let grouped :=
        region_volume
          <$> groupby region_key_le region_key_of Enriched.quantity sum_int64
                (rows enriched) in
      let sorted_grouped := lexsort by_sku_quarter_volume grouped in
      Some (drop_duplicates quarter_key [] sorted_grouped)
  end.

(** A row of the frame of [most_profitable_brands]. *)
Record BrandProfit := {
  bp_brand_id : string;
  bp_brand_name : string;
  bp_sku : string;
  bp_value : float
}.

(** [(year == 2024) & (week <= 21) & (action == "sell")]. *)
Definition early_2024_sale (r : Enriched.row) : bool :=
  from_option (fun y => (y =? 2024)%Z) false (Enriched.year r)
  && from_option (fun w => (w <=? 21)%Z) false (Enriched.week r)
  && String.eqb (Enriched.action r) "sell".

Definition brand_key_of (r : Enriched.row) : option (string * string * string) :=
  i ← catalog_cell "brand_id" r; n ← catalog_cell "brand_name" r;
  Some (i, n, Enriched.sku r).

Definition brand_key_le (a b : string * string * string) : bool :=
  let '(i1, n1, s1) := a in
  let '(i2, n2, s2) := b in
  and_then (String.compare i1 i2)
    (and_then (String.compare n1 n2) (and_then (String.compare s1 s2) true)).

Definition brand_profit (g : string * string * string * float) : BrandProfit :=
  let '(i, n, s, v) := g in
  {| bp_brand_id := i; bp_brand_name := n; bp_sku := s; bp_value := v |}.

(** Descending order of float64, a null last. *)
Definition float_desc (x y : float) : bool :=
  if isna y then true else if isna x then false else SFleb y x.

Definition by_value_desc (a b : BrandProfit) : bool :=
  float_desc (bp_value a) (bp_value b).

Section Analyses.

Variable quicksort : ∀ A : Type, (A → A → bool) → list A → list A.

(** The float64 sum of the values of a group, which are not null, in the
    order of the rows.  The result of a float64 sum depends on how the
    terms are accumulated, which the program leaves to pandas: the sum is
    a parameter. *)
Variable float64_sum : list float → float.

Definition most_profitable_brands (enriched : DataFrame Enriched.row)
    : option (list BrandProfit) :=
  match require_columns
          ["year"; "week"; "action"; "brand_id"; "brand_name"; "sku";
           "transaction_value"]
          (columns enriched) with
  | Raise _ => None
  | Ok _ =>
      let early_2024 :=
        filter (fun r => early_2024_sale r = true) (rows enriched) in
      let brand_profits :=
        brand_profit
          <$> groupby brand_key_le brand_key_of Enriched.transaction_value
                (fun values =>
                   float64_sum (filter (fun x => isna x = false) values))
                early_2024 in
      let top := quicksort _ by_value_desc brand_profits in
      Some (take 2 top)
  end.

(** What a run of the script computes: the enriched rows and the two
    reports. *)
Record Reports := {
  enriched_rows : list Enriched.row;
  top_regions : option (list RegionVolume);
  top_brands : option (list BrandProfit)
}.

Definition script (log_files : list string) (sku_file : sku_source)
    (price_files : list (option (list Quote))) : result Reports :=
  let logs := df (parse_logs log_files) in
  sku_df ← read_skus sku_file;
  let prices := read_market_prices price_files in
  tx ← extract_transactions logs;
  enriched ← enrich_transactions quicksort tx sku_df prices;
  let frame := Frame (enriched_columns sku_df) enriched in
  Ok {| enriched_rows := enriched;
        top_regions := transaction_volume_by_region frame;
        top_brands := most_profitable_brands frame |}.

End Analyses.

(** A float64 sum to run the program with: the terms added from the left. *)
Definition sum_from_left (l : list float) : float :=
  foldl (SFadd 53 1024) (S754_zero false) l.

(** The group of a key in a frame, and its int64 total. *)
Definition region_total (enriched : list Enriched.row)
    (k : string * Z * Period * string * string) : Z :=
  sum_int64 (group_values region_key_of Enriched.quantity k enriched).

Definition volume_key (v : RegionVolume)
    : string * Z * Period * string * string :=
  (rv_sku v, rv_year v, rv_quarter v, rv_region_id v, rv_region_name v).

Definition brand_key (b : BrandProfit) : string * string * string :=
  (bp_brand_id b, bp_brand_name b, bp_sku b).

(** The sales of the first 21 weeks of 2024 in a frame, and the total of a
    brand and sku among them. *)
Definition early_2024_sales (enriched : list Enriched.row) : list Enriched.row :=
  filter (fun r => early_2024_sale r = true) enriched.

Definition brand_total (float64_sum : list float → float)
    (enriched : list Enriched.row) (k : string * string * string) : float :=
  float64_sum
    (filter (fun x => isna x = false)
       (group_values brand_key_of Enriched.transaction_value k
          (early_2024_sales enriched))).

(** ** Inputs for the analyses *)

(** The catalog of the scenario with a brand and a region. *)
Definition report_catalog : sku_source :=
  Normalized
    (Frame ["id"; "code"; "brand_id"; "brand_name"; "region_id"; "region_name"]
       [[Some "7"; Some "WINE-OPU-001"; Some "3"; Some "Opus One";
         Some "12"; Some "Napa Valley"]]).

(** A sale on the thirtieth of December 2024, a Monday, with its
    settlement. *)
Definition year_end_logs : list string :=
  [ "2024-12-30 12:00:00 | ORDER | T9 | sell WINE-OPU-001 2" +:+ nl;
    "2024-12-30 12:01:00 | TRANSACTION | T9 | 50.00" +:+ nl ].

(** What the script computes of the two orders of the scenario and of the
    sale of the end of the year. *)
Definition report_run : result Reports :=
  Eval vm_compute in
    script stable_sort sum_from_left (two_order_logs ++ year_end_logs)
      report_catalog [Some scenario_quotes].

Definition report_frame : DataFrame Enriched.row :=
  Eval vm_compute in
    match report_run with
    | Ok reports =>
        Frame (enriched_columns
                 (Frame ["id"; "sku"; "brand_id"; "brand_name"; "region_id";
                         "region_name"] []))
          (enriched_rows reports)
    | Raise _ => empty_frame
    end.

Definition report_regions : list RegionVolume :=
  Eval vm_compute in
    match report_run with
    | Ok reports => default [] (top_regions reports)
    | Raise _ => []
    end.

Definition report_brands : list BrandProfit :=
  Eval vm_compute in
    match report_run with
    | Ok reports => default [] (top_brands reports)
    | Raise _ => []
    end.

(** The row of the sale of the end of the year, and its timestamp. *)
Definition year_end_row : Enriched.row :=
  Eval vm_compute in default scenario_row (rows report_frame !! 2%nat).

Definition year_end_ns : Z :=
  Eval vm_compute in default 0%Z (Enriched.timestamp year_end_row).

(** The labels that the two analyses look up in the catalog columns. *)
Definition region_labels : list string := ["region_id"; "region_name"].
Definition brand_labels : list string := ["brand_id"; "brand_name"].

(** The concatenation of a list of texts. *)
Definition str_concat (l : list string) : string := foldr String.append "" l.

(** * Properties *)

(** ** The result monad *)

Lemma bind_Ok {A B} (r : result A) (f : A → result B) (b : B) :
  r ≫= f = Ok b → ∃ a, r = Ok a ∧ f a = Ok b.
Proof. destruct r as [a|e]; simpl; [eauto | discriminate]. Qed.

Lemma bind_of_Ok {A B} (a : A) (f : A → result B) : Ok a ≫= f = f a.
Proof. reflexivity. Qed.

Lemma mapR_Ok {A B} (f : A → result B) (l : list A) (bs : list B) :
  mapR f l = Ok bs → Forall2 (fun a b => f a = Ok b) l bs.
Proof.
  revert bs. induction l as [|a l IH]; intros bs H; simpl in H.
  - injection H as <-. constructor.
  - apply bind_Ok in H as (b & Hb & H). apply bind_Ok in H as (bs' & Hbs & H).
    injection H as <-. constructor; auto.
Qed.

Lemma mapR_total {A B} (f : A → result B) (l : list A) :
  Forall (fun a => ∃ b, f a = Ok b) l → ∃ bs, mapR f l = Ok bs.
Proof.
  induction 1 as [|a l [b Hb] _ [bs Hbs]]; simpl; [eauto|].
  rewrite Hb; simpl. rewrite Hbs; simpl. eauto.
Qed.

(** ** parse_logs: merging the files *)

Lemma append_file_fuses (full_text file_content : string) :
  full_text ≠ "" → endswith full_text nl = false →
  append_file full_text file_content = full_text +:+ file_content.
Proof.
  intros Hne Hend. unfold append_file. rewrite Hend.
  destruct (String.eqb_spec full_text ""); [contradiction | reflexivity].
Qed.

Lemma append_file_separates (full_text file_content : string) :
  endswith full_text nl = true →
  append_file full_text file_content = full_text +:+ nl +:+ file_content.
Proof.
  intros Hend. unfold append_file. rewrite Hend.
  by rewrite andb_false_r.
Qed.

(** C4, on two log files of one line each, the first without a final line
    feed: the merged text holds the two lines fused into one physical line,
    the settlement entry is lost and the order's details end in the digits
    of the settlement's date. *)
Theorem merge_files_fuses_lines :
  merge_files [order_line; settlement_line]
    = nl +:+ order_line +:+ settlement_line
  ∧ df (parse_logs [order_line; settlement_line])
    = [ {| timestamp := to_datetime "2024-03-01 10:00:00";
           message_type := "ORDER";
           trace_id := "T1";
           details := "buy WINE-OPU-001 5" +:+ settlement_line |} ].
Proof. split; vm_compute; reflexivity. Qed.

(** ** parse_logs: splitting into entries *)

Lemma split_entries_length (full_text : string) :
  length (split_entries full_text)
  = length (finditer entry_start_pattern full_text).
Proof. unfold split_entries. by rewrite length_map, length_seq. Qed.

Lemma split_entries_lookup (full_text : string) (i : nat) :
  i < length (finditer entry_start_pattern full_text) →
  split_entries full_text !! i
  = Some (entry_at full_text (finditer entry_start_pattern full_text) i).
Proof.
  intros Hi. unfold split_entries.
  rewrite list_lookup_fmap, lookup_seq_lt by done. reflexivity.
Qed.

(** C5: the entries are as many as the matches of the boundary pattern, and
    entry [i] is the text from the start of match [i] to the start of match
    [i+1], or to the end of the text after the last match, stripped and with
    its line feeds replaced by spaces. *)
Theorem entries_follow_boundaries (full_text : string) :
  let matches := finditer entry_start_pattern full_text in
  length (split_entries full_text) = length matches
  ∧ ∀ (i : nat) (m : re_match),
      matches !! i = Some m →
      split_entries full_text !! i
      = Some (replace_char LF " " (strip (slice full_text (m_start m)
                (from_option m_start (String.length full_text)
                   (matches !! S i))))).
Proof.
  intros matches. split; [apply split_entries_length|].
  intros i m Hm.
  rewrite split_entries_lookup by (eapply lookup_lt_Some; exact Hm).
  unfold entry_at, start_of. fold matches. rewrite Hm. simpl.
  replace (i + 1) with (S i) by lia.
  destruct (matches !! S i) as [m'|] eqn:Hnext; simpl.
  - apply lookup_lt_Some in Hnext.
    destruct (Nat.ltb_spec (S i) (length matches)); [reflexivity | lia].
  - apply lookup_ge_None in Hnext.
    destruct (Nat.ltb_spec (S i) (length matches)); [lia | reflexivity].
Qed.

(** ** parse_logs: incomplete entries *)

Lemma str_split_length (sep : string) (maxsplit : nat) (s : string) :
  1 ≤ length (str_split sep maxsplit s) ≤ S maxsplit.
Proof.
  revert s. induction maxsplit as [|n IH]; intros s; simpl; [lia|].
  destruct (partition_at sep s) as [[before after]|]; simpl; [|lia].
  specialize (IH after). lia.
Qed.

Lemma complete_false_iff (entry : string) :
  complete entry = false ↔ length (str_split " | " 3 entry) < 4.
Proof.
  unfold complete. pose proof (str_split_length " | " 3 entry).
  destruct (Nat.eqb_spec (length (str_split " | " 3 entry)) 4); split;
    intros; try lia; try done.
Qed.

(** The records are those of the complete entries, in order; each other
    entry leaves a warning and nothing else. *)
Lemma collect_records_spec (entries : list string) :
  collect_records entries
  = (str_split " | " 3 <$> filter (fun e => complete e = true) entries,
     incomplete_warning <$> filter (fun e => complete e = false) entries).
Proof.
  induction entries as [|e entries IH]; [reflexivity|].
  cbn [collect_records]. rewrite IH. cbv zeta. rewrite !filter_cons.
  change (length (str_split " | " 3 e) =? 4)%nat with (complete e).
  destruct (complete e) eqn:He; repeat case_decide; done.
Qed.

Lemma parse_entries_spec (entries : list string) :
  parse_entries entries
  = (incomplete_warning <$> filter (fun e => complete e = false) entries,
     (fun e => log_entry (str_split " | " 3 e))
       <$> filter (fun e => complete e = true) entries).
Proof.
  unfold parse_entries. rewrite collect_records_spec.
  by rewrite <- list_fmap_compose.
Qed.

Lemma parse_logs_df (log_files : list string) :
  df (parse_logs log_files)
  = (fun e => log_entry (str_split " | " 3 e))
      <$> filter (fun e => complete e = true)
            (split_entries (merge_files log_files)).
Proof.
  unfold parse_logs.
  destruct (parse_entries _) as [w l] eqn:H. rewrite parse_entries_spec in H.
  by injection H as _ <-.
Qed.

Lemma parse_logs_warnings (log_files : list string) :
  log_warnings (parse_logs log_files)
  = incomplete_warning
      <$> filter (fun e => complete e = false)
            (split_entries (merge_files log_files)).
Proof.
  unfold parse_logs.
  destruct (parse_entries _) as [w l] eqn:H. rewrite parse_entries_spec in H.
  by injection H as <- _.
Qed.

(** The split stops after three separators: the fourth field keeps the
    separators that follow. *)
Lemma details_keep_separators :
  str_split " | " 3 "2024-03-01 10:01:00 | RESPONSE | T9 | ok | late"
  = ["2024-03-01 10:01:00"; "RESPONSE"; "T9"; "ok | late"].
Proof. reflexivity. Qed.

(** C6: an entry with fewer than four fields adds one warning to the log and
    no row to the frame of [parse_logs]; the run goes on, and the frame and
    what the script computes from it are those of the other entries, each
    row coming from an entry with four fields. *)
Theorem incomplete_entry_is_dropped
    (quicksort : ∀ A : Type, (A → A → bool) → list A → list A)
    (log_files : list string) (before after : list string)
    (entry : string) (sku_file : sku_source)
    (price_files : list (option (list Quote))) :
  length (str_split " | " 3 entry) < 4 →
  split_entries (merge_files log_files) = before ++ entry :: after →
  df (parse_logs log_files) = snd (parse_entries (before ++ after))
  ∧ (∀ l, l ∈ df (parse_logs log_files) →
       ∃ e, e ∈ before ++ after ∧ length (str_split " | " 3 e) = 4
            ∧ l = log_entry (str_split " | " 3 e))
  ∧ log_warnings (parse_logs log_files)
    = fst (parse_entries before) ++ incomplete_warning entry
        :: fst (parse_entries after)
  ∧ pipeline quicksort log_files sku_file price_files
    = (sku_df ← read_skus sku_file;
       transactions ← extract_transactions
                        (snd (parse_entries (before ++ after)));
       enrich_transactions quicksort transactions sku_df
         (read_market_prices price_files)).
Proof.
  intros Hlt%complete_false_iff Hentries.
  assert (Hdf : df (parse_logs log_files)
                = snd (parse_entries (before ++ after))).
  { rewrite parse_logs_df, Hentries, parse_entries_spec. simpl.
    rewrite !filter_app, filter_cons, decide_False by congruence.
    reflexivity. }
  split; [exact Hdf | split; [|split]].
  - intros l Hl. rewrite Hdf, parse_entries_spec in Hl. simpl in Hl.
    apply list_elem_of_fmap in Hl as (e & -> & He).
    apply list_elem_of_filter in He as [He Hin].
    exists e. split; [done|]. split; [|done].
    unfold complete in He. by apply Nat.eqb_eq.
  - rewrite parse_logs_warnings, Hentries, !parse_entries_spec. simpl.
    rewrite filter_app, filter_cons, decide_True by done.
    by rewrite fmap_app.
  - unfold pipeline. by rewrite Hdf.
Qed.

(** ** Regular expressions: [run] against [matches] *)

Lemma mstate_eta (s : mstate) :
  MState (m_prev s) (m_pos s) (m_rest s) (m_groups s) = s.
Proof. by destruct s. Qed.

Lemma many_greedy_sound p k s rest x :
  many_greedy p k s rest = Some x →
  ∃ s', matches (Many true p)
          (MState (m_prev s) (m_pos s) rest (m_groups s)) s'
        ∧ k s' = Some x.
Proof.
  revert s. induction rest as [|c rest IH]; intros s H; simpl in H.
  - eexists; split; [apply matches_many_stop | done].
  - destruct (p c) eqn:Hp.
    + destruct (many_greedy p k (step c rest s) rest) as [y|] eqn:Hrec.
      * injection H as <-. apply IH in Hrec as (s' & Hm & Hk).
        exists s'; split; [|done].
        eapply matches_many_step; [reflexivity | exact Hp | exact Hm].
      * eexists; split; [apply matches_many_stop | done].
    + eexists; split; [apply matches_many_stop | done].
Qed.

Lemma many_lazy_sound p k s rest x :
  many_lazy p k s rest = Some x →
  ∃ s', matches (Many false p)
          (MState (m_prev s) (m_pos s) rest (m_groups s)) s'
        ∧ k s' = Some x.
Proof.
  revert s. induction rest as [|c rest IH]; intros s H; simpl in H.
  - destruct (k _) as [y|] eqn:Hk; [|done]. injection H as <-.
    eexists; split; [apply matches_many_stop | done].
  - destruct (k _) as [y|] eqn:Hk.
    + injection H as <-. eexists; split; [apply matches_many_stop | done].
    + destruct (p c) eqn:Hp; [|done].
      apply IH in H as (s' & Hm & Hk').
      exists s'; split; [|done].
      eapply matches_many_step; [reflexivity | exact Hp | exact Hm].
Qed.

(** What [run] returns comes from a way of matching. *)
Lemma run_sound r s k x :
  run r s k = Some x → ∃ s', matches r s s' ∧ k s' = Some x.
Proof.
  revert s k x. induction r as [|p|r1 IH1 r2 IH2|r1 IH1 r2 IH2|g p|n r IH|ml|];
    intros s k x H; simpl in H.
  - eauto using matches.
  - destruct (m_rest s) as [|c rest] eqn:Hrest; [done|].
    destruct (p c) eqn:Hp; [|done]. eauto using matches.
  - apply IH1 in H as (s1 & H1 & H). apply IH2 in H as (s2 & H2 & H).
    eauto using matches.
  - destruct (run r1 s k) as [y|] eqn:H1.
    + injection H as <-. apply IH1 in H1 as (s' & ? & ?). eauto using matches.
    + apply IH2 in H as (s' & ? & ?). eauto using matches.
  - destruct g.
    + apply many_greedy_sound in H. by rewrite mstate_eta in H.
    + apply many_lazy_sound in H. by rewrite mstate_eta in H.
  - apply IH in H as (s1 & H1 & H). eauto using matches.
  - destruct (at_bol ml s) eqn:Hb; [|done]. eauto using matches.
  - destruct (at_eol s) eqn:He; [|done]. eauto using matches.
Qed.

Lemma many_complete g p s s' k x :
  matches (Many g p) s s' → k s' = Some x →
  ∃ y, (if g then many_greedy else many_lazy) p k s (m_rest s) = Some y.
Proof.
  intros Hm. remember (Many g p) as r eqn:Hr.
  induction Hm as [| | | | |g' p' s|g' p' c rest s s' Hrest Hp Hm IH| | |];
    try discriminate; injection Hr as -> ->; intros Hk.
  - destruct s as [pv ps rs gs]; simpl in *.
    destruct g, rs as [|c rest]; simpl; rewrite ?Hk; eauto.
    destruct (p c); [|eauto]. destruct (many_greedy _ _ _ _); eauto.
  - destruct (IH eq_refl Hk) as [y Hy].
    destruct s as [pv ps rs gs]; simpl in *. subst rs.
    destruct g; simpl; rewrite Hp.
    + rewrite Hy. eauto.
    + destruct (k (MState pv ps (String c rest) gs)); eauto.
Qed.

(** When some way of matching satisfies the continuation, [run] succeeds. *)
Lemma run_complete r s s' k x :
  matches r s s' → k s' = Some x → ∃ y, run r s k = Some y.
Proof.
  intros Hm. revert k x.
  induction Hm as [s|p c rest s Hrest Hp|r1 r2 s s1 s2 _ IH1 _ IH2
                   |r1 r2 s s' _ IH|r1 r2 s s' _ IH|g p s
                   |g p c rest s s' Hrest Hp Hm _|n r s s1 _ IH|ml s Hb|s He];
    intros k x Hk; simpl.
  - eauto.
  - rewrite Hrest, Hp. eauto.
  - destruct (IH2 _ _ Hk) as [y Hy]. eapply IH1. exact Hy.
  - destruct (IH _ _ Hk) as [y ->]. eauto.
  - destruct (run r1 s k); [eauto|]. eapply IH. exact Hk.
  - eapply (many_complete g p s s); [apply matches_many_stop | exact Hk].
  - eapply (many_complete g p s s'); [|exact Hk].
    eapply matches_many_step; eauto.
  - eapply IH. exact Hk.
  - rewrite Hb. eauto.
  - rewrite He. eauto.
Qed.

(** ** Strings *)

Lemma str_app_cons (c : ascii) (s t : string) :
  String c s +:+ t = String c (s +:+ t).
Proof. reflexivity. Qed.

Lemma str_app_empty_l (s : string) : "" +:+ s = s.
Proof. reflexivity. Qed.

Lemma str_app_empty_r (s : string) : s +:+ "" = s.
Proof. induction s as [|c s IH]; [done|]. by rewrite str_app_cons, IH. Qed.

Lemma str_app_assoc (s t u : string) : (s +:+ t) +:+ u = s +:+ (t +:+ u).
Proof. induction s as [|c s IH]; [done|]. by rewrite !str_app_cons, IH. Qed.

Lemma str_app_length (s t : string) :
  String.length (s +:+ t) = String.length s + String.length t.
Proof. induction s as [|c s IH]; [done|]. rewrite str_app_cons; simpl. by rewrite IH. Qed.

Lemma str_take_app (w r : string) : str_take (String.length w) (w +:+ r) = w.
Proof.
  unfold str_take. induction w as [|c w IH]; simpl.
  - by destruct r.
  - by rewrite IH.
Qed.

Lemma str_forall_app (p : ascii → bool) (s t : string) :
  str_forall p (s +:+ t) = str_forall p s && str_forall p t.
Proof.
  induction s as [|c s IH]; [done|]. rewrite str_app_cons; simpl.
  by rewrite IH, andb_assoc.
Qed.

(** ** Regular expressions: what a match reads *)

Lemma spans_refl (s : mstate) : spans "" s s.
Proof. split; simpl; [done | lia]. Qed.

Lemma spans_step (c : ascii) (rest : string) (s : mstate) :
  m_rest s = String c rest → spans (String c "") s (step c rest s).
Proof. intros H. split; simpl; [done | lia]. Qed.

Lemma spans_trans (w1 w2 : string) (s s1 s2 : mstate) :
  spans w1 s s1 → spans w2 s1 s2 → spans (w1 +:+ w2) s s2.
Proof.
  intros [H1 P1] [H2 P2]. split.
  - by rewrite H1, H2, str_app_assoc.
  - rewrite P2, P1, str_app_length. lia.
Qed.

Lemma spans_group (n : nat) (w : string) (s s1 : mstate) :
  spans w s s1 →
  spans w s (set_group n s s1)
  ∧ m_groups (set_group n s s1) = (n, w) :: m_groups s1.
Proof.
  intros [H P]. split; [split; simpl; done|]. simpl.
  rewrite P, H. replace (m_pos s + String.length w - m_pos s)
    with (String.length w) by lia.
  by rewrite str_take_app.
Qed.

Lemma matches_spans r s s' : matches r s s' → ∃ w, spans w s s'.
Proof.
  induction 1 as [s|p c rest s Hrest Hp|r1 r2 s s1 s2 _ [w1 IH1] _ [w2 IH2]
                  |r1 r2 s s' _ IH|r1 r2 s s' _ IH|g p s
                  |g p c rest s s' Hrest Hp _ [w IH]|n r s s1 _ [w IH]
                  |ml s Hb|s He];
    eauto using spans_refl, spans_step, spans_trans.
Qed.

Lemma matches_chr_inv p s s' :
  matches (Chr p) s s' →
  ∃ c, p c = true ∧ spans (String c "") s s' ∧ m_groups s' = m_groups s
       ∧ m_prev s' = Some c.
Proof.
  inversion 1; subst. eexists; split; [eassumption|].
  split; [by apply spans_step | done].
Qed.

Lemma matches_many_inv g p s s' :
  matches (Many g p) s s' →
  ∃ w, str_forall p w = true ∧ spans w s s' ∧ m_groups s' = m_groups s.
Proof.
  intros H. remember (Many g p) as r eqn:Hr.
  induction H as [| | | | |g' p' s|g' p' c rest s s' Hrest Hp _ IH| | |];
    try discriminate; injection Hr as -> ->.
  - exists "". split; [done|]. split; [apply spans_refl | done].
  - destruct (IH eq_refl) as (w & Hw & Hs & Hg).
    exists (String c "" +:+ w). split; [simpl; by rewrite Hp|].
    split; [|done]. eapply spans_trans; [by apply spans_step | done].
Qed.

Lemma matches_seq_inv r1 r2 s s' :
  matches (Seq r1 r2) s s' → ∃ s1, matches r1 s s1 ∧ matches r2 s1 s'.
Proof. inversion 1; subst; eauto. Qed.

Lemma matches_alt_inv r1 r2 s s' :
  matches (Alt r1 r2) s s' → matches r1 s s' ∨ matches r2 s s'.
Proof. inversion 1; subst; eauto. Qed.

Lemma matches_grp_inv n r s s' :
  matches (Grp n r) s s' → ∃ s1, matches r s s1 ∧ s' = set_group n s s1.
Proof. inversion 1; subst; eauto. Qed.

Lemma matches_plus_inv p s s' :
  matches (plus p) s s' →
  ∃ w, w ≠ "" ∧ str_forall p w = true ∧ spans w s s'
       ∧ m_groups s' = m_groups s.
Proof.
  intros (s1 & H1 & H2)%matches_seq_inv.
  apply matches_chr_inv in H1 as (c & Hc & Hs1 & Hg1 & _).
  apply matches_many_inv in H2 as (w & Hw & Hs2 & Hg2).
  exists (String c "" +:+ w). split; [done|].
  split; [simpl; by rewrite Hc|].
  split; [by eapply spans_trans | congruence].
Qed.

Lemma matches_lit_inv w s s' :
  matches (lit w) s s' → spans w s s' ∧ m_groups s' = m_groups s.
Proof.
  revert s. induction w as [|c w IH]; intros s H; simpl in H.
  - inversion H; subst. split; [apply spans_refl | done].
  - apply matches_seq_inv in H as (s1 & H1 & H2).
    apply matches_chr_inv in H1 as (c' & Hc & Hs1 & Hg1 & _).
    apply Ascii.eqb_eq in Hc as <-.
    apply IH in H2 as [Hs2 Hg2].
    split; [|congruence].
    change (String c w) with (String c "" +:+ w). by eapply spans_trans.
Qed.

(** ** Searching *)

Lemma match_at_sound r prev pos rest m :
  match_at r prev pos rest = Some m →
  ∃ s', matches r (MState prev pos rest []) s'
        ∧ m = ReMatch pos (m_pos s') (m_groups s').
Proof.
  unfold match_at. intros H.
  destruct (run _ _ _) as [s'|] eqn:Hrun; [|done]. injection H as <-.
  apply run_sound in Hrun as (s'' & Hm & [= ->]). eauto.
Qed.

Lemma search_from_sound r prev pos rest m :
  search_from r prev pos rest = Some m →
  match_at r prev pos rest = Some m
  ∨ ∃ c pos' rest', match_at r (Some c) pos' rest' = Some m.
Proof.
  revert prev pos. induction rest as [|c rest IH]; intros prev pos H;
    simpl in H; destruct (match_at r prev pos _) as [m'|] eqn:Hm;
    try (injection H as <-; by left); try done.
  right. apply IH in H as [H|H]; eauto.
Qed.

(** ** extract_transactions: the order pattern *)

Lemma order_pattern_groups s s' :
  matches order_pattern s s' →
  ∃ a k q, m_groups s' = (3, q) :: (2, k) :: (1, a) :: m_groups s
           ∧ (a = "buy" ∨ a = "sell")
           ∧ k ≠ "" ∧ str_forall non_space k = true
           ∧ q ≠ "" ∧ str_forall is_digit q = true.
Proof.
  unfold order_pattern, seqs. intros H.
  apply matches_seq_inv in H as (s1 & H1 & H).
  apply matches_seq_inv in H as (s2 & H2 & H).
  apply matches_seq_inv in H as (s3 & H3 & H).
  apply matches_seq_inv in H as (s4 & H4 & H5).
  apply matches_grp_inv in H1 as (t1 & H1 & ->).
  apply matches_grp_inv in H3 as (t3 & H3 & ->).
  apply matches_grp_inv in H5 as (t5 & H5 & ->).
  apply matches_plus_inv in H2 as (w2 & _ & _ & _ & G2).
  apply matches_plus_inv in H3 as (k & Hk & Hkp & Sk & G3).
  apply matches_plus_inv in H4 as (w4 & _ & _ & _ & G4).
  apply matches_plus_inv in H5 as (q & Hq & Hqp & Sq & G5).
  assert (∃ a, (a = "buy" ∨ a = "sell") ∧ spans a s t1
               ∧ m_groups t1 = m_groups s) as (a & Ha & Sa & G1).
  { apply matches_alt_inv in H1 as [H1|H1];
      apply matches_lit_inv in H1 as [? ?]; eauto. }
  destruct (spans_group 1 a s t1 Sa) as [_ E1].
  destruct (spans_group 2 k s2 t3 Sk) as [_ E3].
  destruct (spans_group 3 q s4 t5 Sq) as [_ E5].
  exists a, k, q. split; [|done].
  rewrite E5, G5, G4, E3, G3, G2, E1, G1. reflexivity.
Qed.

(** The groups that [extract_order] returns: the action is [buy] or [sell],
    the quantity is a non-empty string of digits. *)
Lemma extract_order_spec (s a k q : string) :
  extract_order s = Some (a, k, q) →
  (a = "buy" ∨ a = "sell")
  ∧ k ≠ "" ∧ str_forall non_space k = true
  ∧ q ≠ "" ∧ str_forall is_digit q = true.
Proof.
  unfold extract_order, search. intros H.
  destruct (search_from _ _ _ _) as [m|] eqn:Hs; [|done].
  assert (∃ prev pos rest, match_at order_pattern prev pos rest = Some m)
    as (prev & pos & rest & Hm).
  { apply search_from_sound in Hs as [?|(c & pos' & rest' & ?)]; eauto. }
  apply match_at_sound in Hm as (s' & Hm & ->). simpl in H.
  apply order_pattern_groups in Hm as (a' & k' & q' & Hg & Hspec).
  rewrite Hg in H. simpl in H. by injection H as <- <- <-.
Qed.

Lemma int_digits_total (q : string) (acc : Z) :
  str_forall is_digit q = true → (0 ≤ acc)%Z →
  ∃ n, int_digits acc q = Some n ∧ (0 ≤ n)%Z.
Proof.
  revert acc. induction q as [|c q IH]; intros acc Hq Hacc; simpl in *.
  - eauto.
  - apply andb_true_iff in Hq as [Hc Hq]. rewrite Hc.
    apply IH; [done|]. unfold digit_value, is_digit in *.
    apply andb_true_iff in Hc as [Hlo _]. apply N.leb_le in Hlo. lia.
Qed.

Lemma int_digits_nonneg (q : string) (acc n : Z) :
  int_digits acc q = Some n → (0 ≤ acc)%Z → (0 ≤ n)%Z.
Proof.
  revert acc. induction q as [|c q IH]; intros acc H Hacc; simpl in *.
  - by injection H as <-.
  - destruct (is_digit c) eqn:Hc; [|done].
    eapply IH; [exact H|]. unfold digit_value, is_digit in *.
    apply andb_true_iff in Hc as [Hlo _]. apply N.leb_le in Hlo. lia.
Qed.

Lemma py_int_nonneg (q : string) (n : Z) : py_int q = Some n → (0 ≤ n)%Z.
Proof.
  destruct q as [|c q]; [done|]. unfold py_int.
  intros H. by eapply int_digits_nonneg.
Qed.

Lemma py_int_digits (q : string) :
  q ≠ "" → str_forall is_digit q = true → ∃ n, py_int q = Some n ∧ (0 ≤ n)%Z.
Proof.
  intros Hne Hq. destruct q as [|c q]; [done|].
  unfold py_int. by apply int_digits_total.
Qed.

(** [int] never rejects the quantity that the pattern captured. *)
Lemma astype_int_quantity (s a k q : string) :
  extract_order s = Some (a, k, q) →
  ∃ n, py_int q = Some n ∧ (0 ≤ n)%Z
       ∧ astype_int q = if (n <=? int64_max)%Z then Ok n else Raise OverflowError.
Proof.
  intros (_ & _ & _ & Hne & Hq)%extract_order_spec.
  destruct (py_int_digits q Hne Hq) as (n & Hn & Hpos).
  exists n. unfold astype_int. by rewrite Hn.
Qed.

Lemma adjust_quantity_sign (a : string) (n : Z) :
  (0 ≤ n)%Z →
  Z.abs (adjust_quantity a n) = n
  ∧ (n ≠ 0%Z → a = "buy" → (adjust_quantity a n < 0)%Z)
  ∧ (n ≠ 0%Z → a = "sell" → (adjust_quantity a n > 0)%Z).
Proof.
  intros Hn. unfold adjust_quantity.
  destruct (String.eqb_spec a "buy") as [->|Hne]; repeat split; try lia;
    intros; try done; lia.
Qed.

Lemma Forall2_Ok_elem_of {A} (rs : list (result A)) (os : list A) (r : result A) :
  Forall2 (fun r o => id r = Ok o) rs os → r ∈ rs → ∃ o, o ∈ os ∧ r = Ok o.
Proof.
  induction 1 as [|r' o rs os Hr _ IH]; intros Hin.
  - by apply elem_of_nil in Hin.
  - apply elem_of_cons in Hin as [->|Hin].
    + exists o. split; [left | done].
    + destruct (IH Hin) as (o' & ? & ?). exists o'. split; [by right | done].
Qed.

Lemma Forall2_Ok_elem_of_r {A} (rs : list (result A)) (os : list A) (o : A) :
  Forall2 (fun r o => id r = Ok o) rs os → o ∈ os → Ok o ∈ rs.
Proof.
  induction 1 as [|r' o' rs os Hr _ IH]; intros Hin.
  - by apply elem_of_nil in Hin.
  - apply elem_of_cons in Hin as [->|Hin].
    + simpl in Hr. subst. left.
    + right. auto.
Qed.

(** The rows of the orders frame. *)
Lemma extract_orders_rows (logs : list LogEntry) (orders : list OrderRow)
    (o : OrderRow) :
  extract_orders logs = Ok orders → o ∈ orders →
  entry o ∈ logs ∧ message_type (entry o) = "ORDER"
  ∧ ∃ q n, extract_order (details (entry o)) = Some (action o, sku o, q)
           ∧ py_int q = Some n ∧ (0 ≤ n ≤ int64_max)%Z
           ∧ quantity o = adjust_quantity (action o) n.
Proof.
  intros Hok Ho. apply mapR_Ok in Hok.
  apply (Forall2_Ok_elem_of_r _ _ _ Hok) in Ho.
  apply list_elem_of_omap in Ho as (e & He & Hrow).
  apply list_elem_of_filter in He as [Htype He].
  unfold order_row in Hrow.
  destruct (extract_order (details e)) as [[[a k] q]|] eqn:Hx; [|done].
  destruct (astype_int_quantity _ _ _ _ Hx) as (n & Hn & Hpos & Has).
  injection Hrow as Hrow. rewrite Has in Hrow.
  destruct (Z.leb_spec n int64_max); [|done].
  simpl in Hrow. injection Hrow as <-. simpl.
  split; [done|]. split; [done|]. exists q, n. repeat split; done.
Qed.

(** An ORDER entry whose details match has its row in the orders frame. *)
Lemma extract_orders_entry (logs : list LogEntry) (orders : list OrderRow)
    (e : LogEntry) (a k q : string) :
  extract_orders logs = Ok orders →
  e ∈ logs → message_type e = "ORDER" →
  extract_order (details e) = Some (a, k, q) →
  ∃ n, py_int q = Some n ∧ (0 ≤ n ≤ int64_max)%Z
       ∧ {| entry := e; action := a; sku := k;
            quantity := adjust_quantity a n |} ∈ orders.
Proof.
  intros Hok He Htype Hx. apply mapR_Ok in Hok.
  destruct (astype_int_quantity _ _ _ _ Hx) as (n & Hn & Hpos & Has).
  assert (Hin : order_row e ∈ Some <$> omap order_row
                  (filter (fun e => message_type e = "ORDER") logs)).
  { unfold order_row at 1. rewrite Hx.
    apply list_elem_of_fmap. eexists. split; [reflexivity|].
    apply list_elem_of_omap. exists e. split.
    - by apply list_elem_of_filter.
    - unfold order_row. by rewrite Hx. }
  apply list_elem_of_fmap in Hin as (r & Hr & Hin).
  destruct (Forall2_Ok_elem_of _ _ _ Hok Hin) as (o & Ho & ->).
  unfold order_row in Hr. rewrite Hx in Hr. injection Hr as Hr.
  rewrite Has in Hr. destruct (Z.leb_spec n int64_max); [|done].
  simpl in Hr. injection Hr as <-. exists n. repeat split; done.
Qed.

(** [extract_orders] raises only when a quantity does not fit int64. *)
Lemma extract_orders_total (logs : list LogEntry) :
  (∀ e a k q n, e ∈ logs → message_type e = "ORDER" →
     extract_order (details e) = Some (a, k, q) → py_int q = Some n →
     (n ≤ int64_max)%Z) →
  ∃ orders, extract_orders logs = Ok orders.
Proof.
  intros Hfit. apply mapR_total. apply Forall_forall.
  intros r (e & [Htype He]%list_elem_of_filter & Hrow)%list_elem_of_omap.
  unfold order_row in Hrow.
  destruct (extract_order (details e)) as [[[a k] q]|] eqn:Hx; [|done].
  destruct (astype_int_quantity _ _ _ _ Hx) as (n & Hn & Hpos & Has).
  injection Hrow as <-. rewrite Has.
  specialize (Hfit e a k q n He Htype Hx Hn).
  destruct (Z.leb_spec n int64_max); [|lia]. simpl. eauto.
Qed.

Lemma extract_transactions_Ok (logs : list LogEntry) (merged : list TxRow) :
  extract_transactions logs = Ok merged →
  ∃ orders, extract_orders logs = Ok orders
            ∧ merged = inner_merge orders (extract_settlements logs).
Proof.
  unfold extract_transactions. intros (orders & Ho & H)%bind_Ok.
  injection H as <-. eauto.
Qed.

Lemma inner_merge_elem_of orders transactions (t : TxRow) :
  t ∈ inner_merge orders transactions ↔
  order t ∈ orders
  ∧ (tx_trace_id t, transaction_amount t) ∈ transactions.
Proof.
  unfold inner_merge. rewrite list_elem_of_bind. split.
  - intros (o & Ht & Ho). apply list_elem_of_fmap in Ht as ([c amt] & -> & Hs).
    apply list_elem_of_filter in Hs as [Hc Hs]. simpl in *. subst c.
    split; [done|]. done.
  - intros [Ho Hs]. exists (order t). split; [|done].
    apply list_elem_of_fmap. exists (tx_trace_id t, transaction_amount t).
    split; [by destruct t|]. by apply list_elem_of_filter.
Qed.

(** C2: the row of an ORDER entry whose details match holds the parsed
    quantity with a sign: negative for [buy], positive for [sell], when the
    quantity is not zero; and the rows that [extract_transactions] returns are
    built on such rows. *)
Theorem order_quantity_is_signed (logs : list LogEntry) (merged : list TxRow) :
  extract_transactions logs = Ok merged → signed_orders logs merged.
Proof.
  intros (orders & Hok & ->)%extract_transactions_Ok.
  exists orders. split; [done|]. split.
  - intros t Ht. by apply inner_merge_elem_of in Ht as [? _].
  - intros e a k q n He Htype Hx Hn Hnz.
    destruct (extract_orders_entry _ _ _ _ _ _ Hok He Htype Hx)
      as (n' & Hn' & Hpos & Ho).
    assert (n' = n) as -> by congruence.
    destruct (adjust_quantity_sign a n) as (Habs & Hbuy & Hsell); [lia|].
    eexists. split; [exact Ho|]. simpl. repeat split; auto.
Qed.

(** ** extract_transactions: the correlation *)

Lemma filter_fmap_length {A B} (f : A → B) (P : B → Prop) (Q : A → Prop)
    `{!∀ b, Decision (P b)} `{!∀ a, Decision (Q a)} (l : list A) :
  (∀ a, Q a ↔ P (f a)) →
  length (filter P (f <$> l)) = length (filter Q l).
Proof.
  intros HPQ. induction l as [|a l IH]; [done|].
  rewrite fmap_cons, !filter_cons.
  pose proof (HPQ a).
  destruct (decide (P (f a))), (decide (Q a)); simpl; try lia; tauto.
Qed.

(** The join yields, for a key, as many rows as there are pairs of an order
    and a settlement with that key. *)
Lemma inner_merge_count (orders : list OrderRow)
    (transactions : list (string * string)) (c : string) :
  length (filter (fun t => tx_trace_id t = c) (inner_merge orders transactions))
  = length (filter (fun o => trace_id (entry o) = c) orders)
    * length (filter (fun t => fst t = c) transactions).
Proof.
  unfold inner_merge. induction orders as [|o orders IH]; [done|].
  rewrite bind_cons, filter_app, length_app, IH, filter_cons.
  rewrite (filter_fmap_length _ _ (fun _ => trace_id (entry o) = c)) by done.
  destruct (decide (trace_id (entry o) = c)) as [->|Hne]; simpl.
  - by rewrite list_filter_filter_r.
  - rewrite (list_filter_iff _ (fun _ => False)); [|naive_solver].
    assert (∀ l : list (string * string), filter (fun _ => False) l = []) as ->.
    { induction l as [|x l IHl]; [done|]. rewrite filter_cons_False; tauto. }
    done.
Qed.

Lemma omap_cons {A B} (f : A → option B) (x : A) (l : list A) :
  omap f (x :: l)
  = match f x with Some y => y :: omap f l | None => omap f l end.
Proof. reflexivity. Qed.

Lemma extract_orders_entries (logs : list LogEntry) (orders : list OrderRow) :
  extract_orders logs = Ok orders →
  entry <$> orders
  = filter (fun e => message_type e = "ORDER"
                     ∧ is_Some (extract_order (details e))) logs.
Proof.
  unfold extract_orders. revert orders.
  induction logs as [|e logs IH]; intros orders H.
  - injection H as <-. done.
  - rewrite !filter_cons in *.
    destruct (decide (message_type e = "ORDER")) as [Htype|Htype].
    + rewrite omap_cons in H. unfold order_row at 1 in H.
      destruct (extract_order (details e)) as [[[a k] q]|] eqn:Hx.
      * rewrite decide_True by (split; [done | by eexists]).
        simpl in H. apply bind_Ok in H as (o & Ho & H).
        apply bind_Ok in H as (os & Hos & H). injection H as <-.
        rewrite fmap_cons, (IH os Hos). f_equal.
        apply bind_Ok in Ho as (n & _ & Ho). by injection Ho as <-.
      * rewrite decide_False by (intros [_ [? ?]]; done). auto.
    + rewrite decide_False by (by intros [? _]). auto.
Qed.

(** C3: for a correlation id, [extract_transactions] returns as many rows as
    the product of the number of ORDER entries with that id whose details
    match and the number of TRANSACTION entries with that id. *)
Theorem correlation_is_inner_join (logs : list LogEntry) (merged : list TxRow)
    (c : string) :
  extract_transactions logs = Ok merged →
  length (filter (fun t => tx_trace_id t = c) merged)
  = length (filter (fun e => trace_id e = c ∧ message_type e = "ORDER"
                             ∧ is_Some (extract_order (details e))) logs)
    * length (filter (fun e => trace_id e = c
                               ∧ message_type e = "TRANSACTION") logs).
Proof.
  intros (orders & Hok & ->)%extract_transactions_Ok.
  rewrite inner_merge_count. f_equal.
  - trans (length (filter (fun e => trace_id e = c) (entry <$> orders))).
    { symmetry. by apply filter_fmap_length. }
    rewrite (extract_orders_entries _ _ Hok).
    by rewrite list_filter_filter.
  - unfold extract_settlements.
    rewrite (filter_fmap_length _ _ (fun e => trace_id e = c)) by done.
    by rewrite list_filter_filter.
Qed.

(** ** The calendar

    The date that [date_of] reads off a timestamp is the date that
    [to_datetime] was given. *)

Section Calendar.

Local Open Scope Z_scope.

Lemma year_of_era (yoe doy : Z) :
  0 ≤ yoe < 400 → 0 ≤ doy →
  (doy ≤ 364 ∨ (doy = 365 ∧ (yoe + 1) mod 4 = 0
                ∧ ((yoe + 1) mod 100 ≠ 0 ∨ yoe = 399))) →
  (yoe * 365 + yoe / 4 - yoe / 100 + doy
   - (yoe * 365 + yoe / 4 - yoe / 100 + doy) / 1460
   + (yoe * 365 + yoe / 4 - yoe / 100 + doy) / 36524
   - (yoe * 365 + yoe / 4 - yoe / 100 + doy) / 146096) / 365 = yoe.
Proof. intros Hy Hd Hleap. Z.to_euclidean_division_equations; lia. Qed.

Lemma days_in_month_cases (y m d : Z) :
  1 ≤ m ≤ 12 → 1 ≤ d ≤ days_in_month y m →
  (m = 2 ∧ d ≤ 28)
  ∨ (m = 2 ∧ d = 29 ∧ y mod 4 = 0 ∧ (y mod 100 ≠ 0 ∨ y mod 400 = 0))
  ∨ ((m = 4 ∨ m = 6 ∨ m = 9 ∨ m = 11) ∧ d ≤ 30)
  ∨ ((m = 1 ∨ m = 3 ∨ m = 5 ∨ m = 7 ∨ m = 8 ∨ m = 10 ∨ m = 12) ∧ d ≤ 31).
Proof.
  intros Hm Hd. unfold days_in_month, is_leap in Hd.
  destruct (Z.eqb_spec m 2) as [->|Hm2].
  - destruct (Z.eqb_spec (y mod 4) 0), (Z.eqb_spec (y mod 100) 0),
      (Z.eqb_spec (y mod 400) 0); simpl in Hd; lia.
  - destruct (Z.eqb_spec m 4), (Z.eqb_spec m 6), (Z.eqb_spec m 9),
      (Z.eqb_spec m 11); simpl in Hd; lia.
Qed.

Lemma month_of_year_day (m d : Z) :
  1 ≤ m ≤ 12 → 1 ≤ d →
  (m = 2 → d ≤ 29) → (m = 4 ∨ m = 6 ∨ m = 9 ∨ m = 11 → d ≤ 30) → d ≤ 31 →
  let mp := (m + 9) mod 12 in
  let doy := (153 * mp + 2) / 5 + d - 1 in
  (5 * doy + 2) / 153 = mp
  ∧ doy - (153 * mp + 2) / 5 + 1 = d
  ∧ (mp < 10 ↔ 3 ≤ m) ∧ (mp < 10 → mp + 3 = m) ∧ (10 ≤ mp → mp - 9 = m)
  ∧ 0 ≤ doy ≤ 365 ∧ (doy = 365 → m = 2 ∧ d = 29).
Proof.
  intros Hm Hd H2 H30 H31.
  assert (m = 1 ∨ m = 2 ∨ m = 3 ∨ m = 4 ∨ m = 5 ∨ m = 6 ∨ m = 7 ∨ m = 8
          ∨ m = 9 ∨ m = 10 ∨ m = 11 ∨ m = 12) as Hcases by lia.
  destruct Hcases as [->|[->|[->|[->|[->|[->|[->|[->|[->|[->|[->| ->]]]]]]]]]]];
    cbv zeta;
    match goal with |- context [(?a + 9) mod 12] =>
      let v := eval vm_compute in ((a + 9) mod 12) in
      change ((a + 9) mod 12) with v end;
    match goal with |- context [(153 * ?a + 2) / 5] =>
      let v := eval vm_compute in ((153 * a + 2) / 5) in
      change ((153 * a + 2) / 5) with v end;
    repeat split; try lia;
    try (Z.to_euclidean_division_equations; lia).
Qed.

(** [civil_from_days] inverts [days_from_civil] on the dates that exist. *)
Lemma civil_from_days_from_civil (y m d : Z) :
  1 ≤ m ≤ 12 → 1 ≤ d ≤ days_in_month y m →
  civil_from_days (days_from_civil y m d) = (y, m, d).
Proof.
  intros Hm Hd.
  pose proof (days_in_month_cases y m d Hm Hd) as Hcases.
  destruct (month_of_year_day m d)
    as (Hmp & Hday & Hmp10 & Hlt & Hge & Hdoy & H365); try lia.
  unfold days_from_civil, civil_from_days. cbv zeta.
  set (y' := if m <=? 2 then y - 1 else y) in *.
  set (mp := (m + 9) mod 12) in *.
  set (doy := (153 * mp + 2) / 5 + d - 1) in *.
  set (era := y' / 400).
  set (yoe := y' - era * 400).
  assert (Hy' : y' = y - (if m <=? 2 then 1 else 0)).
  { subst y'. destruct (m <=? 2); lia. }
  assert (Hyoe : 0 ≤ yoe < 400 ∧ y' = era * 400 + yoe).
  { subst yoe era. Z.to_euclidean_division_equations; lia. }
  clearbody yoe era y'.
  assert (Hleap : doy ≤ 364 ∨ (doy = 365 ∧ (yoe + 1) mod 4 = 0
                    ∧ ((yoe + 1) mod 100 ≠ 0 ∨ yoe = 399))).
  { destruct (Z.eq_dec doy 365) as [H|H]; [right | left; lia].
    destruct (H365 H) as [-> ->]. split; [done|].
    cbn in Hy'. destruct Hcases as [?|[?|[?|?]]]; try lia.
    Z.to_euclidean_division_equations; lia. }
  set (doe := yoe * 365 + yoe / 4 - yoe / 100 + doy).
  assert (Hdoe : 0 ≤ doe < 146097).
  { subst doe. Z.to_euclidean_division_equations; lia. }
  replace (era * 146097 + doe - 719468 + 719468) with (doe + era * 146097)
    by lia.
  rewrite Z.div_add by lia. rewrite (Z.div_small doe) by lia.
  replace (doe + era * 146097 - (0 + era) * 146097) with doe by lia.
  assert (Hy : (doe - doe / 1460 + doe / 36524 - doe / 146096) / 365 = yoe).
  { subst doe. apply year_of_era; lia. }
  rewrite Hy.
  replace (doe - (365 * yoe + yoe / 4 - yoe / 100)) with doy
    by (subst doe; lia).
  rewrite Hmp, Hday.
  destruct (Z.ltb_spec mp 10) as [Hlt10|Hge10].
  - rewrite (Hlt Hlt10). destruct (Z.leb_spec m 2); [lia|].
    f_equal. f_equal. lia.
  - rewrite (Hge Hge10). destruct (Z.leb_spec m 2); [|lia].
    f_equal. f_equal. lia.
Qed.

Lemma datetime_ns_day (y mo d h mi s ns : Z) :
  0 ≤ h → 0 ≤ mi → 0 ≤ s →
  datetime_ns y mo d h mi s = Some ns →
  (1 ≤ mo ≤ 12 ∧ 1 ≤ d ≤ days_in_month y mo)
  ∧ ns / ns_per_day = days_from_civil y mo d.
Proof.
  intros Hh Hmi Hs. unfold datetime_ns.
  destruct (_ && _) eqn:Hvalid; [|done].
  repeat (apply andb_true_iff in Hvalid as [Hvalid ?]).
  repeat match goal with H : (_ <=? _) = true |- _ => apply Z.leb_le in H end.
  destruct (in_ns_bounds _); [|done]. intros [= <-].
  split; [lia|]. unfold ns_per_day, ns_per_second.
  Z.to_euclidean_division_equations; lia.
Qed.

Lemma datetime_ns_date (y mo d h mi s ns : Z) :
  0 ≤ h → 0 ≤ mi → 0 ≤ s →
  datetime_ns y mo d h mi s = Some ns → date_of ns = (y, mo, d).
Proof.
  intros Hh Hmi Hs Hns.
  destruct (datetime_ns_day _ _ _ _ _ _ _ Hh Hmi Hs Hns) as [[Hm Hd] Hday].
  unfold date_of. rewrite Hday. by apply civil_from_days_from_civil.
Qed.

Lemma two_digits_value (a b : ascii) (v : Z) :
  two_digits a b = Some v → v = 10 * digit_value a + digit_value b ∧ 0 ≤ v.
Proof.
  unfold two_digits. destruct (is_digit a) eqn:Ha; [|done].
  destruct (is_digit b) eqn:Hb; [|done]. intros [= <-]. split; [done|].
  unfold is_digit, digit_value in *.
  apply andb_true_iff in Ha as [Ha _]. apply andb_true_iff in Hb as [Hb _].
  apply N.leb_le in Ha, Hb. lia.
Qed.

(** The date of a converted timestamp is the date that its characters
    spell. *)
Lemma to_datetime_date (y1 y2 y3 y4 a m1 m2 b d1 d2 : ascii) (rest : string)
    (ns : Z) :
  to_datetime (String y1 (String y2 (String y3 (String y4 (String a
    (String m1 (String m2 (String b (String d1 (String d2 rest))))))))))
  = Some ns →
  date_of ns
  = (1000 * digit_value y1 + 100 * digit_value y2 + 10 * digit_value y3
     + digit_value y4,
     10 * digit_value m1 + digit_value m2,
     10 * digit_value d1 + digit_value d2).
Proof.
  unfold to_datetime.
  destruct rest as [|c [|h1 [|h2 [|e [|n1 [|n2 [|f [|s1 [|s2 [|]]]]]]]]]];
    try done.
  destruct (separators _ _ _ _ _); [|done].
  destruct (two_digits y1 y2) as [yh|] eqn:Hyh; [|done].
  destruct (two_digits y3 y4) as [yl|] eqn:Hyl; [|done].
  destruct (two_digits m1 m2) as [mo|] eqn:Hmo; [|done].
  destruct (two_digits d1 d2) as [d|] eqn:Hd; [|done].
  destruct (two_digits h1 h2) as [h|] eqn:Hh; [|done].
  destruct (two_digits n1 n2) as [mi|] eqn:Hmi; [|done].
  destruct (two_digits s1 s2) as [sec|] eqn:Hsec; [|done].
  simpl. intros Hns.
  apply two_digits_value in Hyh as [-> _], Hyl as [-> _], Hmo as [-> _],
    Hd as [-> _], Hh as [_ Hh], Hmi as [_ Hmi], Hsec as [_ Hsec].
  rewrite (datetime_ns_date _ _ _ _ _ _ _ Hh Hmi Hsec Hns).
  do 2 f_equal. lia.
Qed.

(** The year and the quarter of a converted timestamp. *)
Lemma to_datetime_year_quarter (y1 y2 y3 y4 a m1 m2 b : ascii) (rest : string)
    (ns : Z) :
  to_datetime (String y1 (String y2 (String y3 (String y4 (String a
    (String m1 (String m2 (String b rest))))))))
  = Some ns →
  year_of ns = 1000 * digit_value y1 + 100 * digit_value y2
               + 10 * digit_value y3 + digit_value y4
  ∧ period_quarter (quarter_of ns)
    = (10 * digit_value m1 + digit_value m2 - 1) / 3 + 1.
Proof.
  intros H.
  destruct rest as [|d1 [|d2 rest]]; [done..|].
  unfold quarter_of, month_of, year_of; cbn [period_quarter].
  by rewrite (to_datetime_date _ _ _ _ _ _ _ _ _ _ _ _ H).
Qed.

Lemma days_from_civil_day_number (y m d : Z) :
  days_from_civil y m d
  = day_number (if m <=? 2 then y - 1 else y)
    + (153 * ((m + 9) mod 12) + 2) / 5 + d - 719469.
Proof.
  unfold days_from_civil, day_number. cbv zeta.
  set (y' := if m <=? 2 then y - 1 else y). clearbody y'.
  set (c := (153 * ((m + 9) mod 12) + 2) / 5). clearbody c.
  Z.to_euclidean_division_equations; lia.
Qed.

Lemma day_number_step (y : Z) :
  day_number y - day_number (y - 1) = 365 + (if is_leap y then 1 else 0).
Proof.
  unfold day_number, is_leap.
  destruct (Z.eqb_spec (y mod 4) 0), (Z.eqb_spec (y mod 100) 0),
    (Z.eqb_spec (y mod 400) 0); simpl;
    Z.to_euclidean_division_equations; lia.
Qed.

Lemma first_of_january (y : Z) :
  days_from_civil y 1 1 = day_number (y - 1) - 719162.
Proof.
  rewrite days_from_civil_day_number. change (1 <=? 2) with true.
  change ((153 * ((1 + 9) mod 12) + 2) / 5) with 306. cbv iota. lia.
Qed.

Lemma year_length (y : Z) :
  ∃ leap, 0 ≤ leap ≤ 1
          ∧ days_from_civil (y + 1) 1 1 = days_from_civil y 1 1 + 365 + leap.
Proof.
  exists (if is_leap y then 1 else 0). split; [destruct (is_leap y); lia|].
  rewrite !first_of_january. replace (y + 1 - 1) with y by lia.
  pose proof (day_number_step y). lia.
Qed.

(** A date lies in its year. *)
Lemma date_in_year (y m d : Z) :
  1 ≤ m ≤ 12 → 1 ≤ d ≤ days_in_month y m →
  days_from_civil y 1 1 ≤ days_from_civil y m d < days_from_civil (y + 1) 1 1.
Proof.
  intros Hm Hd. pose proof (days_in_month_cases y m d Hm Hd) as Hcases.
  destruct (month_of_year_day m d)
    as (_ & _ & Hmp10 & _ & _ & Hdoy & H365); try lia.
  cbv zeta in *.
  rewrite !first_of_january, (days_from_civil_day_number y m d).
  replace (y + 1 - 1) with y by lia.
  pose proof (day_number_step y) as Hstep.
  set (c := (153 * ((m + 9) mod 12) + 2) / 5) in *.
  assert (Hc : (m ≤ 2 → 306 ≤ c) ∧ (3 ≤ m → c + d ≤ 306)).
  { assert (m = 1 ∨ m = 2 ∨ m = 3 ∨ m = 4 ∨ m = 5 ∨ m = 6 ∨ m = 7 ∨ m = 8
            ∨ m = 9 ∨ m = 10 ∨ m = 11 ∨ m = 12) as Hm' by lia.
    subst c.
    destruct Hm' as [->|[->|[->|[->|[->|[->|[->|[->|[->|[->|[->| ->]]]]]]]]]]];
      match goal with
      | |- context [(153 * ((?a + 9) mod 12) + 2) / 5] =>
          let v := eval vm_compute in ((153 * ((a + 9) mod 12) + 2) / 5) in
          change ((153 * ((a + 9) mod 12) + 2) / 5) with v
      end;
      split; intros; try lia; destruct Hcases as [?|[?|[?|?]]]; lia. }
  clearbody c.
  destruct (Z.leb_spec m 2).
  - destruct (is_leap y) eqn:Hleap.
    + lia.
    + assert (doy_bound : c + d - 1 ≠ 365).
      { intros Heq. destruct (H365 Heq) as [-> ->].
        destruct Hcases as [?|[(_ & _ & H4 & H100)|[?|?]]]; try lia.
        unfold is_leap in Hleap.
        destruct (Z.eqb_spec (y mod 4) 0), (Z.eqb_spec (y mod 100) 0),
          (Z.eqb_spec (y mod 400) 0); simpl in Hleap; try done; lia. }
      lia.
  - destruct (is_leap y); lia.
Qed.

Lemma dec31_weekday_day_number (y : Z) : dec31_weekday y = day_number y mod 7.
Proof.
  unfold dec31_weekday, day_number. Z.to_euclidean_division_equations; lia.
Qed.

(** The week computed from the ordinal day and the weekday counts the
    Thursdays, whatever the day [j] of the first of January and the lengths
    of the year, of the year before and of the year after. *)
Lemma iso_week_arithmetic (j l0 l1 l2 day : Z) :
  0 ≤ l0 ≤ 1 → 0 ≤ l1 ≤ 1 → 0 ≤ l2 ≤ 1 →
  j ≤ day < j + 365 + l0 →
  let wd := (day + 3) mod 7 + 1 in
  let th := day - wd + 4 in
  let w := (day - j + 1 - wd + 10) / 7 in
  let weeks_before :=
    if ((j + 3) mod 7 =? 4) || ((j - 365 - l1 + 3) mod 7 =? 3)
    then 53 else 52 in
  let weeks :=
    if ((j + 365 + l0 + 3) mod 7 =? 4) || ((j + 3) mod 7 =? 3)
    then 53 else 52 in
  let r := if w <? 1 then weeks_before else if weeks <? w then 1 else w in
  (j - 365 - l1 ≤ th < j ∧ r = (th - (j - 365 - l1)) / 7 + 1)
  ∨ (j ≤ th < j + 365 + l0 ∧ r = (th - j) / 7 + 1)
  ∨ (j + 365 + l0 ≤ th < j + 365 + l0 + 365 + l2
     ∧ r = (th - (j + 365 + l0)) / 7 + 1).
Proof.
  intros H0 H1 H2 Hday. cbv zeta.
  destruct (Z.ltb_spec ((day - j + 1 - ((day + 3) mod 7 + 1) + 10) / 7) 1).
  - left.
    destruct (Z.eqb_spec ((j + 3) mod 7) 4),
      (Z.eqb_spec ((j - 365 - l1 + 3) mod 7) 3); simpl;
      Z.to_euclidean_division_equations; lia.
  - destruct (Z.eqb_spec ((j + 365 + l0 + 3) mod 7) 4),
      (Z.eqb_spec ((j + 3) mod 7) 3); simpl.
    all: match goal with
         | |- context [?a <? ?b] => destruct (Z.ltb_spec a b)
         end.
    all: try (right; left; Z.to_euclidean_division_equations; lia).
    all: right; right; Z.to_euclidean_division_equations; lia.
Qed.

Lemma dec31_weekday_of_year (y : Z) :
  dec31_weekday y = (days_from_civil (y + 1) 1 1 + 3) mod 7.
Proof.
  rewrite dec31_weekday_day_number, first_of_january.
  replace (y + 1 - 1) with y by lia.
  Z.to_euclidean_division_equations; lia.
Qed.

(** The ISO week of a timestamp counts the Thursdays of the year in which
    the Thursday of its week falls. *)
Lemma iso_week_of_date (y m d h mi s ns : Z) :
  0 ≤ h → 0 ≤ mi → 0 ≤ s →
  datetime_ns y m d h mi s = Some ns →
  iso_week_by_thursday (ns / ns_per_day) (iso_week_of ns).
Proof.
  intros Hh Hmi Hs Hns.
  pose proof (datetime_ns_date _ _ _ _ _ _ _ Hh Hmi Hs Hns) as Hdate.
  destruct (datetime_ns_day _ _ _ _ _ _ _ Hh Hmi Hs Hns) as [[Hm Hd] Hday].
  pose proof (date_in_year y m d Hm Hd) as Hin.
  unfold iso_week_of, year_of. rewrite Hdate, Hday. cbn [fst]. cbv zeta.
  unfold iso_weeks_in_year. rewrite !dec31_weekday_of_year.
  replace (y - 1 + 1) with y by lia.
  replace (y - 1 - 1 + 1) with (y - 1) by lia.
  destruct (year_length y) as (l0 & Hl0 & E0).
  destruct (year_length (y - 1)) as (l1 & Hl1 & E1).
  destruct (year_length (y + 1)) as (l2 & Hl2 & E2).
  replace (y - 1 + 1) with y in E1 by lia.
  set (day := days_from_civil y m d) in *.
  set (j := days_from_civil y 1 1) in *.
  assert (Ej : days_from_civil (y - 1) 1 1 = j - 365 - l1) by lia.
  rewrite E0, Ej.
  unfold iso_week_by_thursday, thursday_of, iso_weekday.
  destruct (iso_week_arithmetic j l0 l1 l2 day) as [[Hr Hw]|[[Hr Hw]|[Hr Hw]]];
    try lia.
  - exists (y - 1). replace (y - 1 + 1) with y by lia. fold j. rewrite Ej.
    split; [exact Hr | exact Hw].
  - exists y. fold j. rewrite E0. split; [exact Hr | exact Hw].
  - exists (y + 1). rewrite E2, E0. split; [exact Hr | exact Hw].
Qed.

(** The ISO week of a converted timestamp. *)
Lemma to_datetime_iso_week (s : string) (ns : Z) :
  to_datetime s = Some ns →
  iso_week_by_thursday (ns / ns_per_day) (iso_week_of ns).
Proof.
  unfold to_datetime.
  destruct s as [|y1 [|y2 [|y3 [|y4 [|a [|m1 [|m2 [|b [|d1 [|d2 [|c [|h1
    [|h2 [|e [|n1 [|n2 [|f [|s1 [|s2 [|]]]]]]]]]]]]]]]]]]]]; try done.
  destruct (separators _ _ _ _ _); [|done].
  destruct (two_digits y1 y2) as [yh|] eqn:Hyh; [|done].
  destruct (two_digits y3 y4) as [yl|] eqn:Hyl; [|done].
  destruct (two_digits m1 m2) as [mo|] eqn:Hmo; [|done].
  destruct (two_digits d1 d2) as [d|] eqn:Hd; [|done].
  destruct (two_digits h1 h2) as [h|] eqn:Hh; [|done].
  destruct (two_digits n1 n2) as [mi|] eqn:Hmi; [|done].
  destruct (two_digits s1 s2) as [sec|] eqn:Hsec; [|done].
  simpl. intros Hns.
  apply two_digits_value in Hh as [_ Hh], Hmi as [_ Hmi], Hsec as [_ Hsec].
  exact (iso_week_of_date _ _ _ _ _ _ _ Hh Hmi Hsec Hns).
Qed.

(** ISO weeks at the turn of some years. *)
Lemma iso_week_examples :
  iso_week_of <$> to_datetime "2024-03-01 10:00:00" = Some 9
  ∧ iso_week_of <$> to_datetime "2021-01-03 00:00:00" = Some 53
  ∧ iso_week_of <$> to_datetime "2021-01-04 00:00:00" = Some 1
  ∧ iso_week_of <$> to_datetime "2024-12-30 00:00:00" = Some 1
  ∧ iso_week_of <$> to_datetime "2026-12-31 23:59:59" = Some 53
  ∧ iso_week_of <$> to_datetime "2023-01-01 12:00:00" = Some 52.
Proof. repeat split; vm_compute; reflexivity. Qed.

End Calendar.

(** ** Sorting *)

Lemma insert_sorted_perm {A} (le : A → A → bool) (x : A) (l : list A) :
  insert_sorted le x l ≡ₚ x :: l.
Proof.
  induction l as [|y l IH]; simpl; [done|].
  destruct (le x y); [done|]. rewrite IH. apply Permutation_swap.
Qed.

Lemma lexsort_perm {A} (le : A → A → bool) (l : list A) : lexsort le l ≡ₚ l.
Proof.
  unfold lexsort. induction l as [|x l IH]; simpl; [done|].
  by rewrite insert_sorted_perm, IH.
Qed.

Lemma insert_sorted_sorted {A} (le : A → A → bool) (x : A) (l : list A) :
  total_preorder le →
  StronglySorted (fun a b => le a b = true) l →
  StronglySorted (fun a b => le a b = true) (insert_sorted le x l).
Proof.
  intros [Htotal Htrans]. induction 1 as [|y l Hl IH Hy]; simpl.
  - repeat constructor.
  - destruct (le x y) eqn:Hxy.
    + constructor; [by constructor|]. constructor; [done|].
      eapply Forall_impl; [exact Hy|]. intros z Hz. by eapply Htrans.
    + constructor; [done|].
      rewrite insert_sorted_perm. constructor; [|done].
      destruct (Htotal x y); congruence.
Qed.

Lemma lexsort_sorted {A} (le : A → A → bool) (l : list A) :
  total_preorder le → StronglySorted (fun a b => le a b = true) (lexsort le l).
Proof.
  intros Hle. unfold lexsort. induction l as [|x l IH]; simpl.
  - constructor.
  - by apply insert_sorted_sorted.
Qed.

Lemma stable_sort_sorts : sorts stable_sort.
Proof.
  intros A le l. split; [apply lexsort_perm | apply lexsort_sorted].
Qed.

Lemma time_asc_total_preorder : total_preorder time_asc.
Proof.
  split.
  - intros [x|] [y|]; simpl; auto.
    destruct (Z.leb_spec x y), (Z.leb_spec y x); auto; lia.
  - intros [x|] [y|] [z|]; simpl; try done.
    rewrite !Z.leb_le. lia.
Qed.

Lemma time_desc_total_preorder : total_preorder time_desc.
Proof.
  split.
  - intros [x|] [y|]; simpl; auto.
    destruct (Z.leb_spec x y), (Z.leb_spec y x); auto; lia.
  - intros [x|] [y|] [z|]; simpl; try done.
    rewrite !Z.leb_le. lia.
Qed.

Lemma total_preorder_key {A B} (le : B → B → bool) (key : A → B) :
  total_preorder le → total_preorder (fun a b => le (key a) (key b)).
Proof. intros [Htotal Htrans]. split; eauto. Qed.

Lemma compare_refl (s : string) : String.compare s s = Eq.
Proof.
  pose proof (String.compare_antisym s s) as H.
  by destruct (String.compare s s).
Qed.

Lemma compare_Gt_Lt (s t : string) :
  String.compare s t = Gt ↔ String.compare t s = Lt.
Proof.
  rewrite (String.compare_antisym t s).
  destruct (String.compare s t); simpl; split; done.
Qed.

Lemma compare_Lt_trans (s t u : string) :
  String.compare s t = Lt → String.compare t u = Lt → String.compare s u = Lt.
Proof.
  intros Hst Htu.
  assert (Hle : String.le s u).
  { trans t; unfold String.le, String.leb; [by rewrite Hst | by rewrite Htu]. }
  unfold String.le, String.leb in Hle.
  destruct (String.compare s u) eqn:Hsu; [|done|done].
  apply String.compare_eq_iff in Hsu as ->.
  apply compare_Gt_Lt in Htu. congruence.
Qed.

(** A sort on a string key and then on a second key. *)
Lemma and_then_total_preorder {A} (key : A → string) (le : A → A → bool) :
  total_preorder le →
  total_preorder (fun a b => and_then (String.compare (key a) (key b)) (le a b)).
Proof.
  intros [Htotal Htrans]. split.
  - intros a b. rewrite (String.compare_antisym (key a) (key b)).
    destruct (String.compare (key b) (key a)); simpl; auto.
  - intros a b c.
    destruct (String.compare (key a) (key b)) eqn:Hab; simpl; [| |done].
    + apply String.compare_eq_iff in Hab as ->.
      destruct (String.compare (key b) (key c)); simpl; eauto.
    + destruct (String.compare (key b) (key c)) eqn:Hbc; simpl; [| |done].
      * apply String.compare_eq_iff in Hbc as <-. by rewrite Hab.
      * by rewrite (compare_Lt_trans _ _ _ Hab Hbc).
Qed.

Lemma by_timestamp_total_preorder : total_preorder by_timestamp.
Proof.
  apply (total_preorder_key time_asc (fun j => tx_timestamp (tx j))).
  apply time_asc_total_preorder.
Qed.

Lemma by_price_time_total_preorder : total_preorder by_price_time.
Proof.
  apply (total_preorder_key time_asc pp_time), time_asc_total_preorder.
Qed.

Lemma by_trace_id_price_time_total_preorder :
  total_preorder by_trace_id_price_time.
Proof.
  apply (and_then_total_preorder (fun p => tx_trace_id (tx (joined p)))
           (fun a b => time_desc (price_time a) (price_time b))).
  apply (total_preorder_key time_desc price_time), time_desc_total_preorder.
Qed.

(** ** merge_asof *)

Lemma non_null_keys_Ok {A} (key : A → option Z) (side : string) (l : list A)
    (keyed : list (Z * A)) :
  non_null_keys key side l = Ok keyed →
  Forall2 (fun a ta => key a = Some (fst ta) ∧ snd ta = a) l keyed.
Proof.
  intros H%mapR_Ok. eapply Forall2_impl; [exact H|].
  intros a [t a'] Ha; simpl in *.
  destruct (key a); [|done]. by injection Ha as -> ->.
Qed.

Lemma non_null_keys_total {A} (key : A → option Z) (side : string) (l : list A) :
  Forall (fun a => is_Some (key a)) l → ∃ keyed, non_null_keys key side l = Ok keyed.
Proof.
  intros H. apply mapR_total. eapply Forall_impl; [exact H|].
  intros a [t ->]. eauto.
Qed.

Lemma keyed_elem_of {A} (key : A → option Z) (l : list A) (keyed : list (Z * A)) :
  Forall2 (fun a ta => key a = Some (fst ta) ∧ snd ta = a) l keyed →
  ∀ t a, (t, a) ∈ keyed ↔ a ∈ l ∧ key a = Some t.
Proof.
  induction 1 as [|a [t' a'] l keyed [Hk Ha] _ IH]; intros t b.
  - split; [by intros ?%elem_of_nil | by intros [?%elem_of_nil _]].
  - simpl in *. subst a'. rewrite !elem_of_cons, IH. split.
    + intros [[= -> ->]|[? ?]]; auto.
    + intros [[->|?] Hb]; [left; congruence | auto].
Qed.

Lemma keyed_sorted {A} (key : A → option Z) (l : list A) (keyed : list (Z * A)) :
  Forall2 (fun a ta => key a = Some (fst ta) ∧ snd ta = a) l keyed →
  StronglySorted (fun a b => time_asc (key a) (key b) = true) l →
  StronglySorted (fun x y => (fst x ≤ fst y)%Z) keyed.
Proof.
  intros Hkeyed. pose proof (keyed_elem_of _ _ _ Hkeyed) as Hin.
  clear Hin. induction Hkeyed as [|a [t a'] l keyed [Hk Ha] Hrest IH];
    intros Hsorted; [constructor|].
  apply StronglySorted_inv in Hsorted as [Hl Ha'].
  constructor; [by apply IH|].
  apply Forall_forall. intros [u b] Hb.
  apply (keyed_elem_of _ _ _ Hrest) in Hb as [Hb Hkb].
  rewrite Forall_forall in Ha'. specialize (Ha' b Hb).
  simpl in *. rewrite Hk, Hkb in Ha'. simpl in Ha'. by apply Z.leb_le.
Qed.

Lemma asof_advance_spec t table right table' right' :
  asof_advance t table right = (table', right') →
  ∃ moved,
    right = moved ++ right'
    ∧ Forall (fun p => (fst p ≤ t)%Z) moved
    ∧ (∀ p, head right' = Some p → (t < fst p)%Z)
    ∧ table' = foldl (fun table p => <[pp_sku (snd p) := p]> table) table moved.
Proof.
  revert table. induction right as [|p right IH]; intros table H; simpl in H.
  - injection H as <- <-. exists []. repeat split; [constructor | done].
  - destruct (Z.leb_spec (fst p) t).
    + apply IH in H as (moved & -> & Hmoved & Hhead & ->).
      exists (p :: moved). repeat split; [by constructor | done].
    + injection H as <- <-. exists []. repeat split; [constructor|].
      intros p' [= <-]. done.
Qed.

(** The table holds, for each sku, the last of the rows entered. *)
Lemma table_of_lookup (seen : list (Z * PricePoint)) (k : option string) :
  match table_of seen !! k with
  | Some p => ∃ s1 s2, seen = s1 ++ p :: s2 ∧ pp_sku (snd p) = k
                       ∧ Forall (fun q => pp_sku (snd q) ≠ k) s2
  | None => Forall (fun q => pp_sku (snd q) ≠ k) seen
  end.
Proof.
  unfold table_of. induction seen as [|p seen IH] using rev_ind.
  - simpl. rewrite lookup_empty. constructor.
  - rewrite foldl_app. simpl.
    destruct (decide (pp_sku (snd p) = k)) as [Hk|Hk].
    + rewrite Hk, lookup_insert_eq. exists seen, []. rewrite <- Hk. done.
    + rewrite lookup_insert_ne by done.
      destruct (foldl _ ∅ seen !! k) as [p'|].
      * destruct IH as (s1 & s2 & -> & Hp' & Hs2).
        exists s1, (s2 ++ [p]). rewrite <- app_assoc. split; [done|].
        split; [done|]. apply Forall_app. split; [done|]. by constructor.
      * apply Forall_app. split; [done|]. by constructor.
Qed.

Lemma asof_join_joined left table right :
  joined <$> asof_join left table right = snd <$> left.
Proof.
  revert table right. induction left as [|l left IH]; intros table right;
    [done|]. simpl.
  destruct (asof_advance _ _ _) as [table' right']. simpl. by rewrite IH.
Qed.

(** The scan over sorted keys finds the backward match of every left row. *)
Lemma asof_join_spec (left : list (Z * Joined)) (seen right : list (Z * PricePoint))
    (r : Priced) :
  StronglySorted (fun x y => (fst x ≤ fst y)%Z) left →
  StronglySorted (fun x y => (fst x ≤ fst y)%Z) (seen ++ right) →
  (∀ l p, l ∈ left → p ∈ seen → (fst p ≤ fst l)%Z) →
  r ∈ asof_join left (table_of seen) right →
  ∃ l, l ∈ left ∧ joined r = snd l ∧
    match price_time r with
    | Some u =>
        (∃ p, p ∈ seen ++ right ∧ pp_sku (snd p) = Some (tx_sku (tx (snd l)))
              ∧ fst p = u ∧ pp_price (snd p) = market_price r)
        ∧ (u ≤ fst l)%Z
        ∧ ∀ q, q ∈ seen ++ right →
               pp_sku (snd q) = Some (tx_sku (tx (snd l))) →
               (fst q ≤ fst l)%Z → (fst q ≤ u)%Z
    | None =>
        market_price r = NaN
        ∧ ∀ q, q ∈ seen ++ right →
               pp_sku (snd q) = Some (tx_sku (tx (snd l))) →
               ¬ (fst q ≤ fst l)%Z
    end.
Proof.
  revert seen right.
  induction left as [|l left IH]; intros seen right Hleft Hright Hseen Hr.
  { by apply elem_of_nil in Hr. }
  simpl in Hr.
  destruct (asof_advance (fst l) (table_of seen) right) as [table' right']
    eqn:Hadv.
  apply asof_advance_spec in Hadv as (moved & -> & Hmoved & Hhead & ->).
  apply StronglySorted_inv in Hleft as [Hleft Hl].
  rewrite Forall_forall in Hl. rewrite Forall_forall in Hmoved.
  assert (Htable : foldl (fun table p => <[pp_sku (snd p) := p]> table)
                     (table_of seen) moved = table_of (seen ++ moved)).
  { unfold table_of. by rewrite foldl_app. }
  rewrite Htable in Hr. rewrite (assoc_L (++)) in Hright |- *.
  assert (Hseen' : ∀ p, p ∈ seen ++ moved → (fst p ≤ fst l)%Z).
  { intros p [Hp|Hp]%elem_of_app; [|by apply Hmoved].
    apply (Hseen l p); [left | done]. }
  assert (Hlater : ∀ q, q ∈ right' → (fst l < fst q)%Z).
  { intros q Hq. destruct right' as [|p0 right']; [by apply elem_of_nil in Hq|].
    specialize (Hhead p0 eq_refl).
    apply StronglySorted_app in Hright as (_ & _ & Hsr).
    apply StronglySorted_inv in Hsr as [_ Hp0]. rewrite Forall_forall in Hp0.
    apply elem_of_cons in Hq as [->|Hq]; [done|].
    specialize (Hp0 q Hq). lia. }
  apply elem_of_cons in Hr as [->|Hr].
  - exists l. split; [left|]. split; [done|]. simpl.
    pose proof (table_of_lookup (seen ++ moved) (Some (tx_sku (tx (snd l)))))
      as Hfound.
    destruct (table_of (seen ++ moved) !! Some (tx_sku (tx (snd l))))
      as [p|]; simpl.
    + destruct Hfound as (s1 & s2 & Hsplit & Hsku & Hs2).
      assert (Hp : p ∈ seen ++ moved).
      { rewrite Hsplit. apply elem_of_app. right. left. }
      split; [|split].
      * exists p. split; [|done]. apply elem_of_app. by left.
      * by apply Hseen'.
      * intros q [Hq|Hq]%elem_of_app Hqsku Hqt.
        -- rewrite Hsplit in Hq.
           apply elem_of_app in Hq as [Hq|Hq].
           ++ apply StronglySorted_app in Hright as (_ & Hss & _).
              rewrite Hsplit in Hss.
              apply StronglySorted_app in Hss as (Hcross & _ & _).
              apply Hcross; [done | left].
           ++ apply elem_of_cons in Hq as [->|Hq]; [lia|].
              rewrite Forall_forall in Hs2. by destruct (Hs2 q Hq).
        -- specialize (Hlater q Hq). lia.
    + split; [done|].
      intros q [Hq|Hq]%elem_of_app Hqsku Hqt.
      * rewrite Forall_forall in Hfound. by destruct (Hfound q Hq).
      * specialize (Hlater q Hq). lia.
  - destruct (IH (seen ++ moved) right' Hleft Hright) as (l' & Hl' & Hrest);
      [|exact Hr|].
    { intros l' p Hl' Hp. specialize (Hl l' Hl'). specialize (Hseen' p Hp). lia. }
    exists l'. split; [by right | exact Hrest].
Qed.

Lemma asof_match_ext t k points points' u v :
  (∀ p, p ∈ points ↔ p ∈ points') →
  asof_match t k points u v → asof_match t k points' u v.
Proof.
  intros Hext. unfold asof_match. destruct u as [u|].
  - intros [(p & Hp & Hrest) [Hu Hmax]]. split; [|split; [done|]].
    + exists p. by rewrite <- Hext.
    + intros q t' Hq. apply Hmax. by rewrite Hext.
  - intros [Hv Hnone]. split; [done|].
    intros q t' Hq. apply Hnone. by rewrite Hext.
Qed.

(** [pd.merge_asof] on sorted frames: one row for each left row, in order,
    with its backward match. *)
Lemma merge_asof_spec (left : list Joined) (right : list PricePoint)
    (out : list Priced) :
  StronglySorted (fun a b => by_timestamp a b = true) left →
  StronglySorted (fun a b => by_price_time a b = true) right →
  merge_asof left right = Ok out →
  joined <$> out = left
  ∧ ∀ r, r ∈ out →
      ∃ t, tx_timestamp (tx (joined r)) = Some t
           ∧ asof_match t (tx_sku (tx (joined r))) right
               (price_time r) (market_price r).
Proof.
  intros Hleft Hright H. unfold merge_asof in H.
  apply bind_Ok in H as (lk & Hlk%non_null_keys_Ok & H).
  apply bind_Ok in H as (rk & Hrk%non_null_keys_Ok & H). injection H as <-.
  pose proof (keyed_elem_of _ _ _ Hlk) as Hlin.
  pose proof (keyed_elem_of _ _ _ Hrk) as Hrin.
  split.
  - rewrite asof_join_joined. clear -Hlk.
    induction Hlk as [|a [t a'] l k [_ Ha] _ IH]; [done|].
    rewrite fmap_cons. simpl in Ha. by rewrite Ha, IH.
  - intros r Hr.
    apply (asof_join_spec lk [] rk) in Hr as ([t j] & Hl & Hj & Hspec).
    + apply Hlin in Hl as [_ Ht]. simpl in *. rewrite Hj.
      exists t. split; [done|].
      unfold asof_match. destruct (price_time r) as [u|].
      * destruct Hspec as [([u' p] & Hp & Hsku & <- & Hprice) [Hu Hmax]].
        apply Hrin in Hp as [Hp Hpt]. simpl in *.
        split; [by exists p|]. split; [done|].
        intros q t' Hq Hqsku Hqt. apply (Hmax (t', q)); [|done].
        by apply Hrin.
      * destruct Hspec as [Hv Hnone]. split; [done|].
        intros q t' Hq Hqsku Hqt. apply (Hnone (t', q)); [|done].
        by apply Hrin.
    + by apply (keyed_sorted _ _ _ Hlk).
    + by apply (keyed_sorted _ _ _ Hrk).
    + intros l p _ Hp. by apply elem_of_nil in Hp.
Qed.

Lemma merge_asof_total (left : list Joined) (right : list PricePoint) :
  Forall (fun j => is_Some (tx_timestamp (tx j))) left →
  Forall (fun p => is_Some (pp_time p)) right →
  ∃ out, merge_asof left right = Ok out.
Proof.
  intros Hl Hr. unfold merge_asof.
  destruct (non_null_keys_total _ "left" _ Hl) as [lk ->].
  destruct (non_null_keys_total _ "right" _ Hr) as [rk ->].
  simpl. eauto.
Qed.

(** ** enrich_transactions *)

Lemma require_columns_Ok (labels cols : list string) :
  require_columns labels cols = Ok () ↔ Forall (fun l => l ∈ cols) labels.
Proof.
  induction labels as [|l labels IH]; simpl.
  - split; [constructor | done].
  - rewrite Forall_cons, <- IH. case_bool_decide; [tauto|].
    split; [done | tauto].
Qed.

Lemma catalog_rows_tx sku_df t j : j ∈ catalog_rows sku_df t → tx j = t.
Proof.
  unfold catalog_rows. destruct (filter _ _) as [|r hits].
  - by intros ->%list_elem_of_singleton.
  - by intros (x & -> & _)%list_elem_of_fmap.
Qed.

Lemma other_cells_null key cols :
  Forall (fun c => snd c = None) (other_cells key cols []).
Proof.
  induction cols as [|c cols IH]; simpl; [constructor|].
  destruct (String.eqb c key); [done|]. by constructor.
Qed.

(** The left join keeps a transaction whose sku the catalog does not have,
    with null catalog cells. *)
Lemma catalog_rows_unmatched sku_df t :
  (∀ r, r ∈ rows sku_df → cell_at "sku" (columns sku_df) r ≠ Some (tx_sku t)) →
  ∃ cells, catalog_rows sku_df t = [ {| tx := t; catalog := cells |} ]
           ∧ Forall (fun c => snd c = None) cells.
Proof.
  intros Hnone. unfold catalog_rows.
  destruct (filter _ _) as [|r hits] eqn:Hf.
  - eexists. split; [done|]. apply other_cells_null.
  - assert (Hr : r ∈ filter (fun r => cell_at "sku" (columns sku_df) r
                                       = Some (tx_sku t)) (rows sku_df))
      by (rewrite Hf; left).
    apply list_elem_of_filter in Hr as [Hr Hin]. by destruct (Hnone r Hin).
Qed.

Lemma merge_skus_Ok transactions sku_df joined_rows :
  merge_skus transactions sku_df = Ok joined_rows →
  "sku" ∈ columns sku_df
  ∧ ∀ j, j ∈ joined_rows → tx j ∈ transactions.
Proof.
  unfold merge_skus. intros ([] & Hcols & H)%bind_Ok. injection H as <-.
  apply require_columns_Ok, Forall_cons in Hcols as [Hsku _].
  split; [done|]. intros j (t & Hj & Ht)%list_elem_of_bind.
  by apply catalog_rows_tx in Hj as ->.
Qed.

Section EnrichmentProperties.

Variable quicksort : ∀ A : Type, (A → A → bool) → list A → list A.
Hypothesis quicksort_sorts : sorts quicksort.

(** The stages of [enrich_transactions]. *)
Lemma enrich_transactions_Ok transactions sku_df prices out :
  enrich_transactions quicksort transactions sku_df prices = Ok out →
  ∃ joined_rows priced,
    merge_skus transactions sku_df = Ok joined_rows
    ∧ joined <$> priced ≡ₚ joined_rows
    ∧ (∀ p, p ∈ priced →
         ∃ t, tx_timestamp (tx (joined p)) = Some t
              ∧ asof_match t (tx_sku (tx (joined p)))
                  (price_point <$> rows prices)
                  (price_time p) (market_price p))
    ∧ StronglySorted (fun a b => by_trace_id_price_time a b = true) priced
    ∧ out = derive <$> priced.
Proof using quicksort_sorts.
  unfold enrich_transactions. intros H.
  apply bind_Ok in H as (joined_rows & Hjoin & H).
  apply bind_Ok in H as ([] & _ & H). apply bind_Ok in H as ([] & _ & H).
  apply bind_Ok in H as (priced & Hasof & H).
  apply bind_Ok in H as ([] & _ & H). injection H as <-.
  simpl in Hasof.
  apply merge_asof_spec in Hasof as [Hrows Hmatch];
    [|apply quicksort_sorts, by_timestamp_total_preorder
     |apply quicksort_sorts, by_price_time_total_preorder].
  exists joined_rows, (lexsort by_trace_id_price_time priced).
  split; [done|]. split; [|split; [|split; [|done]]].
  - rewrite lexsort_perm, Hrows.
    rewrite (proj1 (quicksort_sorts _ _ _)). apply lexsort_perm.
  - intros p Hp. rewrite lexsort_perm in Hp.
    destruct (Hmatch p Hp) as (t & Ht & Hm). exists t. split; [done|].
    eapply asof_match_ext; [|exact Hm].
    intros x. rewrite (proj1 (quicksort_sorts _ _ _)).
    by rewrite lexsort_perm.
  - apply lexsort_sorted, by_trace_id_price_time_total_preorder.
Qed.

(** [enrich_transactions] returns when the labels it looks up are there
    and no time is null. *)
Lemma enrich_transactions_total transactions sku_df prices :
  "sku" ∈ columns sku_df → "id" ∈ columns sku_df →
  "sku" ∈ columns prices → "timestamp" ∈ columns prices →
  "price_usd" ∈ columns prices →
  Forall (fun t => is_Some (tx_timestamp t)) transactions →
  Forall (fun p => is_Some (quote_time (quote p))) (rows prices) →
  ∃ out, enrich_transactions quicksort transactions sku_df prices = Ok out.
Proof using quicksort_sorts.
  intros Hsku Hid Hpsku Hptime Hpprice Htx Hprices.
  unfold enrich_transactions, merge_skus. cbv zeta.
  rewrite (proj2 (require_columns_Ok ["sku"] _)) by (by repeat constructor).
  rewrite !bind_of_Ok.
  set (joined_rows := transactions ≫= catalog_rows sku_df).
  set (mapping := [("sku", "sku"); ("timestamp", "price_time");
                   ("price_usd", "market_price")]).
  assert (Hp1 : "sku" ∈ columns (rename mapping prices)).
  { apply list_elem_of_fmap. by exists "sku". }
  assert (Hp2 : "price_time" ∈ columns (rename mapping prices)).
  { apply list_elem_of_fmap. by exists "timestamp". }
  assert (Hp3 : "market_price" ∈ columns (rename mapping prices)).
  { apply list_elem_of_fmap. by exists "price_usd". }
  rewrite (proj2 (require_columns_Ok ["sku"; "price_time"] _))
    by (by repeat constructor).
  rewrite bind_of_Ok.
  rewrite (proj2 (require_columns_Ok ["sku"; "price_time"; "market_price"] _))
    by (by repeat constructor).
  rewrite bind_of_Ok.
  destruct (merge_asof_total
    (quicksort _ by_timestamp (lexsort by_sku_timestamp joined_rows))
    (quicksort _ by_price_time
       (price_point <$> lexsort by_sku_price_time (rows prices))))
    as [priced Hpriced].
  - apply Forall_forall. intros j Hj.
    rewrite (proj1 (quicksort_sorts _ _ _)), lexsort_perm in Hj.
    apply list_elem_of_bind in Hj as (t & Hj & Ht).
    rewrite Forall_forall in Htx. specialize (Htx t Ht).
    by apply catalog_rows_tx in Hj as ->.
  - apply Forall_forall. intros p Hp.
    rewrite (proj1 (quicksort_sorts _ _ _)) in Hp.
    apply list_elem_of_fmap in Hp as (m & -> & Hm).
    rewrite lexsort_perm in Hm.
    rewrite Forall_forall in Hprices. by apply Hprices.
  - simpl rows. rewrite Hpriced, bind_of_Ok.
    rewrite (proj2 (require_columns_Ok dropped_columns _)).
    { rewrite bind_of_Ok. eauto. }
    unfold dropped_columns, transaction_columns.
    repeat apply Forall_cons_2; [| | |constructor].
    + apply elem_of_app. left. apply list_elem_of_In. simpl. tauto.
    + rewrite !elem_of_app. right. left.
      apply list_elem_of_filter. by split.
    + apply elem_of_app. left. apply list_elem_of_In. simpl. tauto.
Qed.

End EnrichmentProperties.

Lemma isna_NaN (x : float) : isna x = true ↔ x = NaN.
Proof. destruct x; simpl; split; done. Qed.

Lemma fmul_NaN (x : float) : fmul x NaN = NaN.
Proof. by destruct x. Qed.

Lemma read_market_prices_failure (all_files : list (option (list Quote))) :
  concat_files all_files = None → read_market_prices all_files = empty_frame.
Proof.
  intros H. unfold read_market_prices.
  destruct all_files as [|f files]; [done|]. by rewrite H.
Qed.

Lemma read_market_prices_rows (all_files : list (option (list Quote)))
    (m : MarketRow) :
  m ∈ rows (read_market_prices all_files) →
  market_sku m = extract_sku (quote_id (quote m)).
Proof.
  unfold read_market_prices.
  destruct all_files as [|f files]; [by intros ?%elem_of_nil|].
  destruct (concat_files (f :: files)) as [market_data|];
    [|by intros ?%elem_of_nil].
  simpl. by intros (q & -> & _)%list_elem_of_fmap.
Qed.

Section EnrichedRows.

Variable quicksort : ∀ A : Type, (A → A → bool) → list A → list A.
Hypothesis quicksort_sorts : sorts quicksort.

Lemma enriched_row_match transactions sku_df prices out r :
  enrich_transactions quicksort transactions sku_df prices = Ok out →
  r ∈ out →
  ∃ t, Enriched.timestamp r = Some t
       ∧ asof_match t (Enriched.sku r) (price_point <$> rows prices)
           (Enriched.price_time r) (Enriched.market_price r).
Proof using quicksort_sorts.
  intros H Hr.
  apply (enrich_transactions_Ok _ quicksort_sorts) in H
    as (joined_rows & priced & _ & _ & Hmatch & _ & ->).
  apply list_elem_of_fmap in Hr as (p & -> & Hp).
  destruct (Hmatch p Hp) as (t & Ht & Hm). by exists t.
Qed.

(** C1: in every row that [enrich_transactions] returns, a market price
    that is not null is the price of a price row of the same sku whose
    time is at or before the timestamp of the row, exact equality
    included, and no price row of that sku has a later time that is still
    at or before the timestamp; when no price row of the sku is at or
    before the timestamp, the market price is null. *)
Theorem market_price_is_backward_match transactions sku_df prices out r :
  enrich_transactions quicksort transactions sku_df prices = Ok out →
  r ∈ out →
  backward_match (rows prices) r.
Proof using quicksort_sorts.
  intros H Hr.
  destruct (enriched_row_match _ _ _ _ _ H Hr) as (t & Ht & Hm).
  exists t. split; [done|].
  unfold asof_match in Hm.
  destruct (Enriched.price_time r) as [u|].
  - destruct Hm as [(p & Hp & Hsku & Htime & Hprice) [Hu Hmax]].
    apply list_elem_of_fmap in Hp as (m & -> & Hm). simpl in *.
    split; [|split; [by eauto|]].
    + intros ? [= <-]. split; [by exists m|]. split; [done|].
      intros q t' Hq Hqsku Hqt. apply (Hmax (price_point q)); try done.
      by apply list_elem_of_fmap_2.
    + intros Hnone. by destruct (Hnone m u Hm Hsku Htime).
  - destruct Hm as [-> Hnone]. split; [done|]. split; done.
Qed.


(** C9, as the code has it: the rows that [enrich_transactions] returns are
    in ascending order of correlation id, and rows with the same
    correlation id are in descending order of matched price time, a null
    price time last. *)
Theorem output_is_sorted transactions sku_df prices out :
  enrich_transactions quicksort transactions sku_df prices = Ok out →
  consecutive sorted_pair out.
Proof using quicksort_sorts.
  intros H i a b Ha Hb.
  apply (enrich_transactions_Ok _ quicksort_sorts) in H
    as (joined_rows & priced & _ & _ & _ & Hsorted & ->).
  rewrite list_lookup_fmap in Ha, Hb.
  destruct (priced !! i) as [p|] eqn:Hp; [|done].
  destruct (priced !! S i) as [q|] eqn:Hq; [|done].
  injection Ha as <-. injection Hb as <-.
  rewrite <- (take_drop_middle _ _ _ Hp) in Hsorted.
  apply StronglySorted_app in Hsorted as (_ & _ & Hsorted).
  apply StronglySorted_inv in Hsorted as [_ Hall].
  assert (Hin : q ∈ drop (S i) priced).
  { apply list_elem_of_lookup. exists 0. by rewrite lookup_drop, Nat.add_0_r. }
  rewrite Forall_forall in Hall. specialize (Hall q Hin).
  unfold by_trace_id_price_time in Hall. unfold sorted_pair; simpl.
  destruct (String.compare _ _) eqn:Hc; simpl in Hall; [| |done].
  - split; done.
  - split; [done|]. intros Heq. rewrite Heq, compare_refl in Hc. done.
Qed.

(** C8, on the code: the readers return an empty frame when the catalog
    file is absent and when reading the price files fails, and
    [enrich_transactions] raises [KeyError] on either empty frame, as
    neither has a column [sku]. *)
Theorem missing_input_raises_KeyError transactions sku_df prices
    (before after : list (option (list Quote))) :
  read_skus Absent = Ok empty_frame
  ∧ enrich_transactions quicksort transactions empty_frame prices
    = Raise (KeyError "sku")
  ∧ read_market_prices [] = empty_frame
  ∧ read_market_prices (before ++ None :: after) = empty_frame
  ∧ enrich_transactions quicksort transactions sku_df empty_frame
    = Raise (KeyError "sku").
Proof.
  split; [done|]. split; [done|]. split; [done|]. split.
  - apply read_market_prices_failure.
    induction before as [|[f|] before IH]; simpl; [done| |done].
    by rewrite IH.
  - unfold enrich_transactions, merge_skus.
    destruct (require_columns ["sku"] (columns sku_df)) as [[]|e] eqn:Hreq.
    + reflexivity.
    + simpl in Hreq. case_bool_decide; [done|]. by injection Hreq as <-.
Qed.

End EnrichedRows.

(** ** read_market_prices: the quote pattern *)

Lemma matches_bol_inv multiline s s' :
  matches (Bol multiline) s s' → s' = s ∧ at_bol multiline s = true.
Proof. by inversion 1. Qed.

Lemma matches_eol_inv s s' : matches Eol s s' → s' = s ∧ at_eol s = true.
Proof. by inversion 1. Qed.

Lemma quote_pattern_sound s s' :
  matches quote_pattern s s' →
  m_prev s = None
  ∧ ∃ p, quote_shape (m_rest s) p ∧ m_groups s' = (1, p) :: m_groups s.
Proof.
  unfold quote_pattern, seqs. intros H.
  apply matches_seq_inv in H as (s1 & H1 & H).
  apply matches_seq_inv in H as (s2 & H2 & H).
  apply matches_seq_inv in H as (s3 & H3 & H).
  apply matches_seq_inv in H as (s4 & H4 & H5).
  apply matches_bol_inv in H1 as [-> Hbol].
  apply matches_grp_inv in H2 as (t2 & H2 & ->).
  apply matches_many_inv in H2 as (p & Hp & Sp & G2).
  apply matches_lit_inv in H3 as [S3 G3].
  apply matches_plus_inv in H4 as (ds & Hne & Hds & S4 & G4).
  apply matches_eol_inv in H5 as [-> Heol].
  destruct (spans_group 1 p s t2 Sp) as [Sp' E2].
  split.
  { unfold at_bol in Hbol. by destruct (m_prev s). }
  exists p. split.
  - exists ds, (m_rest s4). split; [|split; [done|split; [done|split; [done|]]]].
    + destruct Sp' as [-> _]. destruct S3 as [-> _]. by destruct S4 as [-> _].
    + unfold at_eol in Heol. apply orb_true_iff in Heol as [He|He];
        apply String.eqb_eq in He; auto.
  - by rewrite G4, G3, E2, G2.
Qed.

Lemma extract_sku_sound (q p : string) :
  extract_sku (Some q) = Some p → quote_shape q p.
Proof.
  unfold extract_sku, search. intros H.
  destruct (search_from _ _ _ _) as [m|] eqn:Hs; [|done].
  apply search_from_sound in Hs as [Hm|(c & pos & rest & Hm)];
    apply match_at_sound in Hm as (s' & Hm & ->);
    apply quote_pattern_sound in Hm as (Hprev & p' & Hshape & Hg);
    [|done].
  simpl in *. rewrite Hg in H. simpl in H. by injection H as <-.
Qed.

Lemma read_over_rest w r s :
  m_rest (read_over w r s) = match w with "" => m_rest s | _ => r end.
Proof.
  revert s. induction w as [|c w IH]; intros s; [done|].
  simpl. rewrite IH. by destruct w.
Qed.

Lemma read_over_groups w r s : m_groups (read_over w r s) = m_groups s.
Proof. revert s. induction w as [|c w IH]; intros s; [done|]. simpl. by rewrite IH. Qed.

Lemma read_over_rest_eq w r s :
  m_rest s = w +:+ r → m_rest (read_over w r s) = r.
Proof. intros H. rewrite read_over_rest. by destruct w. Qed.

Lemma matches_many_intro g p w r s :
  m_rest s = w +:+ r → str_forall p w = true →
  matches (Many g p) s (read_over w r s).
Proof.
  revert s. induction w as [|c w IH]; intros s Hrest Hw; simpl in *.
  - apply matches_many_stop.
  - apply andb_true_iff in Hw as [Hc Hw].
    eapply matches_many_step; [exact Hrest | exact Hc |].
    by apply IH.
Qed.

Lemma matches_lit_intro w r s :
  m_rest s = w +:+ r → matches (lit w) s (read_over w r s).
Proof.
  revert s. induction w as [|c w IH]; intros s Hrest; simpl in *.
  - apply matches_eps.
  - eapply matches_seq; [|by apply IH].
    apply matches_chr; [exact Hrest | apply Ascii.eqb_refl].
Qed.

Lemma matches_plus_intro p w r s :
  w ≠ "" → m_rest s = w +:+ r → str_forall p w = true →
  matches (plus p) s (read_over w r s).
Proof.
  intros Hne Hrest Hw. destruct w as [|c w]; [done|]. simpl in *.
  apply andb_true_iff in Hw as [Hc Hw].
  eapply matches_seq; [by apply matches_chr|].
  by apply matches_many_intro.
Qed.

Lemma quote_pattern_complete (q p : string) :
  quote_shape q p → ∃ s', matches quote_pattern (MState None 0 q []) s'.
Proof.
  intros (ds & tail & -> & Hp & Hne & Hds & Htail).
  unfold quote_pattern, seqs.
  set (s0 := MState None 0 (p +:+ "-" +:+ ds +:+ tail) []).
  set (s1 := read_over p ("-" +:+ ds +:+ tail) s0).
  set (s2 := set_group 1 s0 s1).
  set (s3 := read_over "-" (ds +:+ tail) s2).
  set (s4 := read_over ds tail s3).
  assert (R1 : m_rest s1 = "-" +:+ ds +:+ tail) by by apply read_over_rest_eq.
  assert (R3 : m_rest s3 = ds +:+ tail) by by apply read_over_rest_eq.
  assert (R4 : m_rest s4 = tail) by by apply read_over_rest_eq.
  exists s4.
  eapply matches_seq; [by apply matches_bol|].
  eapply matches_seq; [apply matches_grp, (matches_many_intro false); done|].
  eapply matches_seq; [by apply (matches_lit_intro "-")|].
  eapply matches_seq; [by apply matches_plus_intro|].
  apply matches_eol. unfold at_eol. rewrite R4.
  by destruct Htail as [-> | ->].
Qed.

Lemma search_from_here r prev pos rest m :
  match_at r prev pos rest = Some m → search_from r prev pos rest = Some m.
Proof. intros H. destruct rest; simpl; by rewrite H. Qed.

Lemma hyphen_not_digit_or_newline (u v : string) :
  str_forall digit_or_newline (u +:+ String "-" v) = false.
Proof.
  rewrite str_forall_app. simpl. by rewrite andb_false_r.
Qed.

Lemma digits_then_tail (ds tail : string) :
  str_forall is_digit ds = true → tail = "" ∨ tail = nl →
  str_forall digit_or_newline (ds +:+ tail) = true.
Proof.
  intros Hds Htail. rewrite str_forall_app. apply andb_true_iff. split.
  - clear Htail. induction ds as [|c ds IH]; [done|]. simpl in *.
    apply andb_true_iff in Hds as [Hc Hds].
    unfold digit_or_newline at 1. by rewrite Hc, IH.
  - by destruct Htail as [-> | ->].
Qed.

(** A quote id has one shape at most. *)
Lemma quote_shape_unique (q p p' : string) :
  quote_shape q p → quote_shape q p' → p = p'.
Proof.
  intros (ds & tail & -> & _ & _ & Hds & Htail)
         (ds' & tail' & Heq & _ & _ & Hds' & Htail').
  pose proof (digits_then_tail ds tail Hds Htail) as Hd.
  pose proof (digits_then_tail ds' tail' Hds' Htail') as Hd'.
  revert p' Heq. induction p as [|c p IH]; intros [|c' p'] Heq;
    repeat rewrite ?str_app_cons, ?str_app_empty_l in Heq.
  - done.
  - injection Heq as <- Heq. rewrite Heq in Hd.
    by rewrite hyphen_not_digit_or_newline in Hd.
  - injection Heq as -> Heq. rewrite <- Heq in Hd'.
    by rewrite hyphen_not_digit_or_newline in Hd'.
  - injection Heq as -> Heq. f_equal. by apply IH.
Qed.

(** The sku that [read_market_prices] derives: the group of the one shape of
    the quote id, when it has one. *)
Lemma extract_sku_spec (q p : string) :
  extract_sku (Some q) = Some p ↔ quote_shape q p.
Proof.
  split; [apply extract_sku_sound|]. intros Hshape.
  destruct (quote_pattern_complete q p Hshape) as [s' Hm].
  destruct (run_complete _ _ _ Some s' Hm eq_refl) as [y Hy].
  assert (Hat : match_at quote_pattern None 0 q
                = Some (ReMatch 0 (m_pos y) (m_groups y))).
  { unfold match_at. by rewrite Hy. }
  pose proof (match_at_sound _ _ _ _ _ Hat) as (s'' & Hm' & Heq).
  apply quote_pattern_sound in Hm' as (_ & p' & Hshape' & Hg).
  assert (p' = p) as -> by by eapply quote_shape_unique.
  unfold extract_sku, search. rewrite (search_from_here _ _ _ _ _ Hat).
  injection Heq as _ Heq. simpl. by rewrite Heq, Hg.
Qed.

Lemma quote_shape_no_newline (q p : string) :
  str_forall not_newline q = true → (quote_shape q p ↔ hyphen_digits q p).
Proof.
  intros Hq. split.
  - intros (ds & tail & -> & Hp & Hne & Hds & [->| ->]).
    + exists ds. by rewrite str_app_empty_r.
    + rewrite !str_forall_app in Hq. simpl in Hq.
      by rewrite !andb_false_r in Hq.
  - intros (ds & -> & Hne & Hds). exists ds, "".
    rewrite str_app_empty_r. split; [done|].
    rewrite str_forall_app in Hq. apply andb_true_iff in Hq as [Hp _].
    repeat split; auto.
Qed.

Section QuoteIds.

Variable quicksort : ∀ A : Type, (A → A → bool) → list A → list A.
Hypothesis quicksort_sorts : sorts quicksort.

(** C10, as the code has it: the sku of a price row is the part of the
    quote id before its final hyphen and digits when the quote id is that
    part, free of line feeds, the hyphen, the digits and at most one final
    line feed, and null otherwise; so on a quote id without line feed it is
    the quote id less its final hyphen and digits, or null when the quote
    id does not end so.  The price row matched to a transaction has the
    sku of the transaction, so a price row with a null sku is never
    matched. *)
Theorem sku_is_quote_id_prefix price_files transactions sku_df out :
  enrich_transactions quicksort transactions sku_df
    (read_market_prices price_files) = Ok out →
  sku_from_quote_id (rows (read_market_prices price_files)) out.
Proof using quicksort_sorts.
  intros H. split.
  - intros m Hm. rewrite (read_market_prices_rows _ _ Hm).
    destruct (quote_id (quote m)) as [q|]; [|done]. split.
    + intros p. apply extract_sku_spec.
    + intros Hq p. rewrite extract_sku_spec. by apply quote_shape_no_newline.
  - intros r u Hr Hu.
    destruct (enriched_row_match _ quicksort_sorts _ _ _ _ _ H Hr)
      as (t & _ & Hmatch).
    rewrite Hu in Hmatch. destruct Hmatch as [(p & Hp & Hrest) _].
    apply list_elem_of_fmap in Hp as (m & -> & Hm). by exists m.
Qed.

End QuoteIds.

(** ** The scenario, and the inputs that settle the claims *)

Lemma scenario_pipeline :
  pipeline stable_sort scenario_logs scenario_catalog [Some scenario_quotes]
  = Ok [scenario_row].
Proof. vm_compute. reflexivity. Qed.

Lemma scenario_quarter_label :
  quarter_label {| period_year := 2024; period_quarter := 1 |} = "2024Q1".
Proof. vm_compute. reflexivity. Qed.

Lemma market_price_is_backward_match_witness :
  enrich_transactions stable_sort scenario_transactions scenario_sku_df
    scenario_prices = Ok [scenario_row]
  ∧ scenario_row ∈ [scenario_row]
  ∧ backward_match (rows scenario_prices) scenario_row.
Proof.
  assert (H : enrich_transactions stable_sort scenario_transactions
                scenario_sku_df scenario_prices = Ok [scenario_row])
    by (vm_compute; reflexivity).
  assert (Hin : scenario_row ∈ [scenario_row]) by left.
  split; [exact H|]. split; [exact Hin|].
  exact (market_price_is_backward_match stable_sort stable_sort_sorts
           _ _ _ _ _ H Hin).
Defined.

Lemma order_quantity_is_signed_witness :
  extract_transactions scenario_entries = Ok scenario_transactions
  ∧ signed_orders scenario_entries scenario_transactions.
Proof.
  assert (H : extract_transactions scenario_entries = Ok scenario_transactions)
    by (vm_compute; reflexivity).
  split; [exact H|]. exact (order_quantity_is_signed _ _ H).
Defined.

Lemma correlation_is_inner_join_witness :
  extract_transactions double_settlement_entries
  = Ok double_settlement_transactions
  ∧ length (filter (fun t => tx_trace_id t = "T1")
              double_settlement_transactions)
    = length (filter (fun e => trace_id e = "T1" ∧ message_type e = "ORDER"
                               ∧ is_Some (extract_order (details e)))
                double_settlement_entries)
      * length (filter (fun e => trace_id e = "T1"
                                 ∧ message_type e = "TRANSACTION")
                  double_settlement_entries).
Proof.
  assert (H : extract_transactions double_settlement_entries
              = Ok double_settlement_transactions)
    by (vm_compute; reflexivity).
  split; [exact H|]. exact (correlation_is_inner_join _ _ "T1" H).
Defined.

Lemma double_settlement_rows :
  length double_settlement_transactions = 2.
Proof. reflexivity. Qed.

Lemma entries_follow_boundaries_witness :
  let full_text := merge_files scenario_logs in
  finditer entry_start_pattern full_text !! 0
    = Some (ReMatch 1 30 [(2, "ORDER"); (1, "2024-03-01 10:00:00")])
  ∧ length (split_entries full_text)
    = length (finditer entry_start_pattern full_text)
  ∧ split_entries full_text !! 0
    = Some (replace_char LF " " (strip (slice full_text 1
              (from_option m_start (String.length full_text)
                 (finditer entry_start_pattern full_text !! 1))))).
Proof.
  intros full_text.
  assert (H : finditer entry_start_pattern full_text !! 0
              = Some (ReMatch 1 30 [(2, "ORDER"); (1, "2024-03-01 10:00:00")]))
    by (vm_compute; reflexivity).
  destruct (entries_follow_boundaries full_text) as [Hlen Hspan].
  split; [exact H|]. split; [exact Hlen|]. exact (Hspan 0 _ H).
Defined.

Lemma incomplete_entry_is_dropped_witness :
  let log_files := [order_line +:+ nl; incomplete_line +:+ nl;
                    settlement_line +:+ nl] in
  length (str_split " | " 3 incomplete_line) < 4
  ∧ split_entries (merge_files log_files)
    = [order_line] ++ incomplete_line :: [settlement_line]
  ∧ df (parse_logs log_files) = scenario_entries
  ∧ log_warnings (parse_logs log_files)
    = ["[WARN] Incomplete log entry skipped: 2024-03-01 10:02:00 | RESULT | T1..."]
  ∧ pipeline stable_sort log_files scenario_catalog [Some scenario_quotes]
    = Ok [scenario_row].
Proof.
  intros log_files.
  assert (H1 : length (str_split " | " 3 incomplete_line) < 4)
    by (vm_compute; lia).
  assert (H2 : split_entries (merge_files log_files)
               = [order_line] ++ incomplete_line :: [settlement_line])
    by (vm_compute; reflexivity).
  destruct (incomplete_entry_is_dropped stable_sort log_files
              [order_line] [settlement_line] incomplete_line scenario_catalog
              [Some scenario_quotes] H1 H2) as (Hdf & _ & Hwarn & Hrun).
  split; [exact H1|]. split; [exact H2|]. split; [|split].
  - rewrite Hdf. vm_compute. reflexivity.
  - rewrite Hwarn. vm_compute. reflexivity.
  - rewrite Hrun. vm_compute. reflexivity.
Defined.


Lemma output_is_sorted_witness :
  enrich_transactions stable_sort two_order_transactions scenario_sku_df
    scenario_prices = Ok two_order_rows
  ∧ consecutive sorted_pair two_order_rows.
Proof.
  assert (H : enrich_transactions stable_sort two_order_transactions
                scenario_sku_df scenario_prices = Ok two_order_rows)
    by (vm_compute; reflexivity).
  split; [exact H|].
  exact (output_is_sorted stable_sort stable_sort_sorts _ _ _ _ H).
Defined.

Lemma two_order_rows_ids :
  Enriched.trace_id <$> two_order_rows = ["T1"; "T2"].
Proof. reflexivity. Qed.

(** C9 as worded fails on the scenario with the second order: the row of
    [T1] comes before the row of [T2]. *)
Lemma output_is_sorted_counterexample :
  ∃ out,
    pipeline stable_sort two_order_logs scenario_catalog [Some scenario_quotes]
    = Ok out
    ∧ ¬ consecutive descending_pair out.
Proof.
  eexists. split; [vm_compute; reflexivity|].
  intros H. destruct (H 0 _ _ eq_refl eq_refl) as [Hid _].
  apply Hid. vm_compute. reflexivity.
Qed.

Lemma sku_is_quote_id_prefix_witness :
  enrich_transactions stable_sort scenario_transactions scenario_sku_df
    (read_market_prices [Some scenario_quotes]) = Ok [scenario_row]
  ∧ sku_from_quote_id (rows (read_market_prices [Some scenario_quotes]))
      [scenario_row].
Proof.
  assert (H : enrich_transactions stable_sort scenario_transactions
                scenario_sku_df (read_market_prices [Some scenario_quotes])
              = Ok [scenario_row])
    by (vm_compute; reflexivity).
  split; [exact H|].
  exact (sku_is_quote_id_prefix stable_sort stable_sort_sorts _ _ _ _ H).
Defined.

Lemma str_snoc_inj (u v : string) (c c' : ascii) :
  u +:+ String c "" = v +:+ String c' "" → c = c'.
Proof.
  revert v. induction u as [|a u IH]; intros [|b v] H;
    repeat rewrite ?str_app_cons, ?str_app_empty_l in H.
  - by injection H.
  - injection H as _ H. by destruct v.
  - injection H as _ H. by destruct u.
  - injection H as _ H. by eapply IH.
Qed.

Lemma str_snoc_exists (s : string) :
  s ≠ "" → ∃ u c, s = u +:+ String c "".
Proof.
  induction s as [|a s IH]; [done|]. intros _.
  destruct s as [|b s].
  - by exists "", a.
  - destruct IH as (u & c & ->); [done|]. by exists (String a u), c.
Qed.

(** A quote id that is a prefix, a hyphen and digits ends in a digit. *)
Lemma hyphen_digits_last (q p : string) :
  hyphen_digits q p → ∃ u c, q = u +:+ String c "" ∧ is_digit c = true.
Proof.
  intros (ds & -> & Hne & Hds).
  destruct (str_snoc_exists ds Hne) as (u & c & ->).
  rewrite str_forall_app in Hds. apply andb_true_iff in Hds as [_ Hc].
  simpl in Hc. rewrite andb_true_r in Hc.
  exists (p +:+ "-" +:+ u), c. split; [|done].
  by rewrite !str_app_assoc.
Qed.

(** C10 as worded fails on a quote id that ends in a line feed: it does not
    end in a hyphen and digits, and its sku is not null. *)
Lemma sku_is_quote_id_prefix_counterexample :
  (¬ ∃ p, hyphen_digits ("AB-12" +:+ nl) p)
  ∧ extract_sku (Some ("AB-12" +:+ nl)) = Some "AB".
Proof.
  split; [|vm_compute; reflexivity].
  intros (p & (u & c & Heq & Hc)%hyphen_digits_last).
  apply str_snoc_inj in Heq as <-. done.
Qed.

(** ** The script, end to end *)

Section Script.

Variable quicksort : ∀ A : Type, (A → A → bool) → list A → list A.
Hypothesis quicksort_sorts : sorts quicksort.

Lemma pipeline_Ok log_files sku_file price_files out :
  pipeline quicksort log_files sku_file price_files = Ok out →
  ∃ sku_df transactions,
    read_skus sku_file = Ok sku_df
    ∧ extract_transactions (df (parse_logs log_files)) = Ok transactions
    ∧ enrich_transactions quicksort transactions sku_df
        (read_market_prices price_files) = Ok out.
Proof.
  unfold pipeline. intros (sku_df & Hsku & H)%bind_Ok.
  apply bind_Ok in H as (transactions & Htx & H). eauto.
Qed.

(** A row of the result comes from an ORDER entry of the merged text: its
    timestamp is the conversion of the first field of the entry, its year,
    quarter and week are those of that date, the week counted by
    Thursdays. *)
Lemma pipeline_row_entry log_files sku_file price_files out r :
  pipeline quicksort log_files sku_file price_files = Ok out →
  r ∈ out →
  ∃ e ns, e ∈ split_entries (merge_files log_files)
          ∧ length (str_split " | " 3 e) = 4
          ∧ to_datetime (nth 0 (str_split " | " 3 e) "") = Some ns
          ∧ Enriched.timestamp r = Some ns
          ∧ Enriched.trace_id r = nth 2 (str_split " | " 3 e) ""
          ∧ Enriched.year r = Some (year_of ns)
          ∧ Enriched.quarter r = Some (quarter_of ns)
          ∧ Enriched.week r = Some (iso_week_of ns)
          ∧ iso_week_by_thursday (ns / ns_per_day)%Z (iso_week_of ns).
Proof using quicksort_sorts.
  intros (sku_df & transactions & _ & Htx & H)%pipeline_Ok Hr.
  apply (enrich_transactions_Ok _ quicksort_sorts) in H
    as (joined_rows & priced & Hjoin & Hperm & Hmatch & _ & ->).
  apply list_elem_of_fmap in Hr as (p & -> & Hp).
  destruct (Hmatch p Hp) as (ns & Hns & _).
  assert (Hj : joined p ∈ joined_rows).
  { rewrite <- Hperm. by apply list_elem_of_fmap_2. }
  apply merge_skus_Ok in Hjoin as [_ Hjoin]. specialize (Hjoin _ Hj).
  apply extract_transactions_Ok in Htx as (orders & Horders & ->).
  apply inner_merge_elem_of in Hjoin as [Ho _].
  destruct (extract_orders_rows _ _ _ Horders Ho) as (He & _).
  rewrite parse_logs_df in He.
  apply list_elem_of_fmap in He as (e & He & [Hc Hin]%list_elem_of_filter).
  assert (Hconv : to_datetime (nth 0 (str_split " | " 3 e) "") = Some ns).
  { unfold tx_timestamp in Hns. by rewrite He in Hns. }
  exists e, ns. split; [done|]. split; [by apply Nat.eqb_eq|].
  split; [done|].
  unfold derive.
  cbn [Enriched.timestamp Enriched.trace_id Enriched.year Enriched.quarter
       Enriched.week].
  rewrite Hns. unfold tx_trace_id. rewrite He.
  repeat split; try done. by eapply to_datetime_iso_week.
Qed.

End Script.
(** ** parse_logs: the order of the log files *)

Lemma mapM_zip_key {A} (key : A → option Z) (l : list A) (keys : list Z) :
  mapM key l = Some keys →
  Forall (fun x => key (snd x) = Some (fst x)) (zip keys l)
  ∧ snd <$> zip keys l = l.
Proof.
  intros H. apply mapM_Some in H.
  induction H as [|a k l keys Hk _ [IH1 IH2]]; [done|].
  split; [by constructor|]. cbn. by f_equal.
Qed.

Lemma key_le_total_preorder {A} :
  total_preorder (fun x y : Z * A => (fst x <=? fst y)%Z).
Proof.
  split.
  - intros a b. rewrite !Z.leb_le. lia.
  - intros a b c. rewrite !Z.leb_le. lia.
Qed.

(** The insertion passes over smaller keys only: the rows of one key keep
    their order. *)
Lemma insert_sorted_filter_key {A} (n : Z) (x : Z * A) (l : list (Z * A)) :
  filter (fun y => fst y = n) (insert_sorted (fun x y => (fst x <=? fst y)%Z) x l)
  = filter (fun y => fst y = n) (x :: l).
Proof.
  induction l as [|y l IH]; [done|]. simpl.
  destruct (Z.leb_spec (fst x) (fst y)) as [Hle|Hlt]; [done|].
  rewrite filter_cons, IH, !filter_cons.
  destruct (decide (fst y = n)), (decide (fst x = n)); try done; lia.
Qed.

Lemma lexsort_filter_key {A} (n : Z) (l : list (Z * A)) :
  filter (fun y => fst y = n) (lexsort (fun x y => (fst x <=? fst y)%Z) l)
  = filter (fun y => fst y = n) l.
Proof.
  unfold lexsort. induction l as [|x l IH]; [done|]. simpl.
  by rewrite insert_sorted_filter_key, !filter_cons, IH.
Qed.

Lemma filter_keyed {A} (key : A → option Z) (n : Z) (l : list (Z * A)) :
  Forall (fun x => key (snd x) = Some (fst x)) l →
  filter (fun a => key a = Some n) (snd <$> l)
  = snd <$> filter (fun y => fst y = n) l.
Proof.
  induction 1 as [|x l Hx _ IH]; [done|].
  rewrite fmap_cons, !filter_cons, IH, Hx.
  destruct (decide (fst x = n)) as [->|Hne].
  - by rewrite decide_True.
  - rewrite decide_False; [done|]. intros [= ?]. done.
Qed.

Lemma StronglySorted_lookup {A} (R : A → A → Prop) (l : list A) (i j : nat)
    (a b : A) :
  StronglySorted R l → i < j → l !! i = Some a → l !! j = Some b → R a b.
Proof.
  intros Hsorted Hij Ha Hb.
  rewrite <- (take_drop_middle _ _ _ Ha) in Hsorted.
  apply StronglySorted_app in Hsorted as (_ & _ & Hsorted).
  apply StronglySorted_inv in Hsorted as [_ Hall].
  rewrite Forall_forall in Hall. apply Hall.
  apply list_elem_of_lookup. exists (j - S i).
  rewrite lookup_drop. rewrite <- Hb. f_equal. lia.
Qed.

(** What [sorted] returns: the list in ascending order of key, the elements
    of one key in the order they had. *)
Lemma sorted_by_spec {A} (key : A → option Z) (l sorted : list A) :
  sorted_by key l = Some sorted →
  sorted ≡ₚ l
  ∧ (∀ (i j : nat) (a b : A),
       i < j → sorted !! i = Some a → sorted !! j = Some b →
       ∃ na nb, key a = Some na ∧ key b = Some nb ∧ (na ≤ nb)%Z)
  ∧ ∀ n, filter (fun a => key a = Some n) sorted
         = filter (fun a => key a = Some n) l.
Proof.
  unfold sorted_by. intros H.
  destruct (mapM key l) as [keys|] eqn:Hkeys; [|done].
  injection H as <-.
  destruct (mapM_zip_key _ _ _ Hkeys) as [Hkeyed Hl].
  set (le := fun x y : Z * A => (fst x <=? fst y)%Z).
  assert (Hkeyed' : Forall (fun x => key (snd x) = Some (fst x))
                      (lexsort le (zip keys l))).
  { rewrite Forall_forall in Hkeyed |- *. intros x Hx.
    apply Hkeyed. by rewrite lexsort_perm in Hx. }
  split; [|split].
  - rewrite lexsort_perm. by rewrite Hl.
  - intros i j a b Hij Ha Hb.
    rewrite list_lookup_fmap in Ha, Hb.
    destruct (lexsort le (zip keys l) !! i) as [x|] eqn:Hx; [|done].
    destruct (lexsort le (zip keys l) !! j) as [y|] eqn:Hy; [|done].
    injection Ha as <-. injection Hb as <-.
    rewrite Forall_forall in Hkeyed'.
    exists (fst x), (fst y).
    split; [by eapply Hkeyed', list_elem_of_lookup_2|].
    split; [by eapply Hkeyed', list_elem_of_lookup_2|].
    apply Z.leb_le.
    apply (StronglySorted_lookup (fun a b => le a b = true)
             (lexsort le (zip keys l)) i j x y); [|done..].
    apply lexsort_sorted, key_le_total_preorder.
  - intros n. subst le. rewrite (filter_keyed key n _ Hkeyed').
    rewrite lexsort_filter_key, <- (filter_keyed key n _ Hkeyed).
    by rewrite Hl.
Qed.

Lemma sorted_by_None {A} (key : A → option Z) (l : list A) :
  sorted_by key l = None ↔ ∃ a, a ∈ l ∧ key a = None.
Proof.
  unfold sorted_by. split.
  - destruct (mapM key l) as [keys|] eqn:Hkeys; [done|]. intros _.
    induction l as [|a l IH]; [done|].
    destruct (key a) as [k|] eqn:Hk.
    + destruct (mapM key l) as [ks|] eqn:Hl.
      * exfalso. assert (is_Some (mapM key (a :: l))) as [? ?]; [|congruence].
        apply mapM_is_Some. constructor; [by eexists|].
        apply mapM_is_Some. by eexists.
      * destruct IH as (b & Hb & Hkb); [done|]. exists b. split; [by right|done].
    + exists a. split; [left | done].
  - intros (a & Ha & Hk).
    destruct (mapM key l) as [keys|] eqn:Hkeys; [|done].
    assert (is_Some (mapM key l)) as Hsome by by eexists.
    apply mapM_is_Some in Hsome. rewrite Forall_forall in Hsome.
    destruct (Hsome a Ha) as [? ?]. congruence.
Qed.

(** What the pattern of the sort key reads: [log_], digits, one character
    that is not a line feed, [txt]. *)
Lemma log_number_pattern_sound s s' :
  matches log_number_pattern s s' →
  ∃ ds c rest,
    m_rest s = "log_" +:+ ds +:+ String c ("txt" +:+ rest)
    ∧ ds ≠ "" ∧ str_forall is_digit ds = true ∧ not_newline c = true
    ∧ m_groups s' = (1, ds) :: m_groups s.
Proof.
  unfold log_number_pattern, seqs. intros H.
  apply matches_seq_inv in H as (s1 & H1 & H).
  apply matches_seq_inv in H as (s2 & H2 & H).
  apply matches_seq_inv in H as (s3 & H3 & H4).
  apply matches_lit_inv in H1 as [S1 G1].
  apply matches_grp_inv in H2 as (t2 & H2 & ->).
  apply matches_plus_inv in H2 as (ds & Hne & Hds & S2 & G2).
  apply matches_chr_inv in H3 as (c & Hc & S3 & G3 & _).
  apply matches_lit_inv in H4 as [S4 G4].
  destruct (spans_group 1 ds s1 t2 S2) as [S2' E2].
  exists ds, c, (m_rest s'). split; [|split; [done|split; [done|split; [done|]]]].
  - destruct S1 as [-> _]. destruct S2' as [-> _]. destruct S3 as [-> _].
    destruct S4 as [-> _]. reflexivity.
  - by rewrite G4, G3, E2, G2, G1.
Qed.

Lemma search_from_inv r prev pos rest m :
  search_from r prev pos rest = Some m →
  ∃ pre rest' prev',
    rest = pre +:+ rest'
    ∧ match_at r prev' (pos + String.length pre) rest' = Some m.
Proof.
  revert prev pos. induction rest as [|c rest IH]; intros prev pos H;
    simpl in H.
  - destruct (match_at r prev pos "") eqn:Hm; [|done]. injection H as <-.
    exists "", "", prev. split; [done|]. simpl. by rewrite Nat.add_0_r.
  - destruct (match_at r prev pos (String c rest)) eqn:Hm.
    + injection H as <-. exists "", (String c rest), prev.
      split; [done|]. simpl. by rewrite Nat.add_0_r.
    + apply IH in H as (pre & rest' & prev' & -> & H).
      exists (String c pre), rest', prev'. split; [done|]. simpl.
      by replace (pos + S (String.length pre))
        with (S pos + String.length pre) by lia.
Qed.

(** The search passes over the positions at which nothing matches. *)
Lemma search_from_skip r pre rest prev pos :
  (∀ u v prev' pos', pre = u +:+ v → v ≠ "" →
     match_at r prev' pos' (v +:+ rest) = None) →
  ∃ prev', search_from r prev pos (pre +:+ rest)
           = search_from r prev' (pos + String.length pre) rest.
Proof.
  revert prev pos. induction pre as [|c pre IH]; intros prev pos Hnone.
  - exists prev. simpl. by rewrite Nat.add_0_r.
  - rewrite str_app_cons. simpl.
    rewrite <- str_app_cons, (Hnone "" (String c pre)) by done.
    destruct (IH (Some c) (S pos)) as [prev' ->].
    { intros u v prev' pos' -> Hv. by apply (Hnone (String c u) v). }
    exists prev'. by replace (pos + S (String.length pre))
      with (S pos + String.length pre) by lia.
Qed.

Lemma log_number_match path m :
  search log_number_pattern path = Some m →
  ∃ pre ds c rest,
    path = pre +:+ "log_" +:+ ds +:+ String c ("txt" +:+ rest)
    ∧ ds ≠ "" ∧ str_forall is_digit ds = true ∧ not_newline c = true
    ∧ group 1 (m_caps m) = Some ds.
Proof.
  unfold search. intros (pre & rest' & prev' & -> & Hm)%search_from_inv.
  apply match_at_sound in Hm as (s' & Hm & ->).
  apply log_number_pattern_sound in Hm as (ds & c & rest & Hrest & Hne & Hds & Hc & Hg).
  simpl in *. subst rest'. exists pre, ds, c, rest.
  repeat split; try done. by rewrite Hg.
Qed.

(** [.group(1)] and [int] do not fail on a path in which the pattern is
    found. *)
Lemma log_number_None path :
  log_number path = None ↔ search log_number_pattern path = None.
Proof.
  unfold log_number. split; [|by intros ->].
  destruct (search log_number_pattern path) as [m|] eqn:Hs; [|done].
  apply log_number_match in Hs as (pre & ds & c & rest & _ & Hne & Hds & _ & ->).
  simpl. destruct (py_int_digits ds Hne Hds) as (n & -> & _). done.
Qed.

Lemma log_number_has_digit path n :
  log_number path = Some n → str_forall not_digit path = false.
Proof.
  unfold log_number.
  destruct (search log_number_pattern path) as [m|] eqn:Hs; [|done].
  apply log_number_match in Hs as (pre & ds & c & rest & -> & Hne & Hds & _).
  intros _. rewrite !str_forall_app.
  destruct ds as [|d ds]; [done|]. simpl in Hds.
  apply andb_true_iff in Hds as [Hd _].
  cbn [str_forall]. unfold not_digit at 6. rewrite Hd.
  by rewrite !andb_false_r.
Qed.

Lemma underscore_free_prefix (v x y : string) :
  v ≠ "" → str_forall not_underscore v = true →
  v +:+ "log_" +:+ y ≠ "log_" +:+ x.
Proof.
  intros Hne Hv Heq.
  destruct v as [|a [|b [|c [|d v]]]]; [done|..];
    repeat rewrite ?str_app_cons, ?str_app_empty_l in Heq;
    injection Heq; intros; subst; try done.
Qed.

Lemma digits_then_txt_unique (ds ds' r r' : string) (c c' : ascii) :
  str_forall is_digit ds = true → str_forall is_digit ds' = true →
  is_digit c = false →
  ds +:+ String c ("txt" +:+ r) = ds' +:+ String c' ("txt" +:+ r') →
  ds = ds'.
Proof.
  intros Hds Hds' Hc. revert ds' Hds'.
  induction ds as [|d ds IH]; intros [|d' ds'] Hds' Heq;
    repeat rewrite ?str_app_cons, ?str_app_empty_l in Heq.
  - done.
  - injection Heq as -> _. simpl in Hds'. by rewrite Hc in Hds'.
  - injection Heq as -> Heq. exfalso.
    destruct ds as [|e ds];
      repeat rewrite ?str_app_cons, ?str_app_empty_l in Heq.
    + by injection Heq.
    + injection Heq as -> _. simpl in Hds.
      by rewrite andb_false_r in Hds.
  - injection Heq as -> Heq. f_equal. simpl in Hds, Hds'.
    apply andb_true_iff in Hds as [_ Hds].
    apply andb_true_iff in Hds' as [_ Hds']. by apply IH.
Qed.

Lemma log_number_pattern_complete (ds rest : string) (c : ascii) prev pos :
  ds ≠ "" → str_forall is_digit ds = true → not_newline c = true →
  ∃ s', matches log_number_pattern
          (MState prev pos ("log_" +:+ ds +:+ String c ("txt" +:+ rest)) []) s'.
Proof.
  intros Hne Hds Hc. unfold log_number_pattern, seqs.
  set (r3 := "txt" +:+ rest).
  set (r2 := String c r3).
  set (r1 := ds +:+ r2).
  set (s0 := MState prev pos ("log_" +:+ r1) []).
  set (s1 := read_over "log_" r1 s0).
  set (t2 := read_over ds r2 s1).
  set (s2 := set_group 1 s1 t2).
  set (s3 := step c r3 s2).
  set (s4 := read_over "txt" rest s3).
  assert (R1 : m_rest s1 = r1) by by apply read_over_rest_eq.
  assert (R2 : m_rest t2 = r2) by by apply read_over_rest_eq.
  exists s4.
  eapply matches_seq; [by apply (matches_lit_intro "log_")|].
  eapply matches_seq; [apply matches_grp, matches_plus_intro; done|].
  eapply matches_seq; [by apply matches_chr|].
  by apply (matches_lit_intro "txt").
Qed.


(** ** parse_logs: the entries *)

Lemma match_at_start r prev pos rest m :
  match_at r prev pos rest = Some m → m_start m = pos.
Proof.
  unfold match_at. destruct (run _ _ _); [|done]. by intros [= <-].
Qed.

(** A match of [finditer] is a match at its start, in the text from there
    on. *)
Lemma finditer_from_match r rest prev pos skip m :
  m ∈ finditer_from r prev pos rest skip →
  ∃ pre rest' prev',
    rest = pre +:+ rest' ∧ m_start m = pos + String.length pre
    ∧ match_at r prev' (pos + String.length pre) rest' = Some m.
Proof.
  revert prev pos skip.
  induction rest as [|c rest IH]; intros prev pos skip Hm.
  - destruct skip; simpl in Hm; [|by apply elem_of_nil in Hm].
    destruct (match_at r prev pos "") as [m0|] eqn:H0;
      [|by apply elem_of_nil in Hm].
    apply list_elem_of_singleton in Hm as ->.
    exists "", "", prev. simpl. rewrite Nat.add_0_r.
    split; [done|]. split; [by eapply match_at_start | done].
  - assert (Hrec : ∀ k, m ∈ finditer_from r (Some c) (S pos) rest k →
              ∃ pre rest' prev',
                String c rest = pre +:+ rest'
                ∧ m_start m = pos + String.length pre
                ∧ match_at r prev' (pos + String.length pre) rest' = Some m).
    { intros k (pre & rest' & prev' & -> & Hs & Hat)%IH.
      exists (String c pre), rest', prev'. simpl.
      replace (pos + S (String.length pre))
        with (S pos + String.length pre) by lia. done. }
    destruct skip; simpl in Hm; [|by eapply Hrec].
    destruct (match_at r prev pos (String c rest)) as [m0|] eqn:H0;
      [|by eapply Hrec].
    apply elem_of_cons in Hm as [->|Hm]; [|by eapply Hrec].
    exists "", (String c rest), prev. simpl. rewrite Nat.add_0_r.
    split; [done|]. split; [by eapply match_at_start | done].
Qed.

(** The matches of [finditer] do not overlap. *)
Lemma finditer_from_sorted r rest prev pos skip :
  Forall (fun m => pos + skip ≤ m_start m) (finditer_from r prev pos rest skip)
  ∧ StronglySorted (fun m m' => m_end m ≤ m_start m')
      (finditer_from r prev pos rest skip).
Proof.
  revert prev pos skip.
  induction rest as [|c rest IH]; intros prev pos skip.
  - destruct skip; simpl; [|split; constructor].
    destruct (match_at r prev pos "") as [m0|] eqn:H0; [|split; constructor].
    apply match_at_start in H0.
    split; repeat constructor. lia.
  - destruct skip; simpl.
    + destruct (match_at r prev pos (String c rest)) as [m0|] eqn:H0.
      * apply match_at_start in H0.
        destruct (IH (Some c) (S pos) (m_end m0 - pos - 1)) as [Hlo Hs].
        split.
        -- constructor; [lia|]. eapply Forall_impl; [exact Hlo|].
           simpl. intros; lia.
        -- constructor; [done|]. eapply Forall_impl; [exact Hlo|].
           simpl. intros; lia.
      * destruct (IH (Some c) (S pos) 0) as [Hlo Hs]. split; [|done].
        eapply Forall_impl; [exact Hlo|]. simpl. intros; lia.
    + destruct (IH (Some c) (S pos) skip) as [Hlo Hs]. split; [|done].
      eapply Forall_impl; [exact Hlo|]. simpl. intros; lia.
Qed.

Lemma matches_times_inv (n : nat) (p : ascii → bool) s s' :
  matches (times n (Chr p)) s s' →
  ∃ w, String.length w = n ∧ str_forall p w = true ∧ spans w s s'
       ∧ m_groups s' = m_groups s.
Proof.
  revert s. induction n as [|n IH]; intros s H; simpl in H.
  - inversion H; subst. exists "". split; [done|]. split; [done|].
    split; [apply spans_refl | done].
  - apply matches_seq_inv in H as (s1 & H1 & H2).
    apply matches_chr_inv in H1 as (c & Hc & S1 & G1 & _).
    apply IH in H2 as (w & Hlen & Hw & S2 & G2).
    exists (String c w). split; [simpl; by rewrite Hlen|].
    split; [simpl; by rewrite Hc, Hw|]. split; [|congruence].
    change (String c w) with (String c "" +:+ w). by eapply spans_trans.
Qed.

Ltac chars2 w := destruct w as [|? [|? [|]]]; try discriminate.
Ltac chars4 w := destruct w as [|? [|? [|? [|? [|]]]]]; try discriminate.

(** What the boundary pattern reads: a timestamp, [ | ], a message type and
    [ |]. *)
Lemma entry_start_pattern_sound s s' :
  matches entry_start_pattern s s' →
  ∃ ts ty, spans (ts +:+ " | " +:+ ty +:+ " |") s s'
           ∧ timestamp_shape ts = true ∧ ty ∈ message_types.
Proof.
  unfold entry_start_pattern. cbn [seqs]. intros H.
  apply matches_seq_inv in H as (s1 & H1 & H).
  apply matches_seq_inv in H as (s2 & H2 & H).
  apply matches_seq_inv in H as (s3 & H3 & H).
  apply matches_seq_inv in H as (s4 & H4 & H5).
  apply matches_bol_inv in H1 as [-> _].
  apply matches_grp_inv in H2 as (t2 & H2 & ->).
  apply matches_lit_inv in H3 as [S3 _].
  apply matches_grp_inv in H4 as (t4 & H4 & ->).
  apply matches_lit_inv in H5 as [S5 _].
  assert (∃ ts, spans ts s t2 ∧ timestamp_shape ts = true) as (ts & Sts & Hts).
  { clear -H2.
    apply matches_seq_inv in H2 as (a1 & Y & H).
    apply matches_seq_inv in H as (a2 & L1 & H).
    apply matches_seq_inv in H as (a3 & Mo & H).
    apply matches_seq_inv in H as (a4 & L2 & H).
    apply matches_seq_inv in H as (a5 & D & H).
    apply matches_seq_inv in H as (a6 & L3 & H).
    apply matches_seq_inv in H as (a7 & Hh & H).
    apply matches_seq_inv in H as (a8 & L4 & H).
    apply matches_seq_inv in H as (a9 & Mi & H).
    apply matches_seq_inv in H as (a10 & L5 & Se).
    apply matches_times_inv in Y as (wy & Ly & Py & Sy & _).
    apply matches_times_inv in Mo as (wmo & Lmo & Pmo & Smo & _).
    apply matches_times_inv in D as (wd & Ld & Pd & Sd & _).
    apply matches_times_inv in Hh as (wh & Lh & Ph & Sh & _).
    apply matches_times_inv in Mi as (wmi & Lmi & Pmi & Smi & _).
    apply matches_times_inv in Se as (wse & Lse & Pse & Sse & _).
    apply matches_lit_inv in L1 as [SL1 _], L2 as [SL2 _], L3 as [SL3 _],
      L4 as [SL4 _], L5 as [SL5 _].
    eexists. split.
    - eapply spans_trans; [exact Sy|]. eapply spans_trans; [exact SL1|].
      eapply spans_trans; [exact Smo|]. eapply spans_trans; [exact SL2|].
      eapply spans_trans; [exact Sd|]. eapply spans_trans; [exact SL3|].
      eapply spans_trans; [exact Sh|]. eapply spans_trans; [exact SL4|].
      eapply spans_trans; [exact Smi|]. eapply spans_trans; [exact SL5|].
      exact Sse.
    - chars4 wy. chars2 wmo. chars2 wd. chars2 wh. chars2 wmi. chars2 wse.
      simpl in Py, Pmo, Pd, Ph, Pmi, Pse.
      repeat match goal with
             | H : _ && _ = true |- _ => apply andb_true_iff in H as [? ?]
             end.
      cbv -[is_digit].
      repeat match goal with
             | H : is_digit _ = true |- _ => rewrite H; clear H
             end.
      reflexivity. }
  assert (∃ ty, ty ∈ message_types ∧ spans ty s3 t4) as (ty & Hty & Sty).
  { unfold message_types.
    apply matches_alt_inv in H4 as [H4|H4];
      [|apply matches_alt_inv in H4 as [H4|H4];
        [|apply matches_alt_inv in H4 as [H4|H4]]];
      apply matches_lit_inv in H4 as [S4 _];
      eexists; (split; [|exact S4]);
      apply list_elem_of_In; simpl; tauto. }
  exists ts, ty. split; [|done].
  destruct (spans_group 1 ts s t2 Sts) as [Sts' _].
  destruct (spans_group 2 ty s3 t4 Sty) as [Sty' _].
  eapply spans_trans; [exact Sts'|].
  eapply spans_trans; [exact S3|].
  eapply spans_trans; [exact Sty' | exact S5].
Qed.

Lemma substring_skip (pre s : string) (n : nat) :
  String.substring (String.length pre) n (pre +:+ s) = String.substring 0 n s.
Proof. induction pre as [|c pre IH]; [done|]. by rewrite str_app_cons. Qed.

Lemma substring_app (w s : string) (k : nat) :
  String.substring 0 (String.length w + k) (w +:+ s)
  = w +:+ String.substring 0 k s.
Proof.
  induction w as [|c w IH]; [done|]. rewrite !str_app_cons. simpl.
  by rewrite IH.
Qed.

Lemma digit_char (c : ascii) :
  is_digit c = true →
  is_space c = false ∧ not_bar c = true ∧ not_newline c = true
  ∧ not_blank c = true.
Proof.
  destruct c as [[] [] [] [] [] [] [] []]; vm_compute; intros; done.
Qed.

Lemma rstrip_app (w x : string) (c : ascii) :
  is_space c = false →
  rstrip (w +:+ String c x) = w +:+ String c (rstrip x).
Proof.
  intros Hc. induction w as [|a w IH].
  - rewrite !str_app_empty_l. simpl. rewrite Hc. by destruct (rstrip x).
  - rewrite !str_app_cons. simpl. rewrite IH.
    by destruct w.
Qed.

Lemma replace_char_app (old new : ascii) (s t : string) :
  replace_char old new (s +:+ t)
  = replace_char old new s +:+ replace_char old new t.
Proof.
  induction s as [|c s IH]; [done|]. rewrite str_app_cons. simpl.
  by rewrite IH.
Qed.

Lemma replace_char_id (s : string) :
  str_forall not_newline s = true → replace_char LF " " s = s.
Proof.
  induction s as [|c s IH]; [done|]. simpl.
  intros [Hc Hs]%andb_true_iff. rewrite IH by done.
  unfold not_newline in Hc. by destruct (Ascii.eqb c LF).
Qed.

Lemma replace_char_no_newline (s : string) :
  str_forall not_newline (replace_char LF " " s) = true.
Proof.
  induction s as [|c s IH]; [done|]. simpl. rewrite IH.
  by destruct (Ascii.eqb c LF) eqn:Hc; unfold not_newline; rewrite ?Hc.
Qed.

(** The characters of a timestamp. *)
Lemma timestamp_shape_chars (ts : string) :
  timestamp_shape ts = true →
  String.length ts = 19
  ∧ str_forall not_bar ts = true ∧ str_forall not_newline ts = true
  ∧ ∃ c ts', ts = String c ts' ∧ is_space c = false.
Proof.
  unfold timestamp_shape.
  destruct ts as [|y1 [|y2 [|y3 [|y4 [|a [|m1 [|m2 [|b [|d1 [|d2 [|c [|h1
    [|h2 [|e [|n1 [|n2 [|f [|s1 [|s2 [|]]]]]]]]]]]]]]]]]]]]; try done.
  intros [Hsep Hd]%andb_true_iff. unfold separators in Hsep. cbn in Hd.
  repeat match goal with
         | H : _ && _ = true |- _ => apply andb_true_iff in H as [? ?]
         end.
  repeat match goal with
         | H : Ascii.eqb _ _ = true |- _ => apply Ascii.eqb_eq in H; subst
         end.
  repeat match goal with
         | H : is_digit _ = true |- _ =>
             apply digit_char in H as (? & ? & ? & ?)
         end.
  split; [done|]. cbn -[not_bar not_newline].
  split; [|split; [|by eauto]].
  - repeat (apply andb_true_iff; split); done.
  - repeat (apply andb_true_iff; split); done.
Qed.

Lemma message_type_chars (ty : string) :
  ty ∈ message_types →
  str_forall not_blank ty = true ∧ str_forall not_newline ty = true.
Proof.
  unfold message_types. rewrite !elem_of_cons, elem_of_nil.
  intros [->|[->|[->|[->|[]]]]]; done.
Qed.

(** Stripping and flattening leave the boundary of an entry as it is. *)
Lemma boundary_entry (ts ty x : string) :
  timestamp_shape ts = true → ty ∈ message_types →
  replace_char LF " " (strip ((ts +:+ " | " +:+ ty +:+ " |") +:+ x))
  = ts +:+ " | " +:+ ty +:+ " |" +:+ replace_char LF " " (rstrip x).
Proof.
  intros (_ & _ & Hts & c & ts' & -> & Hc)%timestamp_shape_chars
         [_ Hty]%message_type_chars.
  unfold strip. rewrite !str_app_cons. simpl lstrip. rewrite Hc.
  rewrite <- !str_app_cons.
  replace ((String c ts' +:+ " | " +:+ ty +:+ " |") +:+ x)
    with ((String c ts' +:+ " | " +:+ ty +:+ " ") +:+ String "|" x)
    by (by rewrite !str_app_assoc).
  rewrite rstrip_app by done.
  rewrite !replace_char_app. simpl replace_char at 4.
  rewrite (replace_char_id (String c ts')), (replace_char_id ty) by done.
  change (replace_char LF " " " | ") with " | ".
  change (replace_char LF " " " ") with " ".
  change (Ascii.eqb "|" LF) with false. cbv iota.
  by rewrite !str_app_assoc.
Qed.

Lemma split_entries_shape (full_text e : string) :
  e ∈ split_entries full_text →
  ∃ ts ty tail,
    e = ts +:+ " | " +:+ ty +:+ " |" +:+ tail
    ∧ timestamp_shape ts = true ∧ ty ∈ message_types
    ∧ str_forall not_newline tail = true.
Proof.
  intros [i Hi]%list_elem_of_lookup.
  pose proof (lookup_lt_Some _ _ _ Hi) as Hlt.
  rewrite split_entries_length in Hlt.
  rewrite split_entries_lookup in Hi by done. injection Hi as <-.
  set (found := finditer entry_start_pattern full_text) in *.
  destruct (lookup_lt_is_Some_2 found i Hlt) as [m Hm].
  assert (Hin : m ∈ found) by by eapply list_elem_of_lookup_2.
  apply finditer_from_match in Hin as (pre & rest' & prev' & Htext & Hstart & Hat).
  apply match_at_sound in Hat as (s' & Hmatch & Heq).
  apply entry_start_pattern_sound in Hmatch as (ts & ty & [Hrest Hpos] & Hts & Hty).
  simpl in Hrest, Hpos, Hstart.
  set (W := ts +:+ " | " +:+ ty +:+ " |") in *.
  assert (Hend : m_end m = String.length pre + String.length W)
    by (by rewrite Heq).
  unfold entry_at, start_of. rewrite Hm. simpl from_option.
  set (stop := if (i + 1 <? length found)%nat
               then from_option m_start 0%nat (found !! (i + 1))
               else String.length full_text).
  assert (∃ k, stop = String.length pre + String.length W + k) as [k Hk].
  { subst stop. destruct (Nat.ltb_spec (i + 1) (length found)) as [Hnext|Hlast].
    - destruct (lookup_lt_is_Some_2 found (i + 1) Hnext) as [m' Hm'].
      rewrite Hm'. simpl.
      pose proof (proj2 (finditer_from_sorted entry_start_pattern full_text
                           None 0 0)) as Hsorted.
      pose proof (StronglySorted_lookup _ _ i (i + 1) m m' Hsorted
                    ltac:(lia) Hm Hm') as Hle.
      simpl in Hle. exists (m_start m' - m_end m). lia.
    - exists (String.length (m_rest s')).
      by rewrite Htext, Hrest, !str_app_length, Nat.add_assoc. }
  unfold slice. rewrite Hstart, Hk, Htext, Hrest.
  replace (String.length pre + String.length W + k - String.length pre)
    with (String.length W + k) by lia.
  rewrite substring_skip, substring_app.
  subst W. rewrite boundary_entry by done.
  eexists ts, ty, _. split; [reflexivity|]. split; [done|]. split; [done|].
  apply replace_char_no_newline.
Qed.

(** ** parse_logs: the fields of an entry *)

Lemma partition_at_cons (sep s : string) (c : ascii) :
  String.prefix sep (String c s) = false →
  partition_at sep (String c s)
  = match partition_at sep s with
    | Some (before, after) => Some (String c before, after)
    | None => None
    end.
Proof. intros H. cbn [partition_at]. by rewrite H. Qed.

Lemma prefix_drop (sep s : string) :
  String.prefix sep s = true → s = sep +:+ str_drop (String.length sep) s.
Proof.
  revert s. induction sep as [|a sep IH]; intros s H; [done|].
  destruct s as [|b s]; [done|]. simpl in H.
  destruct (ascii_dec a b) as [->|]; [|done].
  rewrite str_app_cons. simpl. f_equal. by apply IH.
Qed.

Lemma prefix_app (sep s t : string) :
  String.prefix sep s = true → String.prefix sep (s +:+ t) = true.
Proof.
  revert s. induction sep as [|a sep IH]; intros s H; [by destruct (s +:+ t)|].
  destruct s as [|b s]; [done|]. rewrite str_app_cons. simpl in *.
  destruct (ascii_dec a b); [|done]. by apply IH.
Qed.

(** [partition_at] cuts the text at an occurrence of the separator, and
    there is none before. *)
Lemma partition_at_Some (sep s before after : string) :
  partition_at sep s = Some (before, after) →
  s = before +:+ sep +:+ after ∧ (sep ≠ "" → partition_at sep before = None).
Proof.
  revert before. induction s as [|c s IH]; intros before H.
  - cbn [partition_at] in H. destruct (String.prefix sep "") eqn:Hp; [|done].
    injection H as <- <-. destruct sep; [|done]. done.
  - cbn [partition_at] in H. destruct (String.prefix sep (String c s)) eqn:Hp.
    + injection H as <- <-. split; [by apply prefix_drop|].
      intros Hne. by destruct sep.
    + destruct (partition_at sep s) as [[b a]|] eqn:Hrec; [|done].
      injection H as <- ->. destruct (IH b eq_refl) as [-> Hnone].
      split; [done|]. intros Hne. rewrite partition_at_cons.
      * by rewrite Hnone.
      * destruct (String.prefix sep (String c b)) eqn:Hp'; [|done].
        apply (prefix_app _ _ (sep +:+ after)) in Hp'.
        rewrite str_app_cons in Hp'. congruence.
Qed.

Lemma prefix_cons (a b : ascii) (sep s : string) :
  String.prefix (String a sep) (String b s)
  = if ascii_dec a b then String.prefix sep s else false.
Proof. reflexivity. Qed.

Lemma prefix_here (sep rest : string) : String.prefix sep (sep +:+ rest) = true.
Proof.
  induction sep as [|a sep IH]; [by destruct rest|].
  rewrite str_app_cons. simpl. by destruct (ascii_dec a a).
Qed.

Lemma str_drop_app (w rest : string) :
  str_drop (String.length w) (w +:+ rest) = rest.
Proof. induction w as [|a w IH]; [done|]. by rewrite str_app_cons. Qed.

Lemma partition_at_here (sep rest : string) :
  partition_at sep (sep +:+ rest) = Some ("", rest).
Proof.
  assert (Hunfold : ∀ s, partition_at sep s
            = if String.prefix sep s
              then Some ("", str_drop (String.length sep) s)
              else match s with
                   | "" => None
                   | String c s' =>
                       match partition_at sep s' with
                       | Some (before, after) => Some (String c before, after)
                       | None => None
                       end
                   end) by (by intros []).
  by rewrite Hunfold, prefix_here, str_drop_app.
Qed.

Lemma partition_at_bar_free (w rest : string) :
  str_forall not_bar w = true →
  partition_at " | " (w +:+ " | " +:+ rest) = Some (w, rest).
Proof.
  induction w as [|c w IH].
  { intros _. rewrite str_app_empty_l. apply partition_at_here. }
  intros [Hc Hw]%andb_true_iff.
  rewrite str_app_cons, partition_at_cons; [by rewrite IH|].
  rewrite prefix_cons. destruct (ascii_dec " " c) as [<-|]; [|done].
  destruct w as [|d w]; [done|]. rewrite str_app_cons, prefix_cons.
  destruct (ascii_dec "|" d) as [<-|]; [|done].
  simpl in Hw. done.
Qed.

Lemma partition_at_no_blank (w rest : string) :
  str_forall not_blank w = true →
  partition_at " | " (w +:+ rest)
  = match partition_at " | " rest with
    | Some (before, after) => Some (w +:+ before, after)
    | None => None
    end.
Proof.
  induction w as [|c w IH].
  - intros _. rewrite str_app_empty_l. by destruct (partition_at " | " rest) as [[? ?]|].
  - intros [Hc Hw]%andb_true_iff.
    rewrite str_app_cons, partition_at_cons.
    + rewrite IH by done. by destruct (partition_at " | " rest) as [[? ?]|].
    + rewrite prefix_cons. destruct (ascii_dec " " c) as [<-|]; done.
Qed.

(** The split loses nothing: the fields joined by the separator give the
    text back.  A field that is not the last one allowed holds no
    separator. *)
Lemma str_split_join (sep : string) (n : nat) (s : string) :
  str_join sep (str_split sep n s) = s.
Proof.
  revert s. induction n as [|n IH]; intros s; [done|]. simpl.
  destruct (partition_at sep s) as [[before after]|] eqn:Hp; [|done].
  apply partition_at_Some in Hp as [-> _].
  specialize (IH after). simpl.
  destruct (str_split sep n after) as [|p parts] eqn:Hs.
  - pose proof (str_split_length sep n after) as Hlen. rewrite Hs in Hlen.
    simpl in Hlen. lia.
  - by rewrite IH.
Qed.

Lemma str_split_fields (sep : string) (n i : nat) (s p : string) :
  sep ≠ "" → str_split sep n s !! i = Some p → i < n →
  partition_at sep p = None.
Proof.
  intros Hne. revert s i. induction n as [|n IH]; intros s i Hp Hi; [lia|].
  simpl in Hp.
  destruct (partition_at sep s) as [[before after]|] eqn:Hs.
  - destruct i as [|i]; simpl in Hp.
    + injection Hp as <-. by apply partition_at_Some in Hs as [_ ?]; auto.
    + eapply IH; [exact Hp | lia].
  - destruct i as [|i]; [|done]. by injection Hp as <-.
Qed.

(** The first two fields of an entry with four fields: the timestamp, and a
    text that begins with the message type. *)
Lemma complete_entry_fields (ts ty tail : string) :
  timestamp_shape ts = true → ty ∈ message_types →
  complete (ts +:+ " | " +:+ ty +:+ " |" +:+ tail) = true →
  ∃ b, nth 0 (str_split " | " 3 (ts +:+ " | " +:+ ty +:+ " |" +:+ tail)) "" = ts
       ∧ nth 1 (str_split " | " 3 (ts +:+ " | " +:+ ty +:+ " |" +:+ tail)) ""
         = ty +:+ b
       ∧ (b = "" ∨ ∃ b', b = " |" +:+ b').
Proof.
  intros (_ & Hbar & _)%timestamp_shape_chars [Hblank _]%message_type_chars.
  unfold complete. cbn [str_split].
  rewrite partition_at_bar_free, partition_at_no_blank by done.
  destruct (partition_at " | " (" |" +:+ tail)) as [[b a]|] eqn:Hp; [|done].
  intros _. exists b. split; [done|]. split; [done|].
  apply partition_at_Some in Hp as [Hp _].
  destruct b as [|c1 [|c2 b]]; [by left | exfalso | right];
    repeat rewrite ?str_app_cons, ?str_app_empty_l in Hp;
    injection Hp; intros; subst; [done|]. by exists b.
Qed.

(** ** The log files and the entries: statements *)

(** X1: [parse_logs] reads the log files in ascending order of the number
    in their names, and files with the same number in the order in which
    [glob] lists them; no file is added or lost. *)
Theorem log_files_in_number_order (log_dir files : list (string * string)) :
  sorted_log_files log_dir = Some files →
  files ≡ₚ log_dir
  ∧ (∀ (i j : nat) (a b : string * string),
       i < j → files !! i = Some a → files !! j = Some b →
       ∃ na nb, log_number (fst a) = Some na ∧ log_number (fst b) = Some nb
                ∧ (na ≤ nb)%Z)
  ∧ ∀ n, filter (fun file => log_number (fst file) = Some n) files
         = filter (fun file => log_number (fst file) = Some n) log_dir.
Proof.
  intros Hsorted.
  destruct (sorted_by_spec _ _ _ Hsorted) as (Hperm & Horder & Hstable).
  split; [exact Hperm|]. split; [exact Horder | exact Hstable].
Qed.

Lemma log_files_in_number_order_witness :
  sorted_log_files numbered_log_dir = Some (reverse numbered_log_dir)
  ∧ reverse numbered_log_dir ≡ₚ numbered_log_dir
  ∧ log_number "data/logs/log_9.txt" = Some 9%Z
  ∧ log_number "data/logs/log_10.txt" = Some 10%Z.
Proof.
  assert (H : sorted_log_files numbered_log_dir
              = Some (reverse numbered_log_dir)) by (vm_compute; reflexivity).
  destruct (log_files_in_number_order _ _ H) as (Hperm & _ & _).
  split; [exact H|]. split; [exact Hperm|]. split; vm_compute; reflexivity.
Defined.

(** X2: when the name of one of the log files holds no digit, [parse_logs]
    raises before it reads any file: the pattern of the sort key is not
    found in the path and [.group] is called on [None]. *)
Theorem log_file_without_number_raises (log_dir : list (string * string))
    (file : string * string) :
  file ∈ log_dir → str_forall not_digit (fst file) = true →
  parse_logs_in log_dir = None.
Proof.
  intros Hin Hpath. unfold parse_logs_in, sorted_log_files.
  assert (sorted_by (fun file => log_number (fst file)) log_dir = None) as ->;
    [|done].
  apply sorted_by_None. exists file. split; [done|].
  destruct (log_number (fst file)) as [n|] eqn:Hn; [|done].
  apply log_number_has_digit in Hn. congruence.
Qed.

Lemma log_file_without_number_raises_witness :
  parse_logs_in unnumbered_log_dir = None.
Proof.
  apply (log_file_without_number_raises unnumbered_log_dir
           ("data/logs/log_a.txt", settlement_line +:+ nl)).
  - apply list_elem_of_In. simpl. tauto.
  - vm_compute. reflexivity.
Defined.

(** X3: the sort key of a path that ends in [log_], digits, one character
    that is neither a digit nor a line feed, and [txt], whatever follows, is
    the number that the digits spell, when the directory part holds no
    underscore.  The character before [txt] need not be a dot. *)
Theorem log_number_of_path (dir ds rest : string) (c : ascii) :
  str_forall not_underscore dir = true →
  ds ≠ "" → str_forall is_digit ds = true →
  is_digit c = false → not_newline c = true →
  log_number (dir +:+ "log_" +:+ ds +:+ String c ("txt" +:+ rest)) = py_int ds.
Proof.
  intros Hdir Hne Hds Hc Hnl.
  set (tail := ds +:+ String c ("txt" +:+ rest)).
  unfold log_number, search.
  destruct (search_from_skip log_number_pattern dir ("log_" +:+ tail) None 0)
    as [prev' ->].
  { intros u v prev' pos' -> Hv.
    destruct (match_at _ _ _ _) as [m|] eqn:Hm; [|done]. exfalso.
    apply match_at_sound in Hm as (s' & Hm & _).
    apply log_number_pattern_sound in Hm as (ds' & c' & r' & Hrest & _).
    simpl in Hrest. rewrite str_forall_app in Hdir.
    apply andb_true_iff in Hdir as [_ Hv'].
    by eapply underscore_free_prefix. }
  destruct (log_number_pattern_complete ds rest c prev'
              (0 + String.length dir) Hne Hds Hnl) as [s' Hm].
  destruct (run_complete _ _ _ Some s' Hm eq_refl) as [y Hy].
  fold tail in Hy.
  assert (Hat : match_at log_number_pattern prev' (0 + String.length dir)
                  ("log_" +:+ tail)
                = Some (ReMatch (0 + String.length dir) (m_pos y) (m_groups y))).
  { unfold match_at. by rewrite Hy. }
  rewrite (search_from_here _ _ _ _ _ Hat).
  apply match_at_sound in Hat as (s'' & Hm' & Heq).
  apply log_number_pattern_sound in Hm' as (ds' & c' & r' & Hrest & _ & Hds' & _ & Hg).
  simpl in Hrest. injection Heq as _ Heq. simpl. rewrite Heq, Hg. simpl.
  subst tail. repeat rewrite ?str_app_cons, ?str_app_empty_l in Hrest.
  injection Hrest as Hrest.
  by rewrite <- (digits_then_txt_unique _ _ _ _ _ _ Hds Hds' Hc Hrest).
Qed.

Lemma log_number_of_path_witness :
  log_number "data/logs/log_12.txt" = Some 12%Z
  ∧ log_number "data/logs/log_12_txt.bak" = Some 12%Z.
Proof.
  split.
  - apply (log_number_of_path "data/logs/" "12" "" "."); done.
  - apply (log_number_of_path "data/logs/" "12" ".bak" "_"); done.
Defined.

(** X4: every entry that [parse_logs] reconstructs is one line that begins
    with what the boundary pattern matched: a timestamp of the shape
    [YYYY-MM-DD HH:MM:SS], [ | ], one of the four message types and [ |];
    no entry holds a line feed. *)
Theorem entries_begin_with_boundary (full_text e : string) :
  e ∈ split_entries full_text →
  ∃ ts ty tail,
    e = ts +:+ " | " +:+ ty +:+ " |" +:+ tail
    ∧ timestamp_shape ts = true ∧ ty ∈ message_types
    ∧ str_forall not_newline e = true.
Proof.
  intros (ts & ty & tail & -> & Hts & Hty & Htail)%split_entries_shape.
  exists ts, ty, tail. split; [done|]. split; [done|]. split; [done|].
  destruct (timestamp_shape_chars ts Hts) as (_ & _ & Hnl & _).
  destruct (message_type_chars ty Hty) as [_ Hnl'].
  rewrite !str_forall_app, Hnl, Hnl', Htail. done.
Qed.

Lemma entries_begin_with_boundary_witness :
  order_line ∈ split_entries (merge_files scenario_logs)
  ∧ ∃ ts ty tail,
      order_line = ts +:+ " | " +:+ ty +:+ " |" +:+ tail
      ∧ timestamp_shape ts = true ∧ ty ∈ message_types
      ∧ str_forall not_newline order_line = true.
Proof.
  assert (H : order_line ∈ split_entries (merge_files scenario_logs)).
  { apply list_elem_of_In. vm_compute. tauto. }
  split; [exact H|]. exact (entries_begin_with_boundary _ _ H).
Defined.



Lemma filter_complement_length {A} (f : A → bool) (l : list A) :
  length (filter (fun a => f a = true) l)
  + length (filter (fun a => f a = false) l) = length l.
Proof.
  induction l as [|a l IH]; [done|]. rewrite !filter_cons.
  destruct (f a) eqn:Hf; simpl; repeat case_decide; try done; simpl; lia.
Qed.

(** X6: every match of the boundary pattern in the merged text gives one
    row of the frame or one warning, never both and never neither. *)
Theorem every_entry_is_row_or_warning (log_files : list string) :
  length (df (parse_logs log_files))
  + length (log_warnings (parse_logs log_files))
  = length (finditer entry_start_pattern (merged_logs (parse_logs log_files))).
Proof.
  rewrite parse_logs_df, parse_logs_warnings, !length_fmap.
  rewrite filter_complement_length, split_entries_length.
  unfold parse_logs. by destruct (parse_entries _).
Qed.

(** X7: the split of an entry loses no character: its fields, joined by
    [ | ], give the entry back; and no field but the fourth holds the
    separator, so that the fourth field keeps the separators that follow
    the third. *)
Theorem split_loses_nothing (entry : string) :
  str_join " | " (str_split " | " 3 entry) = entry
  ∧ ∀ (i : nat) (p : string),
      str_split " | " 3 entry !! i = Some p → i < 3 →
      partition_at " | " p = None.
Proof.
  split; [apply str_split_join|].
  intros i p Hp Hi. by eapply str_split_fields.
Qed.

(** ** extract_transactions: exceptions and the entries that count *)

Lemma mapR_Raise {A B} (f : A → result B) (l : list A) (x : exn) :
  mapR f l = Raise x → ∃ a, a ∈ l ∧ f a = Raise x.
Proof.
  induction l as [|a l IH]; [done|]. simpl.
  destruct (f a) as [b|y] eqn:Ha; simpl.
  - destruct (mapR f l) as [bs|y]; [done|]. intros [= ->].
    destruct IH as (a' & ? & ?); [done|]. exists a'. split; [by right|done].
  - intros [= ->]. exists a. split; [left|done].
Qed.


Lemma oversized_quantity_raises_example :
  extract_transactions (scenario_entries ++ [oversized_order])
  = Raise OverflowError.
Proof. vm_compute. reflexivity. Qed.

Lemma omap_order_row_filter (l : list LogEntry) :
  omap order_row
    (filter (fun e => message_type e = "ORDER"
                      ∧ is_Some (extract_order (details e))) l)
  = omap order_row (filter (fun e => message_type e = "ORDER") l).
Proof.
  induction l as [|e l IH]; [done|]. rewrite !filter_cons.
  destruct (decide (message_type e = "ORDER")) as [Htype|Htype].
  - destruct (extract_order (details e)) as [x|] eqn:Hx.
    + rewrite decide_True by (split; [done|by eexists]).
      rewrite !omap_cons. by rewrite IH.
    + rewrite decide_False by (by intros [_ [? ?]]).
      rewrite omap_cons. unfold order_row at 2. by rewrite Hx.
  - rewrite decide_False by (by intros [? _]). done.
Qed.

(** X9: [extract_transactions] looks at the ORDER entries whose details
    match the order pattern and at the TRANSACTION entries, and at nothing
    else: the entries of the other types and the orders that do not match
    can be removed from the frame without changing what it returns. *)
Theorem other_entries_are_ignored (logs : list LogEntry) :
  extract_transactions
    (filter (fun e => (message_type e = "ORDER"
                       ∧ is_Some (extract_order (details e)))
                      ∨ message_type e = "TRANSACTION") logs)
  = extract_transactions logs.
Proof.
  set (R := fun e => (message_type e = "ORDER"
                      ∧ is_Some (extract_order (details e)))
                     ∨ message_type e = "TRANSACTION").
  assert (H1 : filter (fun e => message_type e = "ORDER") (filter R logs)
               = filter (fun e => message_type e = "ORDER"
                                  ∧ is_Some (extract_order (details e))) logs).
  { rewrite list_filter_filter. apply list_filter_iff. intros e. unfold R.
    split; [|tauto]. intros [Htype [[_ ?]|Ht]]; [done|].
    rewrite Ht in Htype. done. }
  assert (H2 : filter (fun e => message_type e = "TRANSACTION") (filter R logs)
               = filter (fun e => message_type e = "TRANSACTION") logs).
  { rewrite list_filter_filter. apply list_filter_iff. intros e. unfold R.
    tauto. }
  unfold extract_transactions, extract_orders, extract_settlements.
  by rewrite H1, H2, omap_order_row_filter.
Qed.

(** ** The readers and the enrichment: when the run succeeds *)

Lemma rename_label_cons (k v : string) (mapping : list (string * string))
    (l : string) :
  rename_label ((k, v) :: mapping) l
  = if String.eqb k l then v else rename_label mapping l.
Proof.
  unfold rename_label. cbn [find fst]. by destruct (String.eqb k l).
Qed.

Lemma rename_label_nil (l : string) : rename_label [] l = l.
Proof. reflexivity. Qed.

Lemma rename_label_sku (l : string) :
  rename_label sku_renames (rename_label [("code", "sku")] l) = "sku"
  ↔ l = "code" ∨ l = "sku".
Proof.
  rewrite (rename_label_cons "code"), rename_label_nil.
  destruct (String.eqb_spec "code" l) as [<-|Hcode].
  { split; [by left|]. intros _. reflexivity. }
  unfold sku_renames. rewrite !rename_label_cons, rename_label_nil.
  repeat match goal with
         | |- context [String.eqb ?k l] =>
             destruct (String.eqb_spec k l) as [<-|?];
             [split; [discriminate | by intros [|]]|]
         end.
  split; [by right | by intros [|]].
Qed.

Lemma rename_label_id (l : string) :
  rename_label sku_renames (rename_label [("code", "sku")] l) = "id"
  ↔ l = "id".
Proof.
  rewrite (rename_label_cons "code"), rename_label_nil.
  destruct (String.eqb_spec "code" l) as [<-|Hcode].
  { split; discriminate. }
  unfold sku_renames. rewrite !rename_label_cons, rename_label_nil.
  repeat match goal with
         | |- context [String.eqb ?k l] =>
             destruct (String.eqb_spec k l) as [<-|?];
             [split; discriminate|]
         end.
  done.
Qed.

Lemma read_skus_columns (table : DataFrame (list cell)) (sku_df : DataFrame (list cell)) :
  read_skus (Normalized table) = Ok sku_df →
  ("sku" ∈ columns sku_df ↔ "code" ∈ columns table ∨ "sku" ∈ columns table)
  ∧ ("id" ∈ columns sku_df ↔ "id" ∈ columns table)
  ∧ rows sku_df = rows table.
Proof.
  intros [= <-]. unfold rename; simpl. rewrite <- list_fmap_compose.
  split; [|split; [|done]].
  - rewrite list_elem_of_fmap. split.
    + intros (l & Hl & Hin). symmetry in Hl. apply rename_label_sku in Hl as [->| ->]; auto.
    + intros [H|H]; [exists "code" | exists "sku"]; split; try done;
        symmetry; apply rename_label_sku; auto.
  - rewrite list_elem_of_fmap. split.
    + intros (l & Hl & Hin). symmetry in Hl. by apply rename_label_id in Hl as ->.
    + intros H. exists "id". split; [|done]. symmetry. by apply rename_label_id.
Qed.

Lemma concat_files_Some {A} (files : list (option (list A))) (l : list A) :
  concat_files files = Some l →
  (∀ f, f ∈ files → ∃ x, f = Some x ∧ ∀ a, a ∈ x → a ∈ l).
Proof.
  revert l. induction files as [|[x|] files IH]; intros l H f Hf; simpl in H.
  - by apply elem_of_nil in Hf.
  - destruct (concat_files files) as [l'|] eqn:Hrec; [|done].
    injection H as <-. apply elem_of_cons in Hf as [->|Hf].
    + exists x. split; [done|]. intros a Ha. apply elem_of_app. by left.
    + destruct (IH l' eq_refl f Hf) as (y & -> & Hy). exists y.
      split; [done|]. intros a Ha. apply elem_of_app. right. by apply Hy.
  - done.
Qed.

Lemma concat_files_total {A} (files : list (option (list A))) :
  (∀ f, f ∈ files → is_Some f) →
  ∃ l, concat_files files = Some l
       ∧ ∀ a, a ∈ l → ∃ x, Some x ∈ files ∧ a ∈ x.
Proof.
  induction files as [|f files IH]; intros Hall.
  - exists []. split; [done|]. by intros a ?%elem_of_nil.
  - destruct (Hall f) as [x ->]; [left|].
    destruct IH as (l & Hl & Hin). { intros g Hg. apply Hall. by right. }
    exists (x ++ l). simpl. rewrite Hl. split; [done|].
    intros a [Ha|Ha]%elem_of_app.
    + exists x. split; [left | done].
    + destruct (Hin a Ha) as (y & ? & ?). exists y. split; [by right | done].
Qed.


Lemma non_null_keys_Raise {A} (key : A → option Z) (side : string)
    (l : list A) (a : A) :
  a ∈ l → key a = None →
  non_null_keys key side l
  = Raise (ValueError ("Merge keys contain null values on " +:+ side +:+ " side")).
Proof.
  intros Ha Hk. unfold non_null_keys. induction l as [|b l IH].
  - by apply elem_of_nil in Ha.
  - simpl. destruct (key b) as [t|] eqn:Hb; simpl.
    + apply elem_of_cons in Ha as [->|Ha]; [congruence|].
      by rewrite IH.
    + done.
Qed.

Lemma non_null_keys_Ok_all {A} (key : A → option Z) (side : string)
    (l : list A) (keyed : list (Z * A)) :
  non_null_keys key side l = Ok keyed → ∀ a, a ∈ l → is_Some (key a).
Proof.
  intros H a Ha. destruct (key a) as [t|] eqn:Hk; [by eexists|].
  by rewrite (non_null_keys_Raise key side l a Ha Hk) in H.
Qed.

Lemma catalog_rows_nonempty sku_df t : ∃ j, j ∈ catalog_rows sku_df t.
Proof.
  unfold catalog_rows. destruct (filter _ _) as [|r hits].
  - eexists. left.
  - eexists. rewrite fmap_cons. left.
Qed.

Lemma read_market_prices_cases (price_files : list (option (list Quote))) :
  (read_market_prices price_files = empty_frame
   ∧ (price_files = [] ∨ None ∈ price_files))
  ∨ (∃ market_data,
       price_files ≠ [] ∧ concat_files price_files = Some market_data
       ∧ read_market_prices price_files
         = Frame ["quote_id"; "timestamp"; "price_usd"; "sku"]
             (map (fun q => {| quote := q;
                               market_sku := extract_sku (quote_id q) |})
                market_data)).
Proof.
  destruct price_files as [|f files]; [left; split; [done|by left]|].
  destruct (concat_files (f :: files)) as [market_data|] eqn:Hc.
  - right. exists market_data. split; [done|]. split; [done|].
    unfold read_market_prices. by rewrite Hc.
  - left. split; [by apply read_market_prices_failure|]. right.
    clear -Hc. revert Hc. generalize (f :: files).
    induction l as [|[x|] l IH]; simpl; [done| |by left].
    destruct (concat_files l); [done|]. intros _. right. by apply IH.
Qed.

Section EnrichmentRuns.

Variable quicksort : ∀ A : Type, (A → A → bool) → list A → list A.
Hypothesis quicksort_sorts : sorts quicksort.

(** [enrich_transactions] once the labels of the merge and of the sorts are
    found. *)
Lemma enrich_transactions_unfold transactions sku_df prices :
  "sku" ∈ columns sku_df →
  "sku" ∈ columns prices → "timestamp" ∈ columns prices →
  "price_usd" ∈ columns prices →
  enrich_transactions quicksort transactions sku_df prices
  = (priced ← merge_asof
       (quicksort _ by_timestamp
          (lexsort by_sku_timestamp (transactions ≫= catalog_rows sku_df)))
       (quicksort _ by_price_time
          (price_point <$> lexsort by_sku_price_time (rows prices)));
     _ ← require_columns dropped_columns
           (transaction_columns ++ filter (fun c => c ≠ "sku") (columns sku_df)
            ++ ["price_time"; "market_price"] ++ assigned_columns);
     Ok (derive <$> lexsort by_trace_id_price_time priced)).
Proof.
  intros Hsku Hpsku Hptime Hpprice.
  unfold enrich_transactions, merge_skus. cbv zeta.
  rewrite (proj2 (require_columns_Ok ["sku"] _)) by (by repeat constructor).
  rewrite !bind_of_Ok.
  set (mapping := [("sku", "sku"); ("timestamp", "price_time");
                   ("price_usd", "market_price")]).
  assert (Hp1 : "sku" ∈ columns (rename mapping prices)).
  { apply list_elem_of_fmap. by exists "sku". }
  assert (Hp2 : "price_time" ∈ columns (rename mapping prices)).
  { apply list_elem_of_fmap. by exists "timestamp". }
  assert (Hp3 : "market_price" ∈ columns (rename mapping prices)).
  { apply list_elem_of_fmap. by exists "price_usd". }
  rewrite (proj2 (require_columns_Ok ["sku"; "price_time"] _))
    by (by repeat constructor).
  rewrite bind_of_Ok.
  rewrite (proj2 (require_columns_Ok ["sku"; "price_time"; "market_price"] _))
    by (by repeat constructor).
  rewrite bind_of_Ok. reflexivity.
Qed.

(** What a run of [enrich_transactions] that returns has found. *)
Lemma enrich_transactions_Ok_inv transactions sku_df prices out :
  enrich_transactions quicksort transactions sku_df prices = Ok out →
  "sku" ∈ columns sku_df ∧ "id" ∈ columns sku_df
  ∧ columns prices ≠ []
  ∧ (∀ t, t ∈ transactions → is_Some (tx_timestamp t))
  ∧ (∀ p, p ∈ rows prices → is_Some (quote_time (quote p))).
Proof using quicksort_sorts.
  unfold enrich_transactions. intros H.
  apply bind_Ok in H as (joined_rows & Hjoin & H).
  apply bind_Ok in H as ([] & Hc1 & H). apply bind_Ok in H as ([] & _ & H).
  apply bind_Ok in H as (priced & Hasof & H).
  apply bind_Ok in H as ([] & Hdrop & _).
  pose proof (merge_skus_Ok _ _ _ Hjoin) as [Hsku _].
  unfold merge_skus in Hjoin. apply bind_Ok in Hjoin as ([] & _ & Hjoin).
  injection Hjoin as <-.
  split; [done|]. split; [|split; [|split]].
  - apply require_columns_Ok in Hdrop.
    apply Forall_cons in Hdrop as [_ Hdrop].
    apply Forall_cons in Hdrop as [Hid _].
    rewrite !elem_of_app in Hid. destruct Hid as [Hid|[Hid|[Hid|Hid]]].
    + apply list_elem_of_In in Hid. simpl in Hid.
      repeat destruct Hid as [Hid|Hid]; done.
    + by apply list_elem_of_filter in Hid as [_ ?].
    + apply list_elem_of_In in Hid. simpl in Hid.
      repeat destruct Hid as [Hid|Hid]; done.
    + apply list_elem_of_In in Hid. simpl in Hid.
      repeat destruct Hid as [Hid|Hid]; done.
  - apply require_columns_Ok, Forall_cons in Hc1 as [Hc1 _].
    simpl in Hc1. intros Hnil. rewrite Hnil in Hc1. by apply elem_of_nil in Hc1.
  - unfold merge_asof in Hasof.
    apply bind_Ok in Hasof as (lk & Hlk & _).
    intros t Ht. destruct (catalog_rows_nonempty sku_df t) as [j Hj].
    assert (Hin : j ∈ transactions ≫= catalog_rows sku_df).
    { apply list_elem_of_bind. eauto. }
    rewrite <- (catalog_rows_tx _ _ _ Hj).
    apply (non_null_keys_Ok_all _ _ _ _ Hlk).
    by rewrite (proj1 (quicksort_sorts _ _ _)), lexsort_perm.
  - unfold merge_asof in Hasof.
    apply bind_Ok in Hasof as (lk & _ & Hasof).
    apply bind_Ok in Hasof as (rk & Hrk & _).
    intros p Hp.
    apply (non_null_keys_Ok_all _ _ _ _ Hrk (price_point p)).
    rewrite (proj1 (quicksort_sorts _ _ _)). apply list_elem_of_fmap_2.
    simpl. by rewrite lexsort_perm.
Qed.

End EnrichmentRuns.

Lemma prices_usable_frame (price_files : list (option (list Quote))) :
  price_files ≠ [] → (∀ f, f ∈ price_files → is_Some f) →
  ∃ market_data,
    read_market_prices price_files
    = Frame ["quote_id"; "timestamp"; "price_usd"; "sku"]
        (map (fun q => {| quote := q; market_sku := extract_sku (quote_id q) |})
           market_data)
    ∧ ∀ q, q ∈ market_data → ∃ x, Some x ∈ price_files ∧ q ∈ x.
Proof.
  intros Hne Hall.
  destruct (concat_files_total price_files Hall) as (market_data & Hc & Hin).
  exists market_data. split; [|done].
  destruct (read_market_prices_cases price_files)
    as [[_ [->|Hnone]]|(md & _ & Hc' & ->)]; [done| |congruence].
  by destruct (Hall None Hnone).
Qed.

Lemma catalog_usable_frame (sku_file : sku_source) :
  catalog_usable sku_file →
  ∃ sku_df, read_skus sku_file = Ok sku_df
            ∧ "sku" ∈ columns sku_df ∧ "id" ∈ columns sku_df.
Proof.
  intros (table & -> & Hsku & Hid). eexists. split; [reflexivity|].
  destruct (read_skus_columns table _ eq_refl) as (H1 & H2 & _).
  split; [by apply H1 | by apply H2].
Qed.

Section Runs.

Variable quicksort : ∀ A : Type, (A → A → bool) → list A → list A.
Hypothesis quicksort_sorts : sorts quicksort.




End Runs.


Lemma scenario_prices_usable : prices_usable [Some scenario_quotes].
Proof.
  split; [done|]. intros f ->%list_elem_of_singleton.
  eexists. split; [reflexivity|].
  intros q Hq. apply list_elem_of_In in Hq. simpl in Hq.
  destruct Hq as [<-|[<-|[]]]; vm_compute; eauto.
Defined.

Lemma scenario_orders_usable : orders_usable scenario_logs.
Proof.
  eexists. split; [vm_compute; reflexivity|].
  intros t ->%list_elem_of_singleton. vm_compute. eauto.
Defined.

Lemma scenario_catalog_usable : catalog_usable scenario_catalog.
Proof.
  eexists. split; [reflexivity|]. split.
  - left. apply list_elem_of_In. simpl. tauto.
  - apply list_elem_of_In. simpl. tauto.
Defined.



(** ** enrich_transactions: the catalog cells and the rows *)

Lemma catalog_rows_cells sku_df t j :
  j ∈ catalog_rows sku_df t →
  tx j = t
  ∧ ((∃ row, row ∈ rows sku_df
             ∧ cell_at "sku" (columns sku_df) row = Some (tx_sku t)
             ∧ catalog j = other_cells "sku" (columns sku_df) row)
     ∨ ((∀ row, row ∈ rows sku_df →
               cell_at "sku" (columns sku_df) row ≠ Some (tx_sku t))
        ∧ catalog j = other_cells "sku" (columns sku_df) [])).
Proof.
  intros Hj. split; [by eapply catalog_rows_tx|].
  unfold catalog_rows in Hj.
  destruct (filter _ (rows sku_df)) as [|r hits] eqn:Hf.
  - apply list_elem_of_singleton in Hj as ->. right. split; [|done].
    intros row Hrow Hcell.
    assert (Hin : row ∈ filter (fun r => cell_at "sku" (columns sku_df) r
                                         = Some (tx_sku t)) (rows sku_df))
      by (by apply list_elem_of_filter).
    rewrite Hf in Hin. by apply elem_of_nil in Hin.
  - apply list_elem_of_fmap in Hj as (row & -> & Hrow). left.
    rewrite <- Hf in Hrow. apply list_elem_of_filter in Hrow as [Hcell Hrow].
    by exists row.
Qed.

Lemma other_cells_labels (key : string) (cols : list string) (r : list cell) :
  fst <$> other_cells key cols r = filter (fun c => c ≠ key) cols.
Proof.
  revert r. induction cols as [|c cols IH]; intros r; [done|].
  cbn [other_cells]. rewrite filter_cons.
  destruct (String.eqb_spec c key) as [->|Hne].
  - rewrite decide_False by (by intros ?). apply IH.
  - rewrite decide_True by done. rewrite fmap_cons. simpl. by rewrite IH.
Qed.

Lemma filter_fmap_fst {A B} (P : A → Prop) (Q : A * B → Prop)
    `{!∀ a, Decision (P a)} `{!∀ x, Decision (Q x)} (l : list (A * B)) :
  (∀ x, Q x ↔ P (fst x)) →
  fst <$> filter Q l = filter P (fst <$> l).
Proof.
  intros HPQ. induction l as [|x l IH]; [done|].
  rewrite fmap_cons, !filter_cons. pose proof (HPQ x).
  destruct (decide (Q x)), (decide (P (fst x))); try tauto;
    rewrite ?fmap_cons; by rewrite IH.
Qed.

Lemma catalog_rows_copies sku_df t :
  tx <$> catalog_rows sku_df t = replicate (copies sku_df t) t.
Proof.
  unfold catalog_rows, copies.
  destruct (filter _ (rows sku_df)) as [|r hits]; [done|].
  rewrite <- list_fmap_compose.
  replace (length (r :: hits) `max` 1) with (length (r :: hits))
    by (simpl; lia).
  generalize (r :: hits). intros l. induction l as [|x l IH]; [done|].
  rewrite fmap_cons. simpl. f_equal. exact IH.
Qed.

Lemma fmap_bind_list {A B C} (f : B → C) (g : A → list B) (l : list A) :
  f <$> (l ≫= g) = l ≫= (fun a => f <$> g a).
Proof.
  induction l as [|a l IH]; [done|]. by rewrite !bind_cons, fmap_app, IH.
Qed.

Lemma bind_ext_list {A B} (g h : A → list B) (l : list A) :
  (∀ a, a ∈ l → g a = h a) → l ≫= g = l ≫= h.
Proof.
  induction l as [|a l IH]; intros H; [done|]. rewrite !bind_cons.
  rewrite (H a) by left. rewrite IH; [done|]. intros b Hb. apply H. by right.
Qed.

Lemma bind_singleton_list {A B} (f : A → B) (l : list A) :
  l ≫= (fun a => [f a]) = f <$> l.
Proof. induction l as [|a l IH]; [done|]. by rewrite bind_cons, IH. Qed.

Lemma asof_match_unique t k points u v u' v' :
  (∀ p p', p ∈ points → p' ∈ points → pp_sku p = pp_sku p' →
           pp_time p = pp_time p' → pp_price p = pp_price p') →
  asof_match t k points u v → asof_match t k points u' v' →
  u = u' ∧ v = v'.
Proof.
  intros Hone. unfold asof_match.
  destruct u as [u|], u' as [u'|].
  - intros [(p & Hp & Hsku & Htime & Hprice) [Hu Hmax]]
           [(p' & Hp' & Hsku' & Htime' & Hprice') [Hu' Hmax']].
    assert (u = u') as ->.
    { pose proof (Hmax p' u' Hp' Hsku' Htime' Hu').
      pose proof (Hmax' p u Hp Hsku Htime Hu). lia. }
    split; [done|]. rewrite <- Hprice, <- Hprice'.
    apply Hone; congruence.
  - intros [(p & Hp & Hsku & Htime & _) [Hu _]] [_ Hnone].
    by destruct (Hnone p u Hp Hsku Htime).
  - intros [_ Hnone] [(p & Hp & Hsku & Htime & _) [Hu _]].
    by destruct (Hnone p u' Hp Hsku Htime).
  - intros [-> _] [-> _]. done.
Qed.

Lemma Permutation_by_key {A B} (key : A → B) (l1 l2 : list A) :
  key <$> l1 ≡ₚ key <$> l2 →
  (∀ a b, a ∈ l1 → b ∈ l2 → key a = key b → a = b) →
  l1 ≡ₚ l2.
Proof.
  revert l2. induction l1 as [|a l1 IH]; intros l2 Hperm Hkey.
  - apply Permutation_nil_l in Hperm. by destruct l2.
  - assert (Hin : key a ∈ key <$> l2) by (rewrite <- Hperm; left).
    apply list_elem_of_fmap in Hin as (b & Hb & Hin).
    assert (a = b) as <- by (apply Hkey; [left | done | done]).
    apply elem_of_Permutation in Hin as [l2' Hl2].
    rewrite Hl2. apply Permutation_skip. apply IH.
    + rewrite Hl2, !fmap_cons in Hperm. by apply Permutation_cons_inv in Hperm.
    + intros x y Hx Hy. apply Hkey; [by right|]. rewrite Hl2. by right.
Qed.

Section EnrichedCatalog.

Variable quicksort : ∀ A : Type, (A → A → bool) → list A → list A.
Hypothesis quicksort_sorts : sorts quicksort.


(** X14: the enrichment alters no transaction: the timestamps, message
    types, correlation ids, actions, skus and quantities of the rows it
    returns are those of the transactions, each transaction taken once for
    each catalog row with its sku, and once when there is none.  With a
    catalog in which no code appears twice, the result has one row for each
    transaction. *)
Theorem transactions_are_kept transactions sku_df prices out :
  enrich_transactions quicksort transactions sku_df prices = Ok out →
  row_fields <$> out
    ≡ₚ transactions ≫= (fun t => replicate (copies sku_df t) (tx_fields t))
  ∧ ((∀ t, t ∈ transactions → copies sku_df t = 1) →
     row_fields <$> out ≡ₚ tx_fields <$> transactions
     ∧ length out = length transactions).
Proof using quicksort_sorts.
  intros H.
  apply (enrich_transactions_Ok _ quicksort_sorts) in H
    as (joined_rows & priced & Hjoin & Hperm & _ & _ & ->).
  unfold merge_skus in Hjoin. apply bind_Ok in Hjoin as ([] & _ & Hjoin).
  injection Hjoin as <-.
  assert (Hfields : row_fields <$> (derive <$> priced)
            ≡ₚ transactions ≫= (fun t => replicate (copies sku_df t) (tx_fields t))).
  { rewrite <- list_fmap_compose.
    change (row_fields ∘ derive) with (tx_fields ∘ tx ∘ joined).
    rewrite !list_fmap_compose, Hperm, !fmap_bind_list.
    erewrite bind_ext_list; [reflexivity|]. intros t _. simpl.
    by rewrite catalog_rows_copies, fmap_replicate. }
  split; [exact Hfields|]. intros Hone.
  assert (Hsame : row_fields <$> (derive <$> priced) ≡ₚ tx_fields <$> transactions).
  { rewrite Hfields, <- bind_singleton_list.
    erewrite bind_ext_list; [reflexivity|]. intros t Ht. simpl.
    by rewrite (Hone t Ht). }
  split; [exact Hsame|].
  apply Permutation_length in Hsame. rewrite !length_fmap in Hsame.
  by rewrite length_fmap.
Qed.

End EnrichedCatalog.

(** X15: what [enrich_transactions] returns does not depend on how the
    sorts on one key order the rows with equal keys, as long as no two
    price rows of a sku and a time differ in price: with any two sorts, one
    run returns when the other does, and the two results hold the same
    rows. *)
Theorem result_independent_of_tie_breaking
    (sort1 sort2 : ∀ A : Type, (A → A → bool) → list A → list A)
    transactions sku_df prices out1 :
  sorts sort1 → sorts sort2 →
  one_price_per_time (rows prices) →
  enrich_transactions sort1 transactions sku_df prices = Ok out1 →
  ∃ out2, enrich_transactions sort2 transactions sku_df prices = Ok out2
          ∧ out1 ≡ₚ out2.
Proof.
  intros Hs1 Hs2 Hone H1.
  pose proof (enrich_transactions_Ok_inv _ Hs1 _ _ _ _ H1)
    as (Hsku & Hid & Hcols & Htimes & Hquotes).
  assert (∃ out2, enrich_transactions sort2 transactions sku_df prices = Ok out2)
    as [out2 H2].
  { clear Hone. unfold enrich_transactions in H1 |- *. cbv zeta in H1 |- *.
    apply bind_Ok in H1 as (joined_rows & Hjoin & H1).
    rewrite Hjoin, bind_of_Ok.
    apply bind_Ok in H1 as ([] & Hc1 & H1). rewrite Hc1, bind_of_Ok.
    apply bind_Ok in H1 as ([] & Hc2 & H1). rewrite Hc2, bind_of_Ok.
    apply bind_Ok in H1 as (priced & _ & H1).
    apply bind_Ok in H1 as ([] & Hc3 & _).
    unfold merge_skus in Hjoin. apply bind_Ok in Hjoin as ([] & _ & Hjoin).
    injection Hjoin as <-. cbn [rows rename].
    destruct (merge_asof_total
      (sort2 _ by_timestamp (lexsort by_sku_timestamp
         (transactions ≫= catalog_rows sku_df)))
      (sort2 _ by_price_time
         (price_point <$> lexsort by_sku_price_time (rows prices))))
      as [priced2 ->].
    - apply Forall_forall. intros j Hj.
      rewrite (proj1 (Hs2 _ _ _)), lexsort_perm in Hj.
      apply list_elem_of_bind in Hj as (t & Hj & Ht).
      apply catalog_rows_tx in Hj as ->. by apply Htimes.
    - apply Forall_forall. intros p Hp.
      rewrite (proj1 (Hs2 _ _ _)) in Hp.
      apply list_elem_of_fmap in Hp as (m & -> & Hm).
      rewrite lexsort_perm in Hm. by apply Hquotes.
    - rewrite bind_of_Ok, Hc3, bind_of_Ok. eauto. }
  exists out2. split; [done|].
  apply (enrich_transactions_Ok _ Hs1) in H1
    as (joined1 & priced1 & Hjoin1 & Hperm1 & Hmatch1 & _ & ->).
  apply (enrich_transactions_Ok _ Hs2) in H2
    as (joined2 & priced2 & Hjoin2 & Hperm2 & Hmatch2 & _ & ->).
  assert (joined2 = joined1) as -> by congruence.
  apply fmap_Permutation.
  apply (Permutation_by_key joined); [by rewrite Hperm1, Hperm2|].
  intros a b Ha Hb Hab.
  destruct (Hmatch1 a Ha) as (t & Ht & Hm).
  destruct (Hmatch2 b Hb) as (t' & Ht' & Hm').
  rewrite <- Hab in Ht', Hm'. assert (t' = t) as -> by congruence.
  assert (Hone' : ∀ p p', p ∈ price_point <$> rows prices →
            p' ∈ price_point <$> rows prices → pp_sku p = pp_sku p' →
            pp_time p = pp_time p' → pp_price p = pp_price p').
  { intros p p' (m & -> & Hmr)%list_elem_of_fmap (m' & -> & Hmr')%list_elem_of_fmap.
    simpl. by apply Hone. }
  destruct (asof_match_unique _ _ _ _ _ _ _ Hone' Hm Hm') as [Hu Hv].
  destruct a, b; simpl in *; congruence.
Qed.


Lemma transactions_are_kept_witness :
  enrich_transactions stable_sort scenario_transactions doubled_catalog
    scenario_prices = Ok doubled_rows
  ∧ length doubled_rows = 2
  ∧ row_fields <$> doubled_rows
    ≡ₚ scenario_transactions
         ≫= (fun t => replicate (copies doubled_catalog t) (tx_fields t)).
Proof.
  assert (H : enrich_transactions stable_sort scenario_transactions
                doubled_catalog scenario_prices = Ok doubled_rows)
    by (vm_compute; reflexivity).
  destruct (transactions_are_kept stable_sort stable_sort_sorts _ _ _ _ H)
    as [Hperm _].
  split; [exact H|]. split; [reflexivity | exact Hperm].
Defined.

Lemma reverse_sort_sorts : sorts reverse_sort.
Proof.
  intros A le l. unfold reverse_sort. split.
  - by rewrite lexsort_perm, reverse_Permutation.
  - apply lexsort_sorted.
Qed.

Lemma scenario_one_price_per_time : one_price_per_time (rows scenario_prices).
Proof.
  intros p p' Hp Hp' _ Htime.
  apply list_elem_of_In in Hp, Hp'. simpl in Hp, Hp'.
  destruct Hp as [<-|[<-|[]]], Hp' as [<-|[<-|[]]]; try done;
    vm_compute in Htime; discriminate.
Qed.

Lemma result_independent_of_tie_breaking_witness :
  enrich_transactions stable_sort two_order_transactions scenario_sku_df
    scenario_prices = Ok two_order_rows
  ∧ ∃ out2,
      enrich_transactions reverse_sort two_order_transactions scenario_sku_df
        scenario_prices = Ok out2
      ∧ two_order_rows ≡ₚ out2.
Proof.
  assert (H : enrich_transactions stable_sort two_order_transactions
                scenario_sku_df scenario_prices = Ok two_order_rows)
    by (vm_compute; reflexivity).
  split; [exact H|].
  exact (result_independent_of_tie_breaking stable_sort reverse_sort _ _ _ _
           stable_sort_sorts reverse_sort_sorts scenario_one_price_per_time H).
Defined.

(** ** The script: the date of a row *)

Lemma py_int_four (a b c d : ascii) :
  is_digit a = true → is_digit b = true → is_digit c = true →
  is_digit d = true →
  py_int (String a (String b (String c (String d ""))))
  = Some (1000 * digit_value a + 100 * digit_value b + 10 * digit_value c
          + digit_value d)%Z.
Proof.
  intros Ha Hb Hc Hd. unfold py_int. cbn [int_digits].
  rewrite Ha, Hb, Hc, Hd. f_equal; lia.
Qed.

Lemma py_int_two (a b : ascii) :
  is_digit a = true → is_digit b = true →
  py_int (String a (String b "")) = Some (10 * digit_value a + digit_value b)%Z.
Proof.
  intros Ha Hb. unfold py_int. cbn [int_digits]. rewrite Ha, Hb. f_equal; lia.
Qed.

Section RowDates.

Variable quicksort : ∀ A : Type, (A → A → bool) → list A → list A.
Hypothesis quicksort_sorts : sorts quicksort.


End RowDates.


(** ** The analyses: grouping, sorting, first rows *)

Lemma group_keys_elem_of {A K} `{EqDecision K} (key : A → option K)
    (l : list A) (k : K) :
  k ∈ group_keys key l ↔ ∃ a, a ∈ l ∧ key a = Some k.
Proof.
  unfold group_keys. rewrite elem_of_remove_dups, list_elem_of_omap.
  done.
Qed.

Lemma groupby_elem_of {A K V W} `{EqDecision K} (le : K → K → bool)
    (key : A → option K) (value : A → V) (agg : list V → W) (l : list A)
    (k : K) (w : W) :
  (k, w) ∈ groupby le key value agg l
  ↔ (∃ a, a ∈ l ∧ key a = Some k) ∧ w = agg (group_values key value k l).
Proof.
  unfold groupby. rewrite list_elem_of_fmap. split.
  - intros (k' & [= -> ->] & Hk). rewrite lexsort_perm in Hk.
    by apply group_keys_elem_of in Hk.
  - intros [Hk ->]. exists k. split; [done|].
    rewrite lexsort_perm. by apply group_keys_elem_of.
Qed.

Lemma groupby_NoDup {A K V W} `{EqDecision K} (le : K → K → bool)
    (key : A → option K) (value : A → V) (agg : list V → W) (l : list A) :
  NoDup (fst <$> groupby le key value agg l).
Proof.
  unfold groupby. rewrite <- list_fmap_compose.
  assert (Hid : ∀ ks : list K,
            (fst ∘ (fun k => (k, agg (group_values key value k l)))) <$> ks
            = ks).
  { intros ks. induction ks as [|k ks IH]; [done|].
    rewrite fmap_cons. simpl. by rewrite IH. }
  rewrite Hid, lexsort_perm. apply NoDup_remove_dups.
Qed.

Lemma drop_duplicates_elem_of {A K} `{EqDecision K} (key : A → K)
    (seen : list K) (l : list A) (a : A) :
  a ∈ drop_duplicates key seen l
  ↔ (key a ∉ seen)
    ∧ ∃ l1 l2, l = l1 ++ a :: l2 ∧ (key a ∉ key <$> l1).
Proof.
  revert seen. induction l as [|b l IH]; intros seen; simpl.
  - split; [by intros ?%elem_of_nil|]. intros (_ & l1 & l2 & Hl & _).
    by destruct l1.
  - destruct (decide (key b ∈ seen)) as [Hb|Hb].
    + rewrite IH. split.
      * intros (Ha & l1 & l2 & -> & Hl1). split; [done|].
        exists (b :: l1), l2. split; [done|]. rewrite fmap_cons.
        rewrite not_elem_of_cons. split; [|done]. intros Heq. congruence.
      * intros (Ha & l1 & l2 & Hl & Hl1). split; [done|].
        destruct l1 as [|c l1]; simpl in Hl; injection Hl as <- ->.
        { done. }
        exists l1, l2. split; [done|]. rewrite fmap_cons in Hl1.
        by apply not_elem_of_cons in Hl1 as [_ ?].
    + rewrite elem_of_cons, IH. split.
      * intros [->|(Ha & l1 & l2 & -> & Hl1)].
        { split; [done|]. exists [], l. split; [done|]. apply not_elem_of_nil. }
        apply not_elem_of_cons in Ha as [Hne Ha]. split; [done|].
        exists (b :: l1), l2. split; [done|]. rewrite fmap_cons.
        rewrite not_elem_of_cons. split; [|done]. congruence.
      * intros (Ha & l1 & l2 & Hl & Hl1).
        destruct l1 as [|c l1]; simpl in Hl; injection Hl as <- ->.
        { by left. }
        right. rewrite fmap_cons in Hl1.
        apply not_elem_of_cons in Hl1 as [Hne Hl1].
        split; [by apply not_elem_of_cons|]. by exists l1, l2.
Qed.

Lemma drop_duplicates_NoDup {A K} `{EqDecision K} (key : A → K)
    (seen : list K) (l : list A) :
  NoDup (key <$> drop_duplicates key seen l).
Proof.
  revert seen. induction l as [|b l IH]; intros seen; simpl.
  - constructor.
  - destruct (decide (key b ∈ seen)); [apply IH|].
    rewrite fmap_cons. constructor; [|apply IH].
    intros (a & Heq & Ha)%list_elem_of_fmap.
    apply drop_duplicates_elem_of in Ha as [Ha _].
    apply Ha. rewrite Heq. left.
Qed.

Lemma drop_duplicates_covers {A K} `{EqDecision K} (key : A → K)
    (seen : list K) (l : list A) (a : A) :
  a ∈ l → key a ∉ seen → key a ∈ key <$> drop_duplicates key seen l.
Proof.
  revert seen. induction l as [|b l IH]; intros seen Ha Hseen; simpl.
  - by apply elem_of_nil in Ha.
  - destruct (decide (key b ∈ seen)) as [Hb|Hb].
    + apply elem_of_cons in Ha as [->|Ha]; [done|]. by apply IH.
    + rewrite fmap_cons. destruct (decide (key a = key b)) as [->|Hne].
      * left.
      * right. apply elem_of_cons in Ha as [->|Ha]; [done|].
        apply IH; [done|]. by apply not_elem_of_cons.
Qed.

Lemma and_then_Z_total_preorder {A} (key : A → Z) (le : A → A → bool) :
  total_preorder le →
  total_preorder (fun a b => and_then (key a ?= key b)%Z (le a b)).
Proof.
  intros [Htotal Htrans]. split.
  - intros a b. destruct (Z.compare_spec (key a) (key b)) as [Heq|Hlt|Hgt];
      simpl; auto.
    + rewrite Heq, Z.compare_refl. simpl. apply Htotal.
    + right. apply Z.compare_lt_iff in Hgt. by rewrite Hgt.
  - intros a b c.
    destruct (Z.compare_spec (key a) (key b)) as [Hab|Hab|Hab]; simpl;
      [| |done];
      destruct (Z.compare_spec (key b) (key c)) as [Hbc|Hbc|Hbc]; simpl;
      try done;
      destruct (Z.compare_spec (key a) (key c)) as [Hac|Hac|Hac]; simpl;
      try done; try lia; eauto.
Qed.

Lemma always_total_preorder {A} : total_preorder (fun _ _ : A => true).
Proof. split; auto. Qed.

Lemma by_sku_quarter_volume_total_preorder :
  total_preorder by_sku_quarter_volume.
Proof.
  unfold by_sku_quarter_volume.
  apply (and_then_total_preorder rv_sku).
  apply (and_then_Z_total_preorder rv_year).
  apply (and_then_Z_total_preorder (fun v => period_year (rv_quarter v))).
  apply (and_then_Z_total_preorder (fun v => period_quarter (rv_quarter v))).
  split.
  - intros a b. rewrite !Z.leb_le. lia.
  - intros a b c. rewrite !Z.leb_le. lia.
Qed.

Lemma region_volume_fields k w :
  volume_key (region_volume (k, w)) = k ∧ rv_quantity (region_volume (k, w)) = w.
Proof. by destruct k as [[[[s y] q] i] n]. Qed.

Lemma region_volume_inv v :
  region_volume (volume_key v, rv_quantity v) = v.
Proof. by destruct v. Qed.

(** X17: [transaction_volume_by_region] returns one row for each sku, year
    and quarter that some row with a region holds: the row of the region
    whose summed quantity, an int64 sum of signed quantities, is the
    greatest among the regions of that sku, year and quarter.  The rows
    whose region cells are null, those of a sku that the catalog does not
    have, are not counted. *)
Theorem top_region_has_greatest_volume (enriched : DataFrame Enriched.row)
    (top : list RegionVolume) :
  transaction_volume_by_region enriched = Some top →
  NoDup (quarter_key <$> top)
  ∧ (∀ r s y q i n,
       r ∈ rows enriched → region_key_of r = Some (s, y, q, i, n) →
       (s, y, q) ∈ quarter_key <$> top)
  ∧ ∀ v, v ∈ top →
      (∃ r, r ∈ rows enriched ∧ region_key_of r = Some (volume_key v))
      ∧ rv_quantity v = region_total (rows enriched) (volume_key v)
      ∧ ∀ r i n,
          r ∈ rows enriched →
          region_key_of r = Some (rv_sku v, rv_year v, rv_quarter v, i, n) →
          (region_total (rows enriched)
             (rv_sku v, rv_year v, rv_quarter v, i, n) ≤ rv_quantity v)%Z.
Proof.
  unfold transaction_volume_by_region.
  destruct (require_columns _ _); [|done]. intros [= <-].
  set (G := groupby region_key_le region_key_of Enriched.quantity sum_int64
              (rows enriched)).
  set (sorted_grouped := lexsort by_sku_quarter_volume (region_volume <$> G)).
  assert (Hgroup : ∀ r k, r ∈ rows enriched → region_key_of r = Some k →
            region_volume (k, region_total (rows enriched) k) ∈ sorted_grouped).
  { intros r k Hr Hk. unfold sorted_grouped. rewrite lexsort_perm.
    apply list_elem_of_fmap_2. apply groupby_elem_of. split; [by eauto|done]. }
  assert (Hrow : ∀ v, v ∈ sorted_grouped →
            (∃ r, r ∈ rows enriched ∧ region_key_of r = Some (volume_key v))
            ∧ rv_quantity v = region_total (rows enriched) (volume_key v)).
  { intros v Hv. unfold sorted_grouped in Hv. rewrite lexsort_perm in Hv.
    apply list_elem_of_fmap in Hv as ([k w] & -> & Hkw).
    apply groupby_elem_of in Hkw as [Hk ->].
    destruct (region_volume_fields k
                (sum_int64 (group_values region_key_of Enriched.quantity k
                              (rows enriched)))) as [-> ->].
    done. }
  assert (Hsorted : StronglySorted (fun a b => by_sku_quarter_volume a b = true) sorted_grouped)
    by apply lexsort_sorted, by_sku_quarter_volume_total_preorder.
  split; [apply drop_duplicates_NoDup|]. split.
  - intros r s y q i n Hr Hk.
    pose proof (Hgroup r _ Hr Hk) as Hv.
    apply (drop_duplicates_covers quarter_key [] sorted_grouped) in Hv;
      [|apply not_elem_of_nil].
    exact Hv.
  - intros v Hv.
    apply drop_duplicates_elem_of in Hv as (_ & l1 & l2 & Hsplit & Hfirst).
    assert (HvS : v ∈ sorted_grouped) by (rewrite Hsplit; apply elem_of_app; right; left).
    destruct (Hrow v HvS) as [Hr Hq]. split; [done|]. split; [done|].
    intros r i n Hr' Hk'.
    pose proof (Hgroup r _ Hr' Hk') as Hv'.
    set (v' := region_volume (rv_sku v, rv_year v, rv_quarter v, i, n,
                  region_total (rows enriched)
                    (rv_sku v, rv_year v, rv_quarter v, i, n))) in *.
    assert (Hq' : rv_quantity v'
                  = region_total (rows enriched)
                      (rv_sku v, rv_year v, rv_quarter v, i, n)) by done.
    rewrite <- Hq'.
    rewrite Hsplit in Hv', Hsorted.
    apply elem_of_app in Hv' as [Hv'|Hv'].
    { destruct Hfirst. apply list_elem_of_fmap. by exists v'. }
    apply elem_of_cons in Hv' as [->|Hv']; [lia|].
    apply StronglySorted_app in Hsorted as (_ & _ & Hsorted).
    apply StronglySorted_inv in Hsorted as [_ Hall].
    rewrite Forall_forall in Hall. specialize (Hall v' Hv').
    unfold by_sku_quarter_volume in Hall. simpl in Hall.
    rewrite compare_refl, !Z.compare_refl in Hall. simpl in Hall.
    by apply Z.leb_le.
Qed.

(** ** The order of float64 *)

Lemma SFleb_pos (m1 m2 : positive) (e1 e2 : Z) :
  SFleb (S754_finite false m1 e1) (S754_finite false m2 e2) = true
  ↔ (e1 < e2 ∨ (e1 = e2 ∧ Z.pos m1 ≤ Z.pos m2))%Z.
Proof.
  unfold SFleb, SFcompare.
  change (Pos.compare_cont Eq m1 m2) with (Pos.compare m1 m2).
  destruct (Z.compare_spec e1 e2); [destruct (Pos.compare_spec m1 m2)| |];
    split; intros; try done; lia.
Qed.

Lemma SFleb_neg (m1 m2 : positive) (e1 e2 : Z) :
  SFleb (S754_finite true m1 e1) (S754_finite true m2 e2) = true
  ↔ (e2 < e1 ∨ (e1 = e2 ∧ Z.pos m2 ≤ Z.pos m1))%Z.
Proof.
  unfold SFleb, SFcompare.
  change (Pos.compare_cont Eq m1 m2) with (Pos.compare m1 m2).
  destruct (Z.compare_spec e1 e2); [destruct (Pos.compare_spec m1 m2)| |];
    simpl; split; intros; try done; lia.
Qed.

Lemma SFleb_total (x y : float) :
  isna x = false → isna y = false → SFleb x y = true ∨ SFleb y x = true.
Proof.
  intros Hx Hy.
  destruct x as [sx|sx| |sx mx ex], y as [sy|sy| |sy my ey]; try done;
    try destruct sx; try destruct sy; try (by left); try (by right).
  - rewrite !SFleb_neg. lia.
  - rewrite !SFleb_pos. lia.
Qed.

Lemma SFleb_trans (x y z : float) :
  SFleb x y = true → SFleb y z = true → SFleb x z = true.
Proof.
  intros Hxy Hyz.
  destruct x as [sx|sx| |sx mx ex], y as [sy|sy| |sy my ey],
    z as [sz|sz| |sz mz ez]; try done;
    try destruct sx; try destruct sy; try destruct sz; try done.
  - rewrite SFleb_neg in *. lia.
  - rewrite SFleb_pos in *. lia.
Qed.

Lemma float_desc_total_preorder : total_preorder float_desc.
Proof.
  unfold float_desc. split.
  - intros x y. destruct (isna y) eqn:Hy; [by left|].
    destruct (isna x) eqn:Hx; [by right|].
    destruct (SFleb_total x y Hx Hy); auto.
  - intros x y z. destruct (isna z) eqn:Hz; [done|].
    destruct (isna y) eqn:Hy; [done|].
    destruct (isna x) eqn:Hx; [done|].
    intros Hyx Hzy. by eapply SFleb_trans.
Qed.

Lemma by_value_desc_total_preorder : total_preorder by_value_desc.
Proof. apply (total_preorder_key float_desc bp_value), float_desc_total_preorder. Qed.

(** ** The analyses: the brands *)

Lemma brand_profit_fields k w :
  brand_key (brand_profit (k, w)) = k ∧ bp_value (brand_profit (k, w)) = w.
Proof. by destruct k as [[i n] s]. Qed.

Section Brands.

Variable quicksort : ∀ A : Type, (A → A → bool) → list A → list A.
Hypothesis quicksort_sorts : sorts quicksort.
Variable float64_sum : list float → float.

(** X19: [most_profitable_brands] returns at most two rows, for two
    different pairs of a brand and a sku that have a sale in 2024 with a
    week number of 21 at most.  The value of a row is the float64 sum of
    the transaction values of the sales of its pair that are not null, and
    no pair left out has a sum above that of a row returned, a null sum
    counting as the least.  The rows are pairs of brand and sku: the two
    rows can be of one brand. *)
Theorem top_brands_have_greatest_value (enriched : DataFrame Enriched.row)
    (top2 : list BrandProfit) :
  most_profitable_brands quicksort float64_sum enriched = Some top2 →
  length top2 ≤ 2
  ∧ NoDup (brand_key <$> top2)
  ∧ ∀ b, b ∈ top2 →
      (∃ r, r ∈ rows enriched ∧ early_2024_sale r = true
            ∧ brand_key_of r = Some (brand_key b))
      ∧ bp_value b = brand_total float64_sum (rows enriched) (brand_key b)
      ∧ ∀ r k,
          r ∈ rows enriched → early_2024_sale r = true →
          brand_key_of r = Some k → k ∉ brand_key <$> top2 →
          float_desc (bp_value b) (brand_total float64_sum (rows enriched) k)
          = true.
Proof using quicksort_sorts.
  unfold most_profitable_brands.
  destruct (require_columns _ _); [|done]. intros [= <-].
  fold (early_2024_sales (rows enriched)).
  set (agg := fun values : list float =>
                float64_sum (filter (fun x => isna x = false) values)).
  set (G := groupby brand_key_le brand_key_of Enriched.transaction_value agg
              (early_2024_sales (rows enriched))).
  set (top := quicksort _ by_value_desc (brand_profit <$> G)).
  assert (Hperm : top ≡ₚ brand_profit <$> G) by apply quicksort_sorts.
  assert (Hsorted : StronglySorted (fun a b => by_value_desc a b = true) top)
    by apply quicksort_sorts, by_value_desc_total_preorder.
  assert (Hkeys : brand_key <$> (brand_profit <$> G) = fst <$> G).
  { clear. induction G as [|[k w] G IH]; [done|].
    rewrite !fmap_cons, IH. f_equal. apply brand_profit_fields. }
  assert (Hnodup : NoDup (brand_key <$> top)).
  { rewrite Hperm, Hkeys. apply groupby_NoDup. }
  assert (Hgroup : ∀ r k, r ∈ rows enriched → early_2024_sale r = true →
            brand_key_of r = Some k →
            brand_profit (k, brand_total float64_sum (rows enriched) k) ∈ top).
  { intros r k Hr He Hk. rewrite Hperm. apply list_elem_of_fmap_2.
    apply groupby_elem_of. split; [|done]. exists r. split; [|done].
    by apply list_elem_of_filter. }
  split; [rewrite length_take; lia|]. split.
  { rewrite <- (take_drop 2 top), fmap_app in Hnodup.
    by apply NoDup_app in Hnodup as [? _]. }
  intros b Hb.
  assert (Hbtop : b ∈ top).
  { rewrite <- (take_drop 2 top). apply elem_of_app. by left. }
  pose proof Hbtop as Hbg. rewrite Hperm in Hbg.
  apply list_elem_of_fmap in Hbg as ([k w] & -> & Hkw).
  apply groupby_elem_of in Hkw as [(r & [He Hr]%list_elem_of_filter & Hk) ->].
  destruct (brand_profit_fields k
              (agg (group_values brand_key_of Enriched.transaction_value k
                      (early_2024_sales (rows enriched))))) as [Hbk Hbv].
  rewrite Hbk, Hbv. split; [by exists r|]. split; [done|].
  intros r' k' Hr' He' Hk' Hout.
  pose proof (Hgroup r' k' Hr' He' Hk') as Hg.
  set (g := brand_profit (k', brand_total float64_sum (rows enriched) k')) in *.
  assert (Hgv : bp_value g = brand_total float64_sum (rows enriched) k')
    by apply brand_profit_fields.
  assert (Hgk : brand_key g = k') by apply brand_profit_fields.
  rewrite <- (take_drop 2 top) in Hg, Hsorted.
  apply elem_of_app in Hg as [Hg|Hg].
  { destruct Hout. apply list_elem_of_fmap. exists g. by rewrite Hgk. }
  apply StronglySorted_app in Hsorted as (Hcross & _ & _).
  specialize (Hcross _ _ Hb Hg). unfold by_value_desc in Hcross.
  by rewrite Hbv, Hgv in Hcross.
Qed.

End Brands.

Lemma report_run_regions :
  (fun v => (rv_sku v, rv_year v, quarter_label (rv_quarter v),
             rv_region_name v, rv_quantity v)) <$> report_regions
  = [ ("WINE-OPU-001", 2024%Z, "2024Q1", "Napa Valley", (-2)%Z);
      ("WINE-OPU-001", 2024%Z, "2024Q4", "Napa Valley", 2%Z) ].
Proof. vm_compute. reflexivity. Qed.

Lemma report_run_brands :
  (fun b => (bp_brand_name b, bp_sku b, bp_value b)) <$> report_brands
  = [ ("Opus One", "WINE-OPU-001", float_of_int 125) ].
Proof. vm_compute. reflexivity. Qed.

Lemma top_region_has_greatest_volume_witness :
  transaction_volume_by_region report_frame = Some report_regions
  ∧ NoDup (quarter_key <$> report_regions)
  ∧ ∀ v, v ∈ report_regions →
      rv_quantity v = region_total (rows report_frame) (volume_key v).
Proof.
  assert (H : transaction_volume_by_region report_frame = Some report_regions)
    by (vm_compute; reflexivity).
  destruct (top_region_has_greatest_volume _ _ H) as (Hnodup & _ & Hrows).
  split; [exact H|]. split; [exact Hnodup|].
  intros v Hv. by destruct (Hrows v Hv) as (_ & ? & _).
Defined.

Lemma top_brands_have_greatest_value_witness :
  most_profitable_brands stable_sort sum_from_left report_frame
  = Some report_brands
  ∧ length report_brands ≤ 2
  ∧ NoDup (brand_key <$> report_brands).
Proof.
  assert (H : most_profitable_brands stable_sort sum_from_left report_frame
              = Some report_brands) by (vm_compute; reflexivity).
  destruct (top_brands_have_greatest_value stable_sort stable_sort_sorts
              sum_from_left _ _ H) as (Hlen & Hnodup & _).
  split; [exact H|]. split; [exact Hlen | exact Hnodup].
Defined.

(** ** The analyses: the weeks of 2024 *)

Section Weeks.

Local Open Scope Z_scope.

Lemma year_of_2024 (ns : Z) :
  year_of ns = 2024 ↔ 19723 ≤ ns / ns_per_day < 20089.
Proof.
  unfold year_of, date_of, civil_from_days. cbv zeta. cbn [fst].
  set (z := ns / ns_per_day). clearbody z.
  repeat match goal with
         | |- context [Z.ltb ?a ?b] => destruct (Z.ltb_spec a b)
         | |- context [Z.leb ?a ?b] => destruct (Z.leb_spec a b)
         end.
  all: Z.to_euclidean_division_equations; lia.
Qed.

Lemma iso_week_2024 (ns : Z) :
  year_of ns = 2024 →
  (iso_week_of ns ≤ 21
   ↔ ns / ns_per_day ≤ 19869 ∨ 20087 ≤ ns / ns_per_day).
Proof.
  intros Hy. pose proof (proj1 (year_of_2024 ns) Hy) as Hday.
  unfold iso_week_of. rewrite Hy. cbv zeta.
  change (days_from_civil 2024 1 1) with 19723.
  change (iso_weeks_in_year (2024 - 1)) with 52.
  change (iso_weeks_in_year 2024) with 52.
  unfold iso_weekday.
  set (z := ns / ns_per_day) in *. clearbody z.
  repeat match goal with
         | |- context [Z.ltb ?a ?b] => destruct (Z.ltb_spec a b)
         end.
  all: Z.to_euclidean_division_equations; lia.
Qed.

(** X20: the filter of [most_profitable_brands], the year 2024 and a week
    number of 21 at most, keeps the sales dated from the first of January
    to the twenty-sixth of May 2024, and also those of the thirtieth and
    the thirty-first of December 2024, which belong to week 1 of the ISO
    year 2025; it keeps no other row. *)
Theorem early_2024_window (r : Enriched.row) (ns : Z) :
  Enriched.year r = Some (year_of ns) →
  Enriched.week r = Some (iso_week_of ns) →
  early_2024_sale r = true
  ↔ Enriched.action r = "sell"
    ∧ (days_from_civil 2024 1 1 ≤ ns / ns_per_day ≤ days_from_civil 2024 5 26
       ∨ days_from_civil 2024 12 30 ≤ ns / ns_per_day
         ≤ days_from_civil 2024 12 31).
Proof.
  intros Hyear Hweek. unfold early_2024_sale. rewrite Hyear, Hweek. simpl.
  change (days_from_civil 2024 1 1) with 19723.
  change (days_from_civil 2024 5 26) with 19869.
  change (days_from_civil 2024 12 30) with 20087.
  change (days_from_civil 2024 12 31) with 20088.
  rewrite !andb_true_iff, Z.eqb_eq, Z.leb_le, String.eqb_eq.
  pose proof (year_of_2024 ns) as Hy. pose proof (iso_week_2024 ns) as Hw.
  split.
  - intros [[Hy' Hw'] Hsell]. split; [done|].
    apply Hw in Hw'; [|done]. apply Hy in Hy'. lia.
  - intros [Hsell Hday].
    assert (Hy' : year_of ns = 2024) by (apply Hy; lia).
    split; [split; [done|]|done]. apply Hw; [done|]. lia.
Qed.

End Weeks.

Lemma early_2024_window_witness :
  year_end_row ∈ rows report_frame
  ∧ Enriched.timestamp year_end_row = Some year_end_ns
  ∧ date_of year_end_ns = (2024, 12, 30)%Z
  ∧ early_2024_sale year_end_row = true.
Proof.
  split; [apply list_elem_of_In; vm_compute; tauto|].
  split; [reflexivity|]. split; [vm_compute; reflexivity|].
  apply (early_2024_window year_end_row year_end_ns).
  - vm_compute. reflexivity.
  - vm_compute. reflexivity.
  - split; [reflexivity|]. right.
    change (days_from_civil 2024 12 30) with 20087%Z.
    change (days_from_civil 2024 12 31) with 20088%Z.
    change (year_end_ns / ns_per_day)%Z with 20087%Z. lia.
Defined.

(** ** The script and its reports *)

Lemma rename_label_other (mapping : list (string * string)) (l L : string) :
  L ∉ snd <$> mapping → L ∉ fst <$> mapping →
  rename_label mapping l = L ↔ l = L.
Proof.
  induction mapping as [|[k v] mapping IH]; [done|].
  rewrite !fmap_cons, !not_elem_of_cons. simpl. intros [Hv Hvs] [Hk Hks].
  rewrite rename_label_cons. destruct (String.eqb_spec k l) as [<-|Hne].
  - split; intros; congruence.
  - by apply IH.
Qed.

Lemma read_skus_other_column (table : DataFrame (list cell)) (L : string) :
  L ∉ "sku" :: (snd <$> sku_renames) → L ∉ "code" :: (fst <$> sku_renames) →
  L ∈ columns (rename sku_renames (rename [("code", "sku")] table))
  ↔ L ∈ columns table.
Proof.
  rewrite !not_elem_of_cons. intros [Hsku Htargets] [Hcode Hkeys].
  unfold rename; simpl. rewrite <- list_fmap_compose.
  assert (Hlabel : ∀ l, rename_label sku_renames
                          (rename_label [("code", "sku")] l) = L ↔ l = L).
  { intros l. rewrite (rename_label_other sku_renames) by done.
    apply rename_label_other; simpl; rewrite not_elem_of_cons;
      split; try done; apply not_elem_of_nil. }
  rewrite list_elem_of_fmap. split.
  - intros (l & Hl & Hin). symmetry in Hl. by apply Hlabel in Hl as ->.
  - intros Hin. exists L. split; [|done]. symmetry. by apply Hlabel.
Qed.

Lemma enriched_columns_catalog (sku_df : DataFrame (list cell)) (L : string) :
  L ∉ dropped_columns → L ≠ "sku" → L ∉ transaction_columns →
  L ∉ ["price_time"; "market_price"] ++ assigned_columns →
  L ∈ enriched_columns sku_df ↔ L ∈ columns sku_df.
Proof.
  intros Hdrop Hsku Htx Hfixed. unfold enriched_columns.
  rewrite list_elem_of_filter, !elem_of_app, list_elem_of_filter.
  rewrite elem_of_app in Hfixed. tauto.
Qed.

Lemma enriched_columns_fixed (sku_df : DataFrame (list cell)) (L : string) :
  L ∉ dropped_columns →
  L ∈ transaction_columns ++ ["price_time"; "market_price"] ++ assigned_columns →
  L ∈ enriched_columns sku_df.
Proof.
  intros Hdrop Hin. unfold enriched_columns.
  rewrite list_elem_of_filter, !elem_of_app.
  rewrite !elem_of_app in Hin. tauto.
Qed.

Ltac label_in := apply list_elem_of_In; simpl; tauto.
Ltac label_out :=
  let H := fresh in
  intros H; apply list_elem_of_In in H; simpl in H;
  repeat destruct H as [H|H]; done.

Section Reports.

Variable quicksort : ∀ A : Type, (A → A → bool) → list A → list A.
Variable float64_sum : list float → float.


End Reports.

(** ** parse_logs: files that end in a line feed *)

Lemma endswith_nl_cons (c d : ascii) (s : string) :
  endswith (String c (String d s)) nl = endswith (String d s) nl.
Proof.
  unfold endswith, nl. cbn [String.length].
  replace (S (S (String.length s)) - 1) with (S (String.length s)) by lia.
  replace (S (String.length s) - 1) with (String.length s) by lia.
  reflexivity.
Qed.

Lemma endswith_nl_app (a f : string) :
  endswith f nl = true → endswith (a +:+ f) nl = true.
Proof.
  intros Hf. induction a as [|c a IH]; [done|]. rewrite str_app_cons.
  destruct (a +:+ f) as [|d s] eqn:Hs.
  - destruct a; [|done]. rewrite str_app_empty_l in Hs. by rewrite Hs in Hf.
  - by rewrite endswith_nl_cons.
Qed.

Lemma endswith_nl_here (a : string) : endswith (a +:+ nl) nl = true.
Proof. by apply endswith_nl_app. Qed.

Lemma append_file_line_feed (full_text file_content : string) :
  full_text = "" ∨ endswith full_text nl = true →
  file_content = "" ∨ endswith file_content nl = true →
  append_file full_text file_content = full_text +:+ nl +:+ file_content
  ∧ endswith (full_text +:+ nl +:+ file_content) nl = true.
Proof.
  intros Ht Hf. split.
  - unfold append_file. destruct Ht as [->| ->]; [done|].
    by rewrite andb_false_r.
  - destruct Hf as [->|Hf].
    + rewrite str_app_empty_r. apply endswith_nl_here.
    + rewrite <- str_app_assoc. by apply endswith_nl_app.
Qed.

(** X21: when every log file is empty or ends in a line feed, the merged
    text is the files in order, each preceded by a line feed: the first
    line of a file is never joined to the last line of the file before
    it. *)
Theorem merge_files_separates_lines (log_files : list string) :
  Forall (fun f => f = "" ∨ endswith f nl = true) log_files →
  merge_files log_files = str_concat ((fun f => nl +:+ f) <$> log_files).
Proof.
  intros Hall. unfold merge_files.
  assert (Hgen : ∀ acc, acc = "" ∨ endswith acc nl = true →
            foldl append_file acc log_files
            = acc +:+ str_concat ((fun f => nl +:+ f) <$> log_files)).
  { induction Hall as [|f files Hf _ IH]; intros acc Hacc; simpl.
    - by rewrite str_app_empty_r.
    - destruct (append_file_line_feed acc f Hacc Hf) as [-> Hend].
      rewrite IH by (by right). by rewrite !str_app_assoc. }
  rewrite Hgen by (by left). done.
Qed.

Lemma merge_files_separates_lines_witness :
  merge_files scenario_logs
  = nl +:+ order_line +:+ nl +:+ nl +:+ settlement_line +:+ nl.
Proof.
  rewrite (merge_files_separates_lines scenario_logs).
  - reflexivity.
  - repeat constructor; right; vm_compute; reflexivity.
Defined.
